(** * tree_to_sas: translation of rendered decision trees to SAS code

    A shallow embedding of [src/tree_to_sas.py] ([get_rules],
    [translate_text_to_sas], [get_front_add]) together with the Python
    built-ins the translator relies on ([str] methods, [float], the ['g']
    format), followed by the properties of the translator.

    Python strings are modelled as lists of characters whose code points
    are below 256 ([list ascii]); Python integers as [Z] (lengths as
    [nat]); Python floats as IEEE binary64 values ([spec_float] with
    precision 53 and maximal exponent 1024); the dictionary
    [dict_space_count] as a [gmap] keyed by strings; the list
    [current_elseif_count] as a list whose last element is the top. *)

From Stdlib Require Import ZArith Lia List Ascii String Bool.
From Stdlib Require Import DecimalString DecimalZ DecimalPos.
From Stdlib Require Import Floats.SpecFloat.
From Stdlib Require Import QArith Qpower Qabs Lqa.
From stdpp Require Import base list gmap strings.

Import ListNotations.

(** Python [str]: a sequence of code points (here below 256). *)
Abbreviation str := (list ascii).

(** String literals. *)
Definition py (s : string) : str := list_ascii_of_string s.
Global Arguments py : simpl never.

(* ===================================================================== *)
(** ** Python string built-ins                                            *)
(* ===================================================================== *)

Module PyStr.

(** [' ' * n] for a length [n]. *)
Definition spaces (n : nat) : str := repeat " "%char n.

(** [s * k] for an integer [k]: the empty string when [k <= 0]. *)
Definition times (s : str) (k : Z) : str :=
  concat (repeat s (Z.to_nat k)).

(** [str.isspace] on one character: the code points below 256 that Python
    treats as whitespace (TAB, LF, VT, FF, CR, FS, GS, RS, US, SPACE,
    NEL, NBSP). *)
Definition is_space (c : ascii) : bool :=
  let n := nat_of_ascii c in
  ((9 <=? n) && (n <=? 13) || (28 <=? n) && (n <=? 32)
   || (n =? 133) || (n =? 160))%nat.

Definition eqc (a b : ascii) : bool := Ascii.eqb a b.
Global Arguments eqc : simpl never.

(** [s.rstrip()]: drop trailing whitespace. *)
Fixpoint rstrip (s : str) : str :=
  match s with
  | [] => []
  | c :: s' =>
      match rstrip s' with
      | [] => if is_space c then [] else [c]
      | r => c :: r
      end
  end.

(** [s.lstrip()]: drop leading whitespace. *)
Fixpoint lstrip (s : str) : str :=
  match s with
  | [] => []
  | c :: s' => if is_space c then lstrip s' else s
  end.

(** [s.lstrip(chars)]: drop leading characters that occur in [chars]. *)
Fixpoint lstrip_chars (chars : str) (s : str) : str :=
  match s with
  | [] => []
  | c :: s' => if existsb (eqc c) chars then lstrip_chars chars s' else s
  end.

(** [s.startswith(p)]. *)
Fixpoint startswith (p s : str) : bool :=
  match p, s with
  | [], _ => true
  | _ :: _, [] => false
  | a :: p', b :: s' => eqc a b && startswith p' s'
  end.

(** [sub in s]: substring containment. *)
Fixpoint contains (sub s : str) : bool :=
  startswith sub s ||
  match s with
  | [] => false
  | _ :: s' => contains sub s'
  end.

(** [s.replace(old, new)] for a non-empty [old]: scan from the left; at a
    match emit [new] and step over the matched characters ([skip] counts
    the characters of the current match still to be stepped over). *)
Fixpoint replace_from (old new : str) (skip : nat) (s : str) : str :=
  match s with
  | [] => []
  | c :: s' =>
      match skip with
      | S k => replace_from old new k s'
      | O =>
          if startswith old s
          then new ++ replace_from old new (length old - 1) s'
          else c :: replace_from old new 0 s'
      end
  end.

(** [s.replace(old, new)]; with an empty [old], [new] is inserted before
    every character and at the end. *)
Definition replace (old new s : str) : str :=
  match old with
  | [] => new ++ flat_map (fun c => c :: new) s
  | _ :: _ => replace_from old new 0 s
  end.

(** [s.split(sep)] for a one-character separator: the pieces between
    the separators, empty pieces included. *)
Fixpoint split (sep : ascii) (s : str) : list str :=
  match s with
  | [] => [[]]
  | c :: s' =>
      if eqc c sep then [] :: split sep s'
      else match split sep s' with
           | l :: ls => (c :: l) :: ls
           | [] => [[c]]
           end
  end.

(** The last whitespace-free word of a string without trailing
    whitespace, scanning the reversed string: [(word, rest)] reversed. *)
Fixpoint span_word (r : str) : str * str :=
  match r with
  | [] => ([], [])
  | c :: r' =>
      if is_space c then ([], r)
      else let '(w, rest) := span_word r' in (c :: w, rest)
  end.

(** [s.rsplit(maxsplit=1)]: split once, from the right, at a run of
    whitespace.  Trailing whitespace is dropped first; the head keeps its
    leading whitespace and loses its trailing whitespace; a head made of
    whitespace only is not returned. *)
Definition rsplit1 (s : str) : list str :=
  match lstrip (rev s) with
  | [] => []
  | r =>
      let '(w, rest) := span_word r in
      match lstrip rest with
      | [] => [rev w]
      | h => [rev h; rev w]
      end
  end.

(** [str(n)] for an integer. *)
Definition str_of_int (n : Z) : str :=
  list_ascii_of_string (NilZero.string_of_int (Z.to_int n)).

End PyStr.

(* ===================================================================== *)
(** ** Python floats: [float(str)] and the ['g'] format                   *)
(* ===================================================================== *)

Module PyFloat.
Local Open Scope Z_scope.

(** A Python float is an IEEE binary64 value. *)
Abbreviation float := spec_float.

(** *** Exact rational arithmetic on fractions [a / b] *)

(** [(a / b) / base^k] as a fraction. *)
Definition scale (base a b k : Z) : Z * Z :=
  if 0 <=? k then (a, b * base ^ k) else (a * base ^ (- k), b).

Definition scale2 (a b k : Z) : Z * Z := scale 2 a b k.
Definition scale10 (a b k : Z) : Z * Z := scale 10 a b k.

(** Nearest integer to [num / den], ties to even. *)
Definition round_half_even (num den : Z) : Z :=
  let q := num / den in
  let r := num mod den in
  if 2 * r <? den then q
  else if den <? 2 * r then q + 1
  else if Z.even q then q else q + 1.

(** [floor (log2 (a / b))] for positive [a], [b]. *)
Definition ilog2 (a b : Z) : Z :=
  let l := Z.log2 a - Z.log2 b in
  let '(n, d) := scale2 a b l in
  if d <=? n then l else l - 1.

(** The largest [k] below [fuel] steps with [b * 10^k <= a]. *)
Fixpoint count_up (fuel : nat) (a b : Z) : Z :=
  match fuel with
  | O => 0
  | S f => if b * 10 <=? a then 1 + count_up f a (b * 10) else 0
  end.

(** The smallest [k] with [b <= a * 10^k]. *)
Fixpoint count_down (fuel : nat) (a b : Z) : Z :=
  match fuel with
  | O => 0
  | S f => if b <=? a then 0 else 1 + count_down f (a * 10) b
  end.

(** [floor (log10 (a / b))] for positive [a], [b]. *)
Definition ilog10 (a b : Z) : Z :=
  if b <=? a then count_up (S (Z.to_nat (Z.log2 a))) a b
  else - count_down (S (Z.to_nat (Z.log2 b))) a b.

(** *** Rounding to binary64 (round to nearest, ties to even) *)

(** The binary64 value nearest to the positive rational [a / b]:
    53 significant bits, exponents of the unit in the last place from
    -1074 (subnormals) to 971, overflow to infinity. *)
Definition round_binary64 (s : bool) (a b : Z) : float :=
  let e := Z.max (ilog2 a b - 52) (-1074) in
  let '(n, d) := scale2 a b e in
  let m := round_half_even n d in
  let '(m, e) := if m =? 2 ^ 53 then (2 ^ 52, e + 1) else (m, e) in
  if m =? 0 then S754_zero s
  else if 971 <? e then S754_infinity s
  else S754_finite s (Z.to_pos m) e.

(** The float nearest to [(-1)^s * m * 10^e]. *)
Definition float_of_decimal (s : bool) (m e : Z) : float :=
  if m =? 0 then S754_zero s
  else let '(a, b) := scale10 m 1 (- e) in round_binary64 s a b.

(** *** [float(str)] *)

Definition is_digit (c : ascii) : bool :=
  let n := nat_of_ascii c in ((48 <=? n) && (n <=? 57))%nat.

Definition digit_val (c : ascii) : Z := Z.of_nat (nat_of_ascii c) - 48.

(** The integer written by a string of digits. *)
Definition digit_step (acc : Z) (c : ascii) : Z := 10 * acc + digit_val c.

Definition digits_val (ds : str) : Z := fold_left digit_step ds 0.

(** Leading digits and the rest. *)
Fixpoint span_digits (s : str) : str * str :=
  match s with
  | [] => ([], [])
  | c :: s' =>
      if is_digit c then let '(ds, rest) := span_digits s' in (c :: ds, rest)
      else ([], s)
  end.

(** Underscores may only separate digits; they are dropped.  [prev] is
    the previous character (NUL at the start). *)
Fixpoint drop_underscores (prev : ascii) (s : str) : option str :=
  match s with
  | [] => if PyStr.eqc prev "_" then None else Some []
  | c :: s' =>
      if PyStr.eqc c "_" then
        if is_digit prev then drop_underscores c s' else None
      else if PyStr.eqc prev "_" && negb (is_digit c) then None
      else option_map (cons c) (drop_underscores c s')
  end.

(** An optional sign: [true] for ['-']. *)
Definition parse_sign (s : str) : bool * str :=
  match s with
  | c :: s' =>
      if PyStr.eqc c "-" then (true, s')
      else if PyStr.eqc c "+" then (false, s')
      else (false, s)
  | [] => (false, [])
  end.

(** ASCII lower case. *)
Definition lower (c : ascii) : ascii :=
  let n := nat_of_ascii c in
  if ((65 <=? n) && (n <=? 90))%nat then ascii_of_nat (n + 32) else c.

Definition eq_str (a b : str) : bool :=
  bool_decide (a = b).

(** An optional exponent part [e[+-]digits] that must reach the end of
    the string. *)
Definition parse_exponent (s : str) : option Z :=
  match s with
  | [] => Some 0
  | c :: s' =>
      if PyStr.eqc (lower c) "e" then
        let '(neg, s'') := parse_sign s' in
        let '(ds, rest) := span_digits s'' in
        match ds, rest with
        | _ :: _, [] => Some (if neg then - digits_val ds else digits_val ds)
        | _, _ => None
        end
      else None
  end.

(** A decimal literal [digits[.digits][exponent]] or [.digits[exponent]]
    as mantissa and decimal exponent. *)
Definition parse_decimal (s : str) : option (Z * Z) :=
  let '(ip, rest) := span_digits s in
  let '(fp, rest) :=
    match rest with
    | c :: rest' =>
        if PyStr.eqc c "." then span_digits rest' else ([], rest)
    | [] => ([], [])
    end in
  match ip ++ fp with
  | [] => None
  | ds =>
      match parse_exponent rest with
      | Some e => Some (digits_val ds, e - Z.of_nat (length fp))
      | None => None
      end
  end.

(** [float(s)]: [None] stands for the [ValueError] that Python raises. *)
Definition float_of_str (s : str) : option float :=
  match drop_underscores "000" (PyStr.rstrip (PyStr.lstrip s)) with
  | None => None
  | Some t =>
      let '(neg, body) := parse_sign t in
      let low := map lower body in
      if eq_str low (py "inf") || eq_str low (py "infinity")
      then Some (S754_infinity neg)
      else if eq_str low (py "nan") then Some S754_nan
      else match parse_decimal body with
           | Some (m, e) => Some (float_of_decimal neg m e)
           | None => None
           end
  end.

(** The characters of the strings that [float] accepts. *)
Definition float_char (c : ascii) : bool :=
  is_digit c || PyStr.is_space c
  || existsb (PyStr.eqc (lower c)) (py "+-._einfaty").

(** *** The ['g'] format with the default precision of six digits *)

(** Six significant digits of the positive rational [a / b], correctly
    rounded (ties to even): [(n, X)] with [10^5 <= n < 10^6] and
    [a / b] nearest to [n * 10^(X - 5)]. *)
Definition round_sig6 (a b : Z) : Z * Z :=
  let X := ilog10 a b in
  let '(n, d) := scale10 a b (X - 5) in
  let m := round_half_even n d in
  if m =? 10 ^ 6 then (10 ^ 5, X + 1) else (m, X).

Definition digit_char (d : Z) : ascii := ascii_of_nat (48 + Z.to_nat d).

(** The six digits of [n < 10^6], most significant first. *)
Definition digits6 (n : Z) : str :=
  map (fun i => digit_char ((n / 10 ^ i) mod 10)) [5; 4; 3; 2; 1; 0].

(** Drop trailing zeros. *)
Fixpoint strip_zeros (ds : str) : str :=
  match ds with
  | [] => []
  | c :: ds' =>
      match strip_zeros ds' with
      | [] => if PyStr.eqc c "0" then [] else [c]
      | r => c :: r
      end
  end.

(** A fractional part: nothing when it has no digit left. *)
Definition frac_part (ds : str) : str :=
  match strip_zeros ds with
  | [] => []
  | r => "."%char :: r
  end.

(** The exponent suffix [e+XX] or [e-XX], at least two digits. *)
Definition exp_part (X : Z) : str :=
  "e"%char :: (if X <? 0 then "-"%char else "+"%char)
  :: (if Z.abs X <? 10 then ["0"%char] else []) ++ PyStr.str_of_int (Z.abs X).

(** The text of [n * 10^(X - 5)]: scientific notation when the decimal
    exponent [X] is below -4 or at least 6 (the precision), fixed point
    otherwise; trailing zeros of the fraction are removed. *)
Definition repr_g (n X : Z) : str :=
  let ds := digits6 n in
  if (X <? -4) || (6 <=? X) then
    firstn 1 ds ++ frac_part (skipn 1 ds) ++ exp_part X
  else if X <? 0 then
    py "0." ++ repeat "0"%char (Z.to_nat (- X - 1)) ++ strip_zeros ds
  else
    firstn (Z.to_nat (X + 1)) ds ++ frac_part (skipn (Z.to_nat (X + 1)) ds).

Definition sign_part (s : bool) : str := if s then py "-" else [].

(** ['{:g}'.format(x)]. *)
Definition format_g (x : float) : str :=
  match x with
  | S754_nan => py "nan"
  | S754_infinity s => sign_part s ++ py "inf"
  | S754_zero s => sign_part s ++ py "0"
  | S754_finite s m e =>
      let '(a, b) := scale2 (Z.pos m) 1 (- e) in
      let '(n, X) := round_sig6 a b in
      sign_part s ++ repr_g n X
  end.

(** *** Exact values *)

(** The rational [a / b]. *)
Definition frac (a b : Z) : Q := (inject_Z a / inject_Z b)%Q.

(** The rational that a float stands for (0 for infinities and NaN). *)
Definition value (x : float) : Q :=
  match x with
  | S754_finite s m e =>
      ((if s then -1 else 1) * inject_Z (Z.pos m) * 2 ^ e)%Q
  | _ => 0%Q
  end.


End PyFloat.

(* ===================================================================== *)
(** ** Exceptions                                                         *)
(* ===================================================================== *)

(** The [ValueError]s the module can raise, one constructor per site. *)
Inductive exn : Type :=
| SpacingError
    (** [raise ValueError('spacing must be > 1')] in [get_rules] *)
| UnpackError (got : nat)
    (** [line, val = line.rsplit(maxsplit=1)] with [got] pieces, not 2 *)
| FloatError (val : str)
    (** [float(val)] on a string that is not a number *)
| RendererError (msg : str)
    (** an exception of the external [export_text] *).

Inductive result (A : Type) : Type :=
| Ok (a : A)
| Raise (e : exn).
Arguments Ok {A} a.
Arguments Raise {A} e.

Definition bind {A B} (r : result A) (k : A -> result B) : result B :=
  match r with
  | Ok a => k a
  | Raise e => Raise e
  end.

Notation "'let!' x ':=' r 'in' k" := (bind r (fun x => k))
  (at level 10, x name, r at level 100, k at level 200).

(* ===================================================================== *)
(** ** The translator ([src/tree_to_sas.py])                              *)
(* ===================================================================== *)

Module TreeToSas.
Import PyStr.

Definition nl : ascii := "010"%char.

(** ['END;\n'] *)
Definition END_nl : str := py "END;" ++ [nl].

(** [get_front_add(count, n_spaces)] *)
Definition get_front_add (count : Z) (n_spaces : nat) : str :=
  if (count mod 2 =? 0)%Z
  then END_nl ++ spaces (n_spaces + 2) ++ py "ELSE IF "
  else py "IF ".

(** [line.rstrip().replace('|',' ').replace('-', ' ')] *)
Definition normalize (line : str) : str :=
  replace (py "-") (py " ") (replace (py "|") (py " ") (rstrip line)).

(** [len(line) - len(line.lstrip(' '))] *)
Definition count_leading (line : str) : nat :=
  length line - length (lstrip_chars (py " ") line).

(** [str(n_spaces)], the key of a depth in [dict_space_count]. *)
Definition key (n_spaces : nat) : str := str_of_int (Z.of_nat n_spaces).

(** [d[key]]; the key is present at every read of the translator (it has
    just been set). *)
Definition getitem (d : gmap str Z) (key : str) : Z :=
  default 0%Z (d !! key).

(** The update of [dict_space_count] for one line: count the line under
    the key [str(n_spaces)], and uncount it when it contains ['class']. *)
Definition update_count (d : gmap str Z) (n_spaces : nat) (line : str)
  : gmap str Z :=
  let key := key n_spaces in
  let d1 :=
    match d !! key with
    | None => <[key := 1%Z]> d
    | Some c => <[key := (c + 1)%Z]> d
    end in
  if contains (py "class") line
  then <[key := (getitem d1 key - 1)%Z]> d1
  else d1.

(** The [while] loop closing blocks, on the stack with its top first:
    pop while the stack is not empty and [n_spaces] is below its top;
    returns the number of pops and the remaining stack. *)
Fixpoint pop_while (n_spaces : nat) (top_first : list nat) : nat * list nat :=
  match top_first with
  | [] => (O, [])
  | t :: rest =>
      if (n_spaces <? t)%nat
      then let '(k, r) := pop_while n_spaces rest in (S k, r)
      else (O, top_first)
  end.

(** What the loop body computes for one line before it rewrites the
    line: the normalised line, its depth, the updated counter, the role
    prefix, the pending terminators and the updated stack. *)
Record analysis : Type := {
  a_line : str;
  a_n_spaces : nat;
  a_dict : gmap str Z;
  a_front_add : str;
  a_pops : nat;
  a_add_end_front : str;
  a_stack : list nat
}.

Definition analyse (d : gmap str Z) (stack : list nat) (raw : str)
  : analysis :=
  let line := normalize raw in
  let n_spaces := count_leading line in
  let d' := update_count d n_spaces line in
  let front_add :=
    get_front_add (getitem d' (key n_spaces)) n_spaces in
  let '(k, r) := pop_while n_spaces (rev stack) in
  let stack1 := rev r in
  let stack2 :=
    if contains (py "ELSE") front_add && negb (contains (py "class") line)
    then stack1 ++ [n_spaces] else stack1 in
  {| a_line := line; a_n_spaces := n_spaces; a_dict := d';
     a_front_add := front_add; a_pops := k;
     a_add_end_front := concat (repeat END_nl k);
     a_stack := stack2 |}.

(** The rewriting of a condition line (lines 90-93). *)
Definition condition_line (n_spaces : nat) (front_add line : str)
  : result str :=
  match rsplit1 line with
  | [head; val] =>
      let head :=
        replace (spaces n_spaces) (spaces n_spaces ++ front_add) head in
      match PyFloat.float_of_str val with
      | Some x => Ok (head ++ py " " ++ PyFloat.format_g x ++ py " THEN DO;")
      | None => Raise (FloatError val)
      end
  | parts => Raise (UnpackError (length parts))
  end.

(** ['PREDICTED_VALUE_' + str(tree_id + 1) + ' ='] *)
Definition predicted_value (tree_id : Z) : str :=
  py "PREDICTED_VALUE_" ++ str_of_int (tree_id + 1) ++ py " =".

(** The rewriting of a prediction line (lines 95-97). *)
Definition class_line (tree_id : Z) (line : str) : str :=
  replace (py "class:") (predicted_value tree_id) line ++ py ";".

(** The rewritten line (lines 90-97): a line with a comparison operator
    goes through the condition branch, and the result, when it contains
    ['class'], through the prediction branch. *)
Definition translate_line (tree_id : Z) (a : analysis) : result str :=
  let! line1 :=
    (if contains (py "<") (a_line a) || contains (py ">") (a_line a)
     then condition_line (a_n_spaces a) (a_front_add a) (a_line a)
     else Ok (a_line a)) in
  Ok (if contains (py "class") line1 then class_line tree_id line1
      else line1).

(** The text appended to [sas_rules] for one line (lines 98-99). *)
Definition emit (tree_id : Z) (skip : str) (a : analysis) : result str :=
  let! line2 := translate_line tree_id a in
  Ok (skip ++ (a_add_end_front a ++ line2) ++ [nl]).

(** The state of the loop. *)
Record state : Type := {
  dict_space_count : gmap str Z;
  current_elseif_count : list nat;
  sas_rules : str
}.

(** One iteration of [for line in splitted_rules]. *)
Definition loop_body (tree_id : Z) (skip : str) (st : state) (raw : str)
  : result state :=
  let a := analyse (dict_space_count st) (current_elseif_count st) raw in
  let! chunk := emit tree_id skip a in
  Ok {| dict_space_count := a_dict a;
        current_elseif_count := a_stack a;
        sas_rules := sas_rules st ++ chunk |}.

Fixpoint loop (tree_id : Z) (skip : str) (st : state) (lines : list str)
  : result state :=
  match lines with
  | [] => Ok st
  | raw :: rest =>
      let! st' := loop_body tree_id skip st raw in
      loop tree_id skip st' rest
  end.

(** ['DATA DECISION_TREE_' + str(tree_id + 1) + ';\n'], then
    ['SET {};\n'.format(sas_table)]. *)
Definition header (tree_id : Z) (sas_table : str) : str :=
  (py "DATA DECISION_TREE_" ++ str_of_int (tree_id + 1) ++ py ";" ++ [nl])
  ++ (py "SET " ++ sas_table ++ py ";" ++ [nl]).

Definition init_state (tree_id : Z) (sas_table : str) : state :=
  {| dict_space_count := ∅;
     current_elseif_count := [];
     sas_rules := header tree_id sas_table |}.

(** The loop of [translate_text_to_sas], with its final state. *)
Definition run (tree_id : Z) (sas_table text : str) (spacing : Z)
  : result state :=
  loop tree_id (times (py " ") spacing) (init_state tree_id sas_table)
       (split nl text).

Section WithTree.
(** The fitted tree and the renderer are external. *)
Context {Tree : Type}.

(** [translate_text_to_sas(tree, tree_id, sas_table, features, text,
    spacing)]; [tree] and [features] are not used by the body. *)
Definition translate_text_to_sas (tree : Tree) (tree_id : Z)
    (sas_table : str) (features : list str) (text : str) (spacing : Z)
  : result str :=
  let! st := run tree_id sas_table text spacing in
  Ok (removelast (sas_rules st) ++ py "RUN;").

(** The external renderer [sklearn.tree.export_text(tree, feature_names,
    max_depth, decimals, spacing)]: it returns a text or raises (the
    message on the left), and whatever work it does is recorded in a
    state of its own. *)
Context {World : Type}.
Variable export_text :
  Tree -> list str -> Z -> Z -> Z -> World -> (str + str) * World.

(** [get_rules(tree, tree_id, features, sas_table, max_depth, spacing)] *)
Definition get_rules (tree : Tree) (tree_id : Z) (features : list str)
    (sas_table : str) (max_depth spacing : Z) (w : World)
  : result str * World :=
  if (spacing <? 2)%Z then (Raise SpacingError, w)
  else
    let '(rules, w') :=
      export_text tree features max_depth 6%Z (spacing - 1)%Z w in
    (match rules with
     | inl msg => Raise (RendererError msg)
     | inr rules =>
         translate_text_to_sas tree tree_id sas_table features rules spacing
     end, w').

End WithTree.

End TreeToSas.

(* ===================================================================== *)
(** ** The analysis of a whole text, and the rendered trees               *)
(* ===================================================================== *)

Module Model.
Import PyStr TreeToSas.

(** The analyses of the successive lines, each from the counter and the
    stack that the previous line left. *)
Fixpoint trace (d : gmap str Z) (stack : list nat) (lines : list str)
  : list analysis :=
  match lines with
  | [] => []
  | raw :: rest =>
      let a := analyse d stack raw in
      a :: trace (a_dict a) (a_stack a) rest
  end.

(** The counter and the stack after the last line. *)
Fixpoint final (d : gmap str Z) (stack : list nat) (lines : list str)
  : gmap str Z * list nat :=
  match lines with
  | [] => (d, stack)
  | raw :: rest =>
      let a := analyse d stack raw in
      final (a_dict a) (a_stack a) rest
  end.

(** The texts emitted for the analysed lines, up to the first error. *)
Fixpoint emit_all (tree_id : Z) (skip : str) (tr : list analysis)
  : result (list str) :=
  match tr with
  | [] => Ok []
  | a :: rest =>
      let! chunk := emit tree_id skip a in
      let! chunks := emit_all tree_id skip rest in
      Ok (chunk :: chunks)
  end.

(** A leaf line contains the prediction marker; a counted line does
    not. *)
Definition is_leaf (line : str) : bool := contains (py "class") line.

(** A condition line contains a comparison operator. *)
Definition is_condition (line : str) : bool :=
  contains (py "<") line || contains (py ">") line.

(** The counted lines of depth [n] among raw lines. *)
Definition counted_at (n : nat) (raw : str) : bool :=
  negb (is_leaf (normalize raw)) && (count_leading (normalize raw) =? n)%nat.

Definition occurrences (n : nat) (lines : list str) : nat :=
  length (List.filter (counted_at n) lines).

(** The role prefixes given to the counted lines of depth [n], in
    order. *)
Definition roles_at (n : nat) (tr : list analysis) : list str :=
  map a_front_add
    (List.filter
       (fun a => negb (is_leaf (a_line a)) && (a_n_spaces a =? n)%nat) tr).

(** The two role prefixes. *)
Definition IF_prefix : str := py "IF ".
Definition ELSE_IF_prefix (n_spaces : nat) : str :=
  END_nl ++ spaces (n_spaces + 2) ++ py "ELSE IF ".



Definition pushes (a : analysis) : nat :=
  if contains (py "ELSE") (a_front_add a) && negb (is_leaf (a_line a))
  then 1 else 0.


Definition total (f : analysis -> nat) (tr : list analysis) : nat :=
  fold_right (fun a acc => f a + acc) 0 tr.



(** What [normalize] does to one character: connectors become blanks. *)
Definition glyph (c : ascii) : ascii :=
  let c1 := if eqc "|" c then " "%char else c in
  if eqc "-" c1 then " "%char else c1.

(** The column of depth [depth] when the renderer's spacing is [s]. *)
Definition column (s depth : nat) : nat := depth * S s + 1.

(** *** Rendered trees *)

(** A binary decision tree as the renderer prints it: the feature name
    and the threshold of a split and the class of a leaf are already
    texts. *)
Inductive tree : Type :=
| Leaf (value : str)
| Node (name threshold : str) (left right : tree).

(** [s[:-k]] *)
Definition drop_last (k : nat) (s : str) : str :=
  match k with
  | O => []
  | _ => firstn (length s - k) s
  end.

(** Modelled from the spec: the external renderer (sklearn's
    [export_text], not part of the repository), whose output is the input
    contract of the translator: at depth [depth] (the root has depth 1)
    the connectors [("|" + " " * s) * depth] with the last [s] columns
    replaced by dashes, where [s] is the renderer's spacing. *)
Definition indent (s depth : nat) : str :=
  drop_last s (concat (repeat ("|"%char :: spaces s) depth))
  ++ repeat "-"%char s.

(** Modelled from the spec: the lines of a rendered tree: a split prints
    [<indent> <feature> <= <threshold>], its left subtree,
    [<indent> <feature> >  <threshold>] and its right subtree; a leaf
    prints [<indent> class: <value>]. *)
Fixpoint render_lines (s depth : nat) (t : tree) : list str :=
  match t with
  | Leaf value => [indent s depth ++ py " class: " ++ value]
  | Node name threshold l r =>
      (indent s depth ++ py " " ++ name ++ py " <= " ++ threshold)
      :: render_lines s (S depth) l
      ++ (indent s depth ++ py " " ++ name ++ py " >  " ++ threshold)
      :: render_lines s (S depth) r
  end.

(** Modelled from the spec: the rendered text, every line ended by a
    newline. *)
Definition render (s : nat) (t : tree) : str :=
  flat_map (fun line => line ++ [nl]) (render_lines s 1 t).

(** The texts of a tree fit the input contract: no text holds a newline;
    the text of a split does not start with a blank or a connector and
    holds no prediction marker; the class of a leaf holds no comparison
    operator. *)
Definition no_newline (s : str) : bool := negb (existsb (eqc nl) s).

Definition wf_split (name op threshold : str) : bool :=
  let text := name ++ op ++ threshold in
  no_newline text
  && (count_leading (normalize text) =? 0)%nat
  && negb (is_leaf (normalize text)).

Fixpoint wf_tree (t : tree) : bool :=
  match t with
  | Leaf value => no_newline value && negb (is_condition value)
  | Node name threshold l r =>
      wf_split name (py " <= ") threshold
      && wf_split name (py " >  ") threshold
      && wf_tree l && wf_tree r
  end.


End Model.

(* ===================================================================== *)
(** ** Sample inputs                                                      *)
(* ===================================================================== *)

Module Samples.
Import PyStr TreeToSas Model.

(** The lines of a text, each ended by a newline. *)
Definition text_of (lines : list string) : str :=
  flat_map (fun s => py s ++ [nl]) lines.

(** A split whose right child is a split. *)
Definition nested_tree : tree :=
  Node (py "a") (py "1.000000")
    (Leaf (py "0"))
    (Node (py "b") (py "2.500000") (Leaf (py "1")) (Leaf (py "0"))).

(** Its rendering for [spacing = 2] (the renderer is called with
    [spacing - 1]). *)
Definition nested_text : str := render 1 nested_tree.

(** Its translation for tree 0 and [spacing = 2]. *)
Definition nested_output : str :=
  text_of
    ["DATA DECISION_TREE_1;";
     "SET DATASET;";
     "     IF a <= 1 THEN DO;";
     "       PREDICTED_VALUE_1 = 0;";
     "     END;";
     "     ELSE IF a > 1 THEN DO;";
     "       IF b <= 2.5 THEN DO;";
     "         PREDICTED_VALUE_1 = 1;";
     "       END;";
     "       ELSE IF b > 2.5 THEN DO;";
     "         PREDICTED_VALUE_1 = 0;";
     "  END;";
     "END;"] ++ py "RUN;".

(** A split on a feature whose name contains the prediction marker. *)
Definition class_feature_line : str := py "|- class_x <= 0.500000".

(** The same split without connectors and leading blanks. *)
Definition class_feature_flush : str := py "class_x <= 0.500000".

(** A leaf whose class name starts with a comparison operator. *)
Definition operator_class_line : str := py "| |- class: <=50K".

(** A split on a feature whose name contains a dash between blanks. *)
Definition dash_feature_line : str := py "|- a - b <= 1.000000".

(** The analysis of line [i] of a text. *)
Definition analysis_at (text : str) (i : nat) : analysis :=
  nth i (trace ∅ [] (split nl text)) (analyse ∅ [] []).

(** A renderer that returns a fixed text and counts its calls. *)
Definition fixed_renderer (text : str)
  : unit -> list str -> Z -> Z -> Z -> nat -> (str + str) * nat :=
  fun _ _ _ _ _ calls => (inr text, S calls).

End Samples.

(* ===================================================================== *)
(** ** The example script ([src/example_sas_rules.py])                    *)
(* ===================================================================== *)

Module ExampleSasRules.
Import PyStr TreeToSas.

(** What can stop the script: an exception of [get_rules], an index out
    of the forest, a key that the dictionary does not hold. *)
Inductive script_exn : Type :=
| RulesError (e : exn)
| IndexError (i : nat)
| KeyError (k : str).

Inductive outcome (A : Type) : Type :=
| Done (a : A)
| Fail (e : script_exn).
Arguments Done {A} a.
Arguments Fail {A} e.

Section WithForest.
(** The data set, the fitted forest and the renderer are external: the
    script is read from the fitted forest on (lines 18-26), the forest
    being the sequence of its trees, both for [enumerate(rf)] and for
    [rf[i]]. *)
Context {Tree World : Type}.
Variable export_text :
  Tree -> list str -> Z -> Z -> Z -> World -> (str + str) * World.

(** ["TREE_{}".format(i)] *)
Definition tree_name (i : nat) : str :=
  py "TREE_" ++ str_of_int (Z.of_nat i).

(** The body of [for i, tree in enumerate(rf)] (lines 21-23): the rules
    of [rf[i]] (default [max_depth = 100] and [spacing = 2]) are stored
    under the name of the tree. *)
Definition iteration (rf : list Tree) (feature_names : list str)
    (i : nat) (tree : Tree) (sas_tree_rules : gmap str str) (w : World)
  : outcome (gmap str str) * World :=
  match rf !! i with
  | None => (Fail (IndexError i), w)
  | Some rf_i =>
      let '(tree_rules, w') :=
        get_rules export_text rf_i (Z.of_nat i) feature_names
          (py "DATASET") 100 2 w in
      match tree_rules with
      | Ok tree_rules =>
          (Done (<[tree_name i := tree_rules]> sas_tree_rules), w')
      | Raise e => (Fail (RulesError e), w')
      end
  end.

(** The loop over the trees that are left, from index [i] on. *)
Fixpoint iterate (rf : list Tree) (feature_names : list str) (i : nat)
    (rest : list Tree) (sas_tree_rules : gmap str str) (w : World)
  : outcome (gmap str str) * World :=
  match rest with
  | [] => (Done sas_tree_rules, w)
  | tree :: rest' =>
      let '(r, w') := iteration rf feature_names i tree sas_tree_rules w in
      match r with
      | Done d => iterate rf feature_names (S i) rest' d w'
      | Fail e => (Fail e, w')
      end
  end.

(** Lines 19-26: the dictionary of the rules of all trees, and the text
    that [print(sas_tree_rules["TREE_0"])] writes. *)
Definition script (rf : list Tree) (feature_names : list str) (w : World)
  : outcome (gmap str str * str) * World :=
  let '(r, w') := iterate rf feature_names 0 rf ∅ w in
  match r with
  | Done d =>
      match d !! py "TREE_0" with
      | Some rules => (Done (d, rules ++ [nl]), w')
      | None => (Fail (KeyError (py "TREE_0")), w')
      end
  | Fail e => (Fail e, w')
  end.

End WithForest.

End ExampleSasRules.

(* ===================================================================== *)
(** ** Trees whose thresholds are plain numbers                           *)
(* ===================================================================== *)

Module Thresholds.
Import PyStr TreeToSas Model.

(** A threshold as the renderer prints it for a value that is not
    negative: a text that [float] reads, without whitespace, bar or
    dash. *)
Definition plain_number (thr : str) : bool :=
  forallb (fun c => negb (is_space c) && negb (eqc c "|")
                    && negb (eqc c "-")) thr
  && match PyFloat.float_of_str thr with Some _ => true | None => false end.

Fixpoint plain_thresholds (t : tree) : bool :=
  match t with
  | Leaf _ => true
  | Node _ threshold l r =>
      plain_number threshold && plain_thresholds l && plain_thresholds r
  end.

End Thresholds.

(* ===================================================================== *)
(** ** Orders on the stack of open blocks                                 *)
(* ===================================================================== *)

Module Invariants.

(** A list of depths that never decreases, the bottom of the stack
    first. *)
Fixpoint nondecreasing (l : list nat) : Prop :=
  match l with
  | [] => True
  | x :: l' => Forall (fun y => x <= y) l' /\ nondecreasing l'
  end.

End Invariants.
(* ===================================================================== *)
(** * Sanity checks of the embedding                                      *)
(* ===================================================================== *)

Module PyStrExamples.
Import PyStr.

Example rstrip_ex : rstrip (py "  a b  ") = py "  a b".
Proof. reflexivity. Qed.

Example replace_ex : replace (py "aa") (py "b") (py "aaaxaa") = py "baxb".
Proof. reflexivity. Qed.

Example replace_empty_ex : replace [] (py "X") (py "abc") = py "XaXbXcX".
Proof. reflexivity. Qed.

Example split_ex :
  split "010"%char (py "a" ++ ["010"%char] ++ py "b" ++ ["010"%char])
  = [py "a"; py "b"; []].
Proof. reflexivity. Qed.

Example rsplit1_ex : rsplit1 (py "   f >  0.80") = [py "   f >"; py "0.80"].
Proof. reflexivity. Qed.

Example rsplit1_one : rsplit1 (py "   f ") = [py "f"].
Proof. reflexivity. Qed.

Example str_of_int_ex : str_of_int 0 = py "0" /\ str_of_int (-12) = py "-12".
Proof. split; reflexivity. Qed.

End PyStrExamples.

Module PyFloatExamples.
Import PyFloat.

Definition fmt (s : string) : option str :=
  option_map format_g (float_of_str (py s)).

Example g1 : fmt "0.800000" = Some (py "0.8"). Proof. vm_compute. reflexivity. Qed.
Example g2 : fmt "1000000.000000" = Some (py "1e+06"). Proof. vm_compute. reflexivity. Qed.
Example g3 : fmt "0.00001" = Some (py "1e-05"). Proof. vm_compute. reflexivity. Qed.
Example g4 : fmt "0.0001" = Some (py "0.0001"). Proof. vm_compute. reflexivity. Qed.
Example g5 : fmt "123456.7" = Some (py "123457"). Proof. vm_compute. reflexivity. Qed.
Example g6 : fmt "999999.5" = Some (py "1e+06"). Proof. vm_compute. reflexivity. Qed.
Example g7 : fmt "100000" = Some (py "100000"). Proof. vm_compute. reflexivity. Qed.
Example g8 : fmt "2.450000" = Some (py "2.45"). Proof. vm_compute. reflexivity. Qed.
Example g9 : fmt "1e22" = Some (py "1e+22"). Proof. vm_compute. reflexivity. Qed.
Example g10 : fmt "1e-318" = Some (py "9.99999e-319"). Proof. vm_compute. reflexivity. Qed.
Example g11 : fmt "1.0000037e-318" = Some (py "1e-318"). Proof. vm_compute. reflexivity. Qed.
Example g12 : fmt "-0.0" = Some (py "-0"). Proof. vm_compute. reflexivity. Qed.
Example g13 : fmt "1e400" = Some (py "inf"). Proof. vm_compute. reflexivity. Qed.
Example g14 : fmt "-Infinity" = Some (py "-inf"). Proof. vm_compute. reflexivity. Qed.
Example g15 : fmt "1_000.5" = Some (py "1000.5"). Proof. vm_compute. reflexivity. Qed.
Example g16 : fmt "1__0" = None. Proof. vm_compute. reflexivity. Qed.
Example g17 : fmt "1e" = None. Proof. vm_compute. reflexivity. Qed.
Example g18 : fmt "." = None. Proof. vm_compute. reflexivity. Qed.
Example g19 : fmt "5." = Some (py "5"). Proof. vm_compute. reflexivity. Qed.
Example g20 : fmt ".5" = Some (py "0.5"). Proof. vm_compute. reflexivity. Qed.
Example g21 : fmt "1000005" = Some (py "1e+06"). Proof. vm_compute. reflexivity. Qed.
Example g22 : fmt "1000015" = Some (py "1.00002e+06"). Proof. vm_compute. reflexivity. Qed.
Example g23 : fmt "0.1234565" = Some (py "0.123456"). Proof. vm_compute. reflexivity. Qed.
Example g24 : fmt "1.7976931348623157e308" = Some (py "1.79769e+308"). Proof. vm_compute. reflexivity. Qed.
Example g25 : fmt "1.7976931348623159e308" = Some (py "inf"). Proof. vm_compute. reflexivity. Qed.
Example g26 : fmt "5e-324" = Some (py "4.94066e-324"). Proof. vm_compute. reflexivity. Qed.
Example g27 : fmt "2e-324" = Some (py "0"). Proof. vm_compute. reflexivity. Qed.
Example g28 : fmt "0.3" = Some (py "0.3"). Proof. vm_compute. reflexivity. Qed.
Example g29 : fmt "2.675" = Some (py "2.675"). Proof. vm_compute. reflexivity. Qed.
Example g30 : fmt "0.000123456789" = Some (py "0.000123457"). Proof. vm_compute. reflexivity. Qed.

End PyFloatExamples.

Module TranslatorExamples.
Import PyStr TreeToSas Model Samples.

Example nested_text_lines :
  nested_text
  = text_of ["|- a <= 1.000000"; "| |- class: 0"; "|- a >  1.000000";
             "| |- b <= 2.500000"; "| | |- class: 1";
             "| |- b >  2.500000"; "| | |- class: 0"].
Proof. reflexivity. Qed.

Example nested_translation :
  translate_text_to_sas tt 0 (py "DATASET") [] nested_text 2
  = Ok nested_output.
Proof. vm_compute. reflexivity. Qed.

Example single_leaf_translation :
  translate_text_to_sas tt 4 (py "T") [] (render 1 (Leaf (py "2"))) 2
  = Ok (text_of ["DATA DECISION_TREE_5;"; "SET T;";
                 "     PREDICTED_VALUE_5 = 2;"] ++ py "  RUN;").
Proof. vm_compute. reflexivity. Qed.

Example not_a_number :
  translate_text_to_sas tt 0 (py "T") [] (text_of ["|- a <= b"]) 2
  = Raise (FloatError (py "b")).
Proof. vm_compute. reflexivity. Qed.

Example one_word :
  translate_text_to_sas tt 0 (py "T") [] (text_of ["|- <"]) 2
  = Raise (UnpackError 1).
Proof. vm_compute. reflexivity. Qed.

(** The minus sign of a threshold is replaced by a blank together with
    the connectors of the tree. *)
Example negative_threshold :
  emit 0 (py "  ") (analyse ∅ [] (py "|--- x <= -1.500000"))
  = Ok (py "  " ++ py "     IF x <= 1.5 THEN DO;" ++ [nl]).
Proof. vm_compute. reflexivity. Qed.

End TranslatorExamples.

(* ===================================================================== *)
(** * Facts about the string built-ins                                    *)
(* ===================================================================== *)

Module PyStrFacts.
Import PyStr.

Lemma eqc_eq a b : eqc a b = true <-> a = b.
Proof. apply Ascii.eqb_eq. Qed.

Lemma eqc_refl a : eqc a a = true.
Proof. by apply eqc_eq. Qed.

Lemma eqc_neq a b : a <> b -> eqc a b = false.
Proof. intros H. apply not_true_is_false. by rewrite eqc_eq. Qed.

(** *** [startswith] and [contains] *)

Lemma startswith_spec p s : startswith p s = true <-> exists r, s = p ++ r.
Proof.
  revert s. induction p as [|a p IH]; intros s; simpl.
  - split; [intros _; by exists s | done].
  - destruct s as [|b s].
    + split; [done | intros [r Hr]; discriminate].
    + rewrite andb_true_iff, eqc_eq, IH. split.
      * intros [-> [r ->]]. by exists r.
      * intros [r [= -> ->]]. eauto.
Qed.

Lemma startswith_app p s : startswith p (p ++ s) = true.
Proof. apply startswith_spec. by exists s. Qed.

Lemma contains_cons sub c s :
  contains sub (c :: s) = startswith sub (c :: s) || contains sub s.
Proof. reflexivity. Qed.

Lemma contains_spec sub s :
  contains sub s = true <-> exists u v, s = u ++ sub ++ v.
Proof.
  induction s as [|c s IH].
  - simpl. rewrite orb_false_r, startswith_spec. split.
    + intros [r Hr]. by exists [], r.
    + intros (u & v & H). destruct u; simpl in H.
      * by exists v.
      * discriminate.
  - rewrite contains_cons, orb_true_iff, startswith_spec, IH. split.
    + intros [[r Hr] | (u & v & ->)].
      * by exists [], r.
      * by exists (c :: u), v.
    + intros ([|c' u] & v & H); simpl in H.
      * left. by exists v.
      * injection H as -> ->. right. by exists u, v.
Qed.

Lemma contains_app_r sub a b :
  contains sub b = true -> contains sub (a ++ b) = true.
Proof.
  rewrite !contains_spec. intros (u & v & ->).
  exists (a ++ u), v. by rewrite <- app_assoc.
Qed.

Lemma contains_app_l sub a b :
  contains sub a = true -> contains sub (a ++ b) = true.
Proof.
  rewrite !contains_spec. intros (u & v & ->).
  exists u, (v ++ b). by rewrite <- !app_assoc.
Qed.

(** A character that does not occur in [sub] separates the searches. *)
Lemma startswith_sep sub a c b :
  c ∉ sub -> startswith sub (a ++ c :: b) = startswith sub a.
Proof.
  revert a. induction sub as [|x sub IH]; intros a Hc; [done|].
  destruct a as [|y a]; simpl.
  - apply andb_false_intro1, eqc_neq. intros ->. apply Hc. by left.
  - f_equal. apply IH. intros H. apply Hc. by right.
Qed.

Lemma contains_sep sub a c b :
  sub <> [] -> c ∉ sub ->
  contains sub (a ++ c :: b) = contains sub a || contains sub b.
Proof.
  intros Hne Hc. induction a as [|y a IH].
  - pose proof (startswith_sep sub [] c b Hc) as E.
    simpl app in *. rewrite contains_cons, E.
    destruct sub; [done|]. by simpl.
  - pose proof (startswith_sep sub (y :: a) c b Hc) as E.
    simpl app in *. rewrite !contains_cons, IH, E.
    by rewrite orb_assoc.
Qed.

(** A string made of characters outside [sub] does not contain it. *)
Lemma contains_none sub s :
  sub <> [] -> (forall c, c ∈ s -> c ∉ sub) -> contains sub s = false.
Proof.
  intros Hne H. apply not_true_is_false. rewrite contains_spec.
  intros (u & v & ->). destruct sub as [|x sub]; [done|].
  apply (H x).
  - rewrite !elem_of_app. right. left. by left.
  - by left.
Qed.

(** *** [str_of_int] *)

Lemma list_ascii_of_string_inj s t :
  list_ascii_of_string s = list_ascii_of_string t -> s = t.
Proof.
  intros H. rewrite <- (string_of_list_ascii_of_string s).
  rewrite <- (string_of_list_ascii_of_string t). by rewrite H.
Qed.

Lemma to_int_not_nil z :
  Z.to_int z <> Decimal.Pos Decimal.Nil
  /\ Z.to_int z <> Decimal.Neg Decimal.Nil.
Proof.
  destruct z as [|p|p]; simpl; split; try discriminate;
    intros [= H]; by apply (DecimalPos.Unsigned.to_uint_nonnil p).
Qed.

Lemma str_of_int_inj a b : str_of_int a = str_of_int b -> a = b.
Proof.
  unfold str_of_int. intros H. apply list_ascii_of_string_inj in H.
  apply DecimalZ.to_int_inj.
  destruct (to_int_not_nil a) as [Ha1 Ha2].
  destruct (to_int_not_nil b) as [Hb1 Hb2].
  pose proof (NilZero.isi _ Ha1 Ha2) as Ea.
  pose proof (NilZero.isi _ Hb1 Hb2) as Eb.
  rewrite H in Ea. rewrite Ea in Eb. by injection Eb.
Qed.

(** *** [replace] *)

Lemma length_spaces n : length (spaces n) = n.
Proof. apply repeat_length. Qed.

Lemma Forall_spaces (P : ascii -> Prop) n : P " "%char -> Forall P (spaces n).
Proof. intros H. induction n; by constructor. Qed.

Lemma replace_from_skip old new p rest :
  replace_from old new (length p) (p ++ rest) = replace_from old new 0 rest.
Proof. induction p as [|c p IH]; simpl; [by destruct rest | done]. Qed.

Lemma replace_from_match old new rest :
  old <> [] ->
  replace_from old new 0 (old ++ rest) = new ++ replace_from old new 0 rest.
Proof.
  destruct old as [|a old]; [done|]. intros _.
  change ((a :: old) ++ rest) with (a :: (old ++ rest)).
  cbn [replace_from].
  change (a :: (old ++ rest)) with ((a :: old) ++ rest).
  rewrite startswith_app. f_equal.
  replace (length (a :: old) - 1) with (length old) by (simpl; lia).
  apply replace_from_skip.
Qed.

Lemma replace_from_no_match old new s :
  contains old s = false -> replace_from old new 0 s = s.
Proof.
  induction s as [|c s IH]; [done|].
  rewrite contains_cons, orb_false_iff. intros [H1 H2].
  cbn [replace_from]. rewrite H1. f_equal. by apply IH.
Qed.

(** No match starts inside a prefix that avoids the first character of
    [old]. *)
Lemma replace_from_pre a old new pre s :
  Forall (fun c => c <> a) pre ->
  replace_from (a :: old) new 0 (pre ++ s)
  = pre ++ replace_from (a :: old) new 0 s.
Proof.
  induction 1 as [|c pre Hc _ IH]; [done|].
  simpl app. cbn [replace_from].
  replace (startswith (a :: old) (c :: pre ++ s)) with false.
  - by rewrite IH.
  - simpl. rewrite eqc_neq; [done|]. congruence.
Qed.

Lemma replace_no_match old new s :
  old <> [] -> contains old s = false -> replace old new s = s.
Proof.
  destruct old; [done|]. intros _. apply replace_from_no_match.
Qed.

(** The role prefix goes after the leading blanks, once, when no other
    run of as many blanks follows. *)
Lemma replace_leading_spaces n front feat :
  n <> 0 -> contains (spaces n) feat = false ->
  replace (spaces n) (spaces n ++ front) (spaces n ++ feat)
  = spaces n ++ front ++ feat.
Proof.
  intros Hn Hfeat. destruct n as [|n]; [done|].
  unfold replace. change (spaces (S n)) with (" "%char :: spaces n) at 1.
  cbv beta iota. change (" "%char :: spaces n) with (spaces (S n)).
  rewrite replace_from_match by done.
  rewrite replace_from_no_match by done.
  by rewrite <- !app_assoc.
Qed.

(** A marker after leading blanks is replaced where it stands. *)
Lemma replace_marker_after_spaces a old new n rest :
  a <> " "%char ->
  contains (a :: old) rest = false ->
  replace (a :: old) new (spaces n ++ (a :: old) ++ rest)
  = spaces n ++ new ++ rest.
Proof.
  intros Ha Hrest. unfold replace.
  rewrite replace_from_pre.
  - rewrite replace_from_match by done.
    by rewrite replace_from_no_match.
  - apply Forall_spaces. congruence.
Qed.

(** *** [rsplit] *)

Lemma lstrip_nonspace c s : is_space c = false -> lstrip (c :: s) = c :: s.
Proof. intros H. simpl. by rewrite H. Qed.

Lemma lstrip_spaces ws s :
  Forall (fun c => is_space c = true) ws -> lstrip (ws ++ s) = lstrip s.
Proof. induction 1 as [|c ws Hc _ IH]; simpl; [done|]. by rewrite Hc. Qed.

Lemma span_word_app w c r :
  Forall (fun x => is_space x = false) w -> is_space c = true ->
  span_word (w ++ c :: r) = (w, c :: r).
Proof.
  intros Hw Hc. induction Hw as [|x w Hx _ IH]; simpl.
  - by rewrite Hc.
  - by rewrite Hx, IH.
Qed.

Lemma rsplit1_two head last ws val :
  is_space last = false ->
  ws <> [] -> Forall (fun c => is_space c = true) ws ->
  val <> [] -> Forall (fun c => is_space c = false) val ->
  rsplit1 ((head ++ [last]) ++ ws ++ val) = [head ++ [last]; val].
Proof.
  intros Hlast Hws1 Hws2 Hval1 Hval2. unfold rsplit1.
  rewrite !rev_app_distr. simpl rev at 3. simpl app at 3.
  assert (Hrv : Forall (fun c => is_space c = false) (rev val))
    by by apply List.Forall_rev.
  assert (Hrw : Forall (fun c => is_space c = true) (rev ws))
    by by apply List.Forall_rev.
  destruct (rev val) as [|v rv] eqn:Ev.
  { apply (f_equal (@rev _)) in Ev. rewrite rev_involutive in Ev. done. }
  destruct (rev ws) as [|w rw] eqn:Ew.
  { apply (f_equal (@rev _)) in Ew. rewrite rev_involutive in Ew. done. }
  inversion Hrv as [|? ? Hv Hrv']; subst.
  inversion Hrw as [|? ? Hw Hrw']; subst.
  rewrite <- app_assoc. simpl app at 1.
  rewrite lstrip_nonspace by done.
  change (v :: rv ++ w :: rw ++ last :: rev head)
    with ((v :: rv) ++ w :: (rw ++ last :: rev head)).
  rewrite span_word_app by (done || by constructor).
  change (w :: rw ++ last :: rev head)
    with ((w :: rw) ++ last :: rev head).
  rewrite lstrip_spaces by by constructor.
  rewrite lstrip_nonspace by done.
  change (last :: rev head) with (rev [last] ++ rev head).
  rewrite <- rev_app_distr, rev_involutive, <- Ev, rev_involutive. done.
Qed.

Lemma span_word_split r :
  r = fst (span_word r) ++ snd (span_word r)
  /\ match snd (span_word r) with
     | [] => True
     | c :: _ => is_space c = true
     end.
Proof.
  induction r as [|c r [E H]]; simpl; [done|].
  destruct (is_space c) eqn:Hc; [done|].
  destruct (span_word r) as [w rest]. simpl in *.
  split; [by rewrite E at 1 | done].
Qed.

Lemma lstrip_split s :
  exists ws, s = ws ++ lstrip s /\ Forall (fun c => is_space c = true) ws.
Proof.
  induction s as [|c s (ws & E & H)]; simpl.
  - by exists [].
  - destruct (is_space c) eqn:Hc.
    + exists (c :: ws). split; [by rewrite E at 1 | by constructor].
    + by exists [].
Qed.

Lemma rstrip_split s :
  exists ws, s = rstrip s ++ ws /\ Forall (fun c => is_space c = true) ws.
Proof.
  induction s as [|c s (ws & E & H)]; simpl.
  - by exists [].
  - destruct (rstrip s) as [|r rs] eqn:Er.
    + destruct (is_space c) eqn:Hc.
      * exists (c :: ws). simpl in E. split; [by rewrite E at 1|].
        by constructor.
      * exists ws. simpl in *. split; [by rewrite E at 1 | done].
    + exists ws. split; [|done]. simpl. by rewrite E at 1.
Qed.

(** The two pieces of [rsplit] in the string: the head, whitespace, the
    last word, and trailing whitespace. *)
Lemma rsplit1_inv s h v :
  rsplit1 s = [h; v] ->
  exists ws c tw,
    s = h ++ ws ++ c :: v ++ tw
    /\ is_space c = true
    /\ Forall (fun c => is_space c = true) ws
    /\ Forall (fun c => is_space c = true) tw.
Proof.
  unfold rsplit1.
  destruct (lstrip_split (rev s)) as (tw & E1 & Htw).
  destruct (lstrip (rev s)) as [|r0 r] eqn:Er; [done|].
  destruct (span_word_split (r0 :: r)) as [E2 Hrest].
  destruct (span_word (r0 :: r)) as [w rest].
  cbn [fst snd] in E2, Hrest.
  destruct rest as [|c rest']; [done|].
  cbn [lstrip]. rewrite Hrest.
  destruct (lstrip_split rest') as (ws & E3 & Hws).
  destruct (lstrip rest') as [|h0 hr]; [done|].
  intros [= <- <-].
  exists (rev ws), c, (rev tw).
  split; [|by repeat split; try apply List.Forall_rev].
  apply (f_equal (@rev _)) in E1. rewrite rev_involutive in E1.
  rewrite E1, E2, E3.
  rewrite !rev_app_distr. cbn [rev]. rewrite !rev_app_distr.
  cbn [rev]. by rewrite <- !app_assoc.
Qed.

(** Whitespace around and between the pieces holds no part of a word
    without whitespace. *)
Lemma contains_all_space sub ws :
  sub <> [] -> Forall (fun c => is_space c = false) sub ->
  Forall (fun c => is_space c = true) ws -> contains sub ws = false.
Proof.
  intros Hne Hsub Hws. apply contains_none; [done|].
  intros c Hc Hc'. rewrite Forall_forall in Hsub, Hws.
  apply Hsub in Hc'. apply Hws in Hc. congruence.
Qed.

Lemma contains_trailing_space sub x tw :
  sub <> [] -> Forall (fun c => is_space c = false) sub ->
  Forall (fun c => is_space c = true) tw ->
  contains sub (x ++ tw) = contains sub x.
Proof.
  intros Hne Hsub Htw. destruct Htw as [|t tw Ht Htw].
  - by rewrite app_nil_r.
  - rewrite contains_sep; [|done|].
    + rewrite (contains_all_space sub tw) by done. apply orb_false_r.
    + intros Hin. rewrite Forall_forall in Hsub.
      apply Hsub in Hin. congruence.
Qed.

Lemma contains_pieces sub h ws c v tw :
  sub <> [] -> Forall (fun c => is_space c = false) sub ->
  is_space c = true ->
  Forall (fun c => is_space c = true) ws ->
  Forall (fun c => is_space c = true) tw ->
  contains sub (h ++ ws ++ c :: v ++ tw) = contains sub h || contains sub v.
Proof.
  intros Hne Hsub Hc Hws Htw.
  rewrite app_assoc, contains_sep; [|done|].
  - by rewrite !contains_trailing_space.
  - intros Hin. rewrite Forall_forall in Hsub.
    apply Hsub in Hin. congruence.
Qed.

(** A word without blank survives the replacement of runs of blanks. *)
Lemma replace_from_keeps n new sub :
  sub <> [] -> Forall (fun c => c <> " "%char) sub ->
  forall u k v,
    startswith (spaces k) (u ++ sub ++ v) = true ->
    exists u' v',
      replace_from (spaces (S n)) new k (u ++ sub ++ v) = u' ++ sub ++ v'.
Proof.
  intros Hne Hsub. induction u as [|c u IH]; intros k v Hk.
  - destruct sub as [|x sub']; [done|].
    destruct k as [|k].
    + exists [], (replace_from (spaces (S n)) new 0 v).
      simpl app at 1 3.
      change (spaces (S n)) with (" "%char :: spaces n).
      by apply (replace_from_pre " "%char (spaces n) new (x :: sub') v).
    + simpl in Hk. apply andb_true_iff in Hk as [Hx _].
      apply eqc_eq in Hx. inversion Hsub; subst. done.
  - simpl app. destruct k as [|k].
    + cbn [replace_from].
      destruct (startswith (spaces (S n)) (c :: u ++ sub ++ v)) eqn:Es.
      * simpl in Es. apply andb_true_iff in Es as [_ Es].
        replace (length (spaces (S n)) - 1) with n
          by (rewrite length_spaces; lia).
        destruct (IH n v Es) as (u' & v' & ->).
        exists (new ++ u'), v'. by rewrite <- app_assoc.
      * destruct (IH 0 v eq_refl) as (u' & v' & ->).
        by exists (c :: u'), v'.
    + cbn [replace_from]. simpl in Hk.
      apply andb_true_iff in Hk as [_ Hk].
      apply (IH k v Hk).
Qed.

Lemma contains_replace_spaces n new sub s :
  n <> 0 -> sub <> [] -> Forall (fun c => c <> " "%char) sub ->
  contains sub s = true ->
  contains sub (replace (spaces n) new s) = true.
Proof.
  intros Hn Hne Hsub. rewrite !contains_spec. intros (u & v & ->).
  destruct n as [|n]; [done|].
  destruct (replace_from_keeps n new sub Hne Hsub u 0 v eq_refl)
    as (u' & v' & E).
  exists u', v'. exact E.
Qed.

(** *** One-character patterns *)

Lemma replace_char a b s :
  replace [a] [b] s = map (fun c => if eqc a c then b else c) s.
Proof.
  unfold replace. induction s as [|c s IH]; [done|].
  cbn [replace_from startswith map]. rewrite andb_true_r.
  destruct (eqc a c); simpl; by rewrite IH.
Qed.

Lemma contains_char c s : contains [c] s = true <-> c ∈ s.
Proof.
  rewrite contains_spec. split.
  - intros (u & v & ->). rewrite elem_of_app. right. by left.
  - intros H. apply list_elem_of_split in H as (u & v & ->). by exists u, v.
Qed.

(** *** [rstrip] and [split] *)

Lemma rstrip_app a b : rstrip b <> [] -> rstrip (a ++ b) = a ++ rstrip b.
Proof.
  intros Hb. induction a as [|x a IH]; [done|].
  simpl. rewrite IH. by destruct (a ++ rstrip b) eqn:E; [destruct a|].
Qed.

Lemma rstrip_keeps c s : c ∈ s -> is_space c = false -> c ∈ rstrip s.
Proof.
  intros Hin Hc. induction s as [|x s IH]; [by apply elem_of_nil in Hin|].
  apply elem_of_cons in Hin as [->|Hin]; simpl.
  - destruct (rstrip s); [rewrite Hc|]; by left.
  - specialize (IH Hin). destruct (rstrip s); [by apply elem_of_nil in IH|].
    by right.
Qed.

Lemma rstrip_sub c s : c ∈ rstrip s -> c ∈ s.
Proof.
  intros H. destruct (rstrip_split s) as (ws & E & _).
  rewrite E, elem_of_app. by left.
Qed.

Lemma rstrip_ends_nonspace a c :
  is_space c = false -> rstrip (a ++ [c]) = a ++ [c].
Proof.
  intros Hc. rewrite rstrip_app; simpl; by rewrite Hc.
Qed.

Lemma split_line sep l rest :
  sep ∉ l -> split sep (l ++ sep :: rest) = l :: split sep rest.
Proof.
  intros Hl. induction l as [|c l IH]; simpl.
  - by rewrite eqc_refl.
  - rewrite eqc_neq.
    + rewrite IH; [done|]. intros H. apply Hl. by right.
    + intros ->. apply Hl. by left.
Qed.

Lemma split_lines sep (ls : list str) :
  Forall (fun l => sep ∉ l) ls ->
  split sep (flat_map (fun l => l ++ [sep]) ls) = ls ++ [[]].
Proof.
  induction 1 as [|l ls Hl _ IH]; [done|].
  simpl. rewrite <- app_assoc. simpl. by rewrite split_line, IH.
Qed.

(** *** Leading blanks *)

Lemma lstrip_chars_spaces n s :
  lstrip_chars (py " ") (spaces n ++ s) = lstrip_chars (py " ") s.
Proof. induction n as [|n IH]; [done|]. simpl. exact IH. Qed.

Lemma lstrip_chars_stop c s :
  c <> " "%char -> lstrip_chars (py " ") (c :: s) = c :: s.
Proof.
  intros Hc. simpl. rewrite (eqc_neq c " "%char Hc). done.
Qed.

End PyStrFacts.

(* ===================================================================== *)
(** * Facts about [float] and the ['g'] format                            *)
(* ===================================================================== *)

Module PyFloatFacts.
Import PyStr PyStrFacts PyFloat.

(** *** The characters of a number *)

Lemma span_digits_split s :
  s = fst (span_digits s) ++ snd (span_digits s)
  /\ Forall (fun c => is_digit c = true) (fst (span_digits s)).
Proof.
  induction s as [|c s [E H]]; simpl; [done|].
  destruct (is_digit c) eqn:Hc; [|done].
  destruct (span_digits s) as [ds rest]. simpl in *.
  split; [by rewrite E at 1 | by constructor].
Qed.

Lemma digit_float_char c : is_digit c = true -> float_char c = true.
Proof. intros H. unfold float_char. by rewrite H. Qed.

Lemma space_float_char c : is_space c = true -> float_char c = true.
Proof. intros H. unfold float_char. by rewrite H, orb_true_r. Qed.

Lemma Forall_float_digits ds :
  Forall (fun c => is_digit c = true) ds ->
  Forall (fun c => float_char c = true) ds.
Proof. intros H. eapply Forall_impl; [exact H|]. apply digit_float_char. Qed.

Lemma drop_underscores_chars s : forall prev t,
  drop_underscores prev s = Some t ->
  Forall (fun c => float_char c = true) t ->
  Forall (fun c => float_char c = true) s.
Proof.
  induction s as [|c s IH]; intros prev t; simpl; [constructor|].
  destruct (eqc c "_") eqn:Hc.
  - apply eqc_eq in Hc as ->.
    destruct (is_digit prev); [|done].
    intros H Ht. constructor; [done | by eapply IH].
  - destruct (eqc prev "_" && negb (is_digit c)); [done|].
    destruct (drop_underscores c s) as [t'|] eqn:E; [|done].
    simpl. intros [= <-] Ht. inversion Ht; subst.
    constructor; [done | by eapply IH].
Qed.

Lemma parse_sign_chars t :
  Forall (fun c => float_char c = true) (snd (parse_sign t)) ->
  Forall (fun c => float_char c = true) t.
Proof.
  destruct t as [|c t]; simpl; [done|].
  destruct (eqc c "-") eqn:H1.
  { apply eqc_eq in H1 as ->. by constructor. }
  destruct (eqc c "+") eqn:H2.
  { apply eqc_eq in H2 as ->. by constructor. }
  done.
Qed.

Lemma lower_word_chars (word body : str) :
  Forall (fun c => existsb (eqc c) (py "+-._einfaty") = true) word ->
  map lower body = word ->
  Forall (fun c => float_char c = true) body.
Proof.
  intros Hw <-. induction body as [|c body IH]; [constructor|].
  inversion Hw; subst. constructor; [|by apply IH].
  unfold float_char. by rewrite orb_true_iff; right.
Qed.

Lemma parse_exponent_chars rest e :
  parse_exponent rest = Some e ->
  Forall (fun c => float_char c = true) rest.
Proof.
  destruct rest as [|c rest]; simpl; [constructor|].
  destruct (eqc (lower c) "e") eqn:Hc; [|done].
  destruct (parse_sign rest) as [neg r] eqn:Es.
  destruct (span_digits_split r) as [E Hd].
  destruct (span_digits r) as [ds rest']. simpl in *.
  destruct ds as [|d ds]; [done|]. destruct rest'; [|done].
  intros _. constructor.
  - unfold float_char. apply eqc_eq in Hc. rewrite Hc.
    by rewrite !orb_true_iff; right.
  - apply parse_sign_chars. rewrite Es. simpl. rewrite E, app_nil_r.
    by apply Forall_float_digits.
Qed.

Lemma parse_decimal_chars body m :
  parse_decimal body = Some m ->
  Forall (fun c => float_char c = true) body.
Proof.
  unfold parse_decimal.
  destruct (span_digits_split body) as [E Hd].
  destruct (span_digits body) as [ip rest]. simpl in *. subst body.
  intros H. apply Forall_app. split; [by apply Forall_float_digits|].
  destruct rest as [|c rest'].
  { constructor. }
  destruct (eqc c ".") eqn:Hc.
  - apply eqc_eq in Hc as ->.
    destruct (span_digits_split rest') as [E' Hd'].
    destruct (span_digits rest') as [fp rest'']. simpl in *. subst rest'.
    constructor; [done|]. apply Forall_app.
    split; [by apply Forall_float_digits|].
    destruct (ip ++ fp); [done|].
    destruct (parse_exponent rest'') eqn:Ee; [|done].
    by eapply parse_exponent_chars.
  - rewrite app_nil_r in H. destruct ip; [done|].
    destruct (parse_exponent (c :: rest')) eqn:Ee; [|done].
    by eapply parse_exponent_chars.
Qed.

(** Every character of a string that [float] accepts is a digit, a
    blank, a sign, a point, an underscore or a letter of [e], [inf],
    [infinity], [nan]. *)
Lemma float_of_str_chars val x :
  float_of_str val = Some x -> Forall (fun c => float_char c = true) val.
Proof.
  unfold float_of_str.
  destruct (drop_underscores "000" (rstrip (lstrip val))) as [t|] eqn:Eu;
    [|done].
  intros H.
  assert (Ht : Forall (fun c => float_char c = true) t).
  { apply parse_sign_chars.
    destruct (parse_sign t) as [neg body]. simpl.
    unfold eq_str in H.
    destruct (bool_decide (map lower body = py "inf")) eqn:E1.
    { apply bool_decide_eq_true in E1.
      eapply lower_word_chars; [|exact E1]. by repeat constructor. }
    destruct (bool_decide (map lower body = py "infinity")) eqn:E2.
    { apply bool_decide_eq_true in E2.
      eapply lower_word_chars; [|exact E2]. by repeat constructor. }
    destruct (bool_decide (map lower body = py "nan")) eqn:E3.
    { apply bool_decide_eq_true in E3.
      eapply lower_word_chars; [|exact E3]. by repeat constructor. }
    simpl in H. destruct (parse_decimal body) as [[m e]|] eqn:Ed; [|done].
    by eapply parse_decimal_chars. }
  pose proof (drop_underscores_chars _ _ _ Eu Ht) as Hs.
  destruct (lstrip_split val) as (ws1 & E1 & H1).
  destruct (rstrip_split (lstrip val)) as (ws2 & E2 & H2).
  rewrite E1, E2. rewrite !Forall_app. repeat split; try done.
  - eapply Forall_impl; [exact H1|]. apply space_float_char.
  - eapply Forall_impl; [exact H2|]. apply space_float_char.
Qed.

(** A string lacking one character of [sub] does not contain [sub]. *)
Lemma contains_missing (c : ascii) (sub s : str) :
  c ∈ sub -> c ∉ s -> contains sub s = false.
Proof.
  intros Hsub Hs. apply not_true_is_false. rewrite contains_spec.
  intros (u & v & ->). apply Hs. rewrite !elem_of_app. auto.
Qed.

Lemma float_of_str_no_class val x :
  float_of_str val = Some x -> contains (py "class") val = false.
Proof.
  intros H. apply float_of_str_chars in H.
  apply (contains_missing "c"%char).
  - by left.
  - intros Hc. rewrite Forall_forall in H. by apply H in Hc.
Qed.

End PyFloatFacts.

(* ===================================================================== *)
(** * Rounding: the float model against exact rational arithmetic         *)
(* ===================================================================== *)

Module PyFloatSpec.
Import PyStr PyStrFacts PyFloat.

Local Open Scope Z_scope.

(** *** Rounding to the nearest integer *)
Lemma round_half_even_bounds num den :
  0 < den ->
  let r := round_half_even num den in
  - den <= 2 * (num - r * den) <= den.
Proof.
  intros Hden r. unfold r, round_half_even.
  pose proof (Z.div_mod num den ltac:(lia)) as E.
  pose proof (Z.mod_pos_bound num den Hden) as B.
  destruct (Z.ltb_spec (2 * (num mod den)) den).
  - nia.
  - destruct (Z.ltb_spec den (2 * (num mod den))).
    + nia.
    + destruct (Z.even (num / den)); nia.
Qed.


Local Open Scope Q_scope.

Lemma inject_pos b : (0 < b)%Z -> 0 < inject_Z b.
Proof. intros H. change 0 with (inject_Z 0). by rewrite <- Zlt_Qlt. Qed.



Lemma frac_mult a b : (0 < b)%Z -> frac a b * inject_Z b == inject_Z a.
Proof.
  intros Hb. unfold frac. field. pose proof (inject_pos b Hb). lra.
Qed.

Ltac qpush H :=
  unfold Z.sub in H;
  repeat first [ rewrite inject_Z_plus in H
               | rewrite inject_Z_mult in H
               | rewrite inject_Z_opp in H ].

Lemma round_half_even_Q num den :
  (0 < den)%Z ->
  - (1 # 2) <= frac num den - inject_Z (round_half_even num den) <= 1 # 2.
Proof.
  intros Hden.
  pose proof (round_half_even_bounds num den Hden) as [H1 H2].
  set (r := round_half_even num den) in *.
  pose proof (inject_pos den Hden) as Hd.
  pose proof (frac_mult num den Hden) as E.
  rewrite Zle_Qle in H1, H2. qpush H1. qpush H2.
  rewrite <- E in H1, H2.
  change (inject_Z 2) with 2 in *.
  split; apply (Qmult_le_r _ _ (inject_Z den) Hd); nra.
Qed.


(** *** Powers *)
Lemma pow_pos (B : Q) k : 0 < B -> 0 < B ^ k.
Proof. apply Qpower_0_lt. Qed.

Lemma inject_pow (B k : Z) : (0 <= k)%Z -> inject_Z (B ^ k) == inject_Z B ^ k.
Proof. apply Zpower_Qpower. Qed.

Lemma Zpow_pos (B k : Z) : (0 < B)%Z -> (0 < B ^ k \/ k < 0)%Z.
Proof.
  intros HB. destruct (Z.le_gt_cases 0 k); [left | right; lia].
  by apply Z.pow_pos_nonneg.
Qed.

(** [scale] divides by a power of the base. *)
Lemma scale_Q (B a b k : Z) :
  (0 < B)%Z -> (0 < b)%Z ->
  let '(n, d) := scale B a b k in
  (0 < d)%Z /\ frac n d == frac a b / inject_Z B ^ k
  /\ ((0 < a)%Z -> (0 < n)%Z).
Proof.
  intros HB Hb. unfold scale.
  pose proof (inject_pos B HB) as HBq.
  pose proof (inject_pos b Hb) as Hbq.
  destruct (Z.leb_spec 0 k) as [Hk|Hk].
  - assert (Hp : (0 < B ^ k)%Z) by (by apply Z.pow_pos_nonneg).
    split; [lia|]. split; [|done].
    unfold frac. rewrite inject_Z_mult, inject_pow by done.
    pose proof (pow_pos (inject_Z B) k HBq).
    field. split; lra.
  - assert (Hp : (0 < B ^ (- k))%Z) by (apply Z.pow_pos_nonneg; lia).
    split; [done|]. split; [|nia].
    unfold frac. rewrite inject_Z_mult, inject_pow by lia.
    rewrite Qpower_opp.
    pose proof (pow_pos (inject_Z B) k HBq).
    field. split; lra.
Qed.


Lemma frac_le_pow (B : Q) a b k :
  (0 < b)%Z -> 0 < B ->
  inject_Z b * B ^ k <= inject_Z a <-> B ^ k <= frac a b.
Proof.
  intros Hb HB. pose proof (inject_pos b Hb) as Hq.
  pose proof (frac_mult a b Hb) as E. pose proof (pow_pos B k HB).
  rewrite <- E. split; intros H1; nra.
Qed.

Lemma frac_lt_pow (B : Q) a b k :
  (0 < b)%Z -> 0 < B ->
  inject_Z a < inject_Z b * B ^ k <-> frac a b < B ^ k.
Proof.
  intros Hb HB. pose proof (inject_pos b Hb) as Hq.
  pose proof (frac_mult a b Hb) as E. pose proof (pow_pos B k HB).
  rewrite <- E. split; intros H1; nra.
Qed.





(** *** The decimal exponent *)

Local Open Scope Z_scope.

Lemma count_up_spec fuel : forall a b,
  0 < b <= a -> a < b * 10 ^ Z.of_nat fuel ->
  let k := count_up fuel a b in
  0 <= k /\ b * 10 ^ k <= a < b * 10 ^ (k + 1).
Proof.
  induction fuel as [|f IH]; intros a b Hab Hf.
  - simpl in Hf. lia.
  - cbn [count_up]. destruct (Z.leb_spec (b * 10) a) as [H|H].
    + rewrite Nat2Z.inj_succ, Z.pow_succ_r in Hf by lia.
      destruct (IH a (b * 10) ltac:(lia) ltac:(lia)) as (K & L1 & L2).
      set (k := count_up f a (b * 10)) in *.
      split; [lia|].
      replace (1 + k) with (Z.succ k) by lia.
      rewrite !Z.pow_add_r, Z.pow_succ_r in * by lia.
      rewrite Z.pow_1_r in *. lia.
    + simpl. lia.
Qed.

Lemma count_down_spec fuel : forall a b,
  0 < a -> 0 < b -> b <= a * 10 ^ Z.of_nat fuel ->
  let k := count_down fuel a b in
  0 <= k /\ b <= a * 10 ^ k /\ (0 < k -> a * 10 ^ (k - 1) < b).
Proof.
  induction fuel as [|f IH]; intros a b Ha Hb Hf.
  - simpl in *. lia.
  - cbn [count_down]. destruct (Z.leb_spec b a) as [H|H].
    + simpl. lia.
    + rewrite Nat2Z.inj_succ, Z.pow_succ_r in Hf by lia.
      destruct (IH (a * 10) b ltac:(lia) Hb ltac:(lia)) as (K & L1 & L2).
      set (k := count_down f (a * 10) b) in *.
      split; [lia|]. split.
      * replace (1 + k) with (Z.succ k) by lia.
        rewrite Z.pow_succ_r by lia. lia.
      * intros _. replace (1 + k - 1) with k by lia.
        destruct (Z.eq_dec k 0) as [->|Hk]; [simpl; lia|].
        specialize (L2 ltac:(lia)).
        replace k with (Z.succ (k - 1)) at 1 by lia.
        rewrite Z.pow_succ_r by lia. lia.
Qed.

Lemma pow10_fuel a : 0 < a -> a < 10 ^ Z.of_nat (S (Z.to_nat (Z.log2 a))).
Proof.
  intros Ha. pose proof (Z.log2_spec a Ha) as [_ H].
  pose proof (Z.log2_nonneg a).
  rewrite Nat2Z.inj_succ, Z2Nat.id by done.
  eapply Z.lt_le_trans; [exact H|].
  apply Z.pow_le_mono_l. lia.
Qed.

Local Open Scope Q_scope.

Lemma ilog10_Q a b :
  (0 < a)%Z -> (0 < b)%Z ->
  10 ^ ilog10 a b <= frac a b < 10 ^ (ilog10 a b + 1).
Proof.
  intros Ha Hb. unfold ilog10.
  pose proof (inject_pos b Hb) as Hbq.
  destruct (Z.leb_spec b a) as [Hba|Hba].
  - pose proof (pow10_fuel a Ha) as Hf.
    set (F := (10 ^ Z.of_nat (S (Z.to_nat (Z.log2 a))))%Z) in *.
    assert (Hf' : (a < b * F)%Z) by nia.
    destruct (count_up_spec _ a b ltac:(lia) Hf') as (K & L1 & L2).
    set (k := count_up _ a b) in *.
    rewrite Zle_Qle in L1. rewrite Zlt_Qlt in L2.
    rewrite inject_Z_mult, inject_pow in L1, L2 by lia.
    change (inject_Z 10) with 10 in *.
    split; [by apply frac_le_pow | by apply frac_lt_pow].
  - pose proof (pow10_fuel b Hb) as Hf.
    set (F := (10 ^ Z.of_nat (S (Z.to_nat (Z.log2 b))))%Z) in *.
    assert (Hf' : (b <= a * F)%Z) by nia.
    destruct (count_down_spec _ a b Ha Hb Hf') as (K & L1 & L2).
    set (k := count_down _ a b) in *.
    assert (Hk : (0 < k)%Z).
    { destruct (Z.eq_dec k 0%Z) as [E|E]; [|lia].
      rewrite E in L1. simpl in L1. lia. }
    specialize (L2 Hk).
    rewrite Zle_Qle in L1. rewrite Zlt_Qlt in L2.
    rewrite inject_Z_mult, inject_pow in L1, L2 by lia.
    change (inject_Z 10) with 10 in *.
    pose proof (inject_pos a Ha) as Haq.
    pose proof (frac_mult a b Hb) as Ef.
    pose proof (pow_pos 10 k ltac:(lra)) as Pk.
    pose proof (pow_pos 10 (k - 1) ltac:(lra)) as Pk1.
    replace (- k + 1)%Z with (- (k - 1))%Z by lia.
    rewrite !Qpower_opp. split.
    + apply Qle_shift_inv_r; [done|].
      rewrite <- Ef in L1. nra.
    + apply Qlt_shift_inv_l; [done|].
      rewrite <- Ef in L2. nra.
Qed.

(** *** Six significant digits *)

Lemma pow10_shift X k :
  10 ^ (X + k) == 10 ^ k * 10 ^ X.
Proof. rewrite Qpower_plus by lra. ring. Qed.

Lemma inject_ge (m c : Z) : inject_Z c - 1 < inject_Z m -> (c <= m)%Z.
Proof.
  intros H. assert (E : inject_Z c - 1 == inject_Z (c - 1)).
  { unfold Z.sub. rewrite inject_Z_plus. reflexivity. }
  rewrite E in H. rewrite <- Zlt_Qlt in H. lia.
Qed.

Lemma inject_le (m c : Z) : inject_Z m < inject_Z c + 1 -> (m <= c)%Z.
Proof.
  intros H. assert (E : inject_Z c + 1 == inject_Z (c + 1)).
  { rewrite inject_Z_plus. reflexivity. }
  rewrite E in H. rewrite <- Zlt_Qlt in H. lia.
Qed.

Lemma scaled_le (w m P lo hi : Q) :
  0 < P -> lo <= w - m <= hi ->
  lo * P <= w * P - m * P <= hi * P.
Proof.
  intros HP [H1 H2].
  assert (0 <= (w - m - lo) * P) by (apply Qmult_le_0_compat; lra).
  assert (0 <= (hi - (w - m)) * P) by (apply Qmult_le_0_compat; lra).
  split; lra.
Qed.


(** The result of [round_sig6] has six digits and is within half a unit
    of the sixth digit. *)
Lemma round_sig6_spec a b :
  (0 < a)%Z -> (0 < b)%Z ->
  let '(n, X) := round_sig6 a b in
  (10 ^ 5 <= n < 10 ^ 6)%Z
  /\ - (1 # 2) * 10 ^ (X - 5) <= frac a b - inject_Z n * 10 ^ (X - 5)
     <= (1 # 2) * 10 ^ (X - 5).
Proof.
  intros Ha Hb. unfold round_sig6, scale10.
  pose proof (ilog10_Q a b Ha Hb) as [L1 L2].
  set (X := ilog10 a b) in *.
  pose proof (scale_Q 10 a b (X - 5) ltac:(lia) Hb) as S.
  destruct (scale 10 a b (X - 5)) as [n d]. destruct S as (Hd & E & _).
  change (inject_Z 10) with 10 in E.
  pose proof (round_half_even_Q n d Hd) as [R1 R2].
  set (m := round_half_even n d) in *.
  set (v := frac a b) in *. set (w := frac n d) in *.
  pose proof (pow_pos 10 (X - 5) ltac:(lra)) as HP.
  set (P := 10 ^ (X - 5)) in *.
  assert (E1 : 10 ^ X == 100000 * P).
  { replace X with (X - 5 + 5)%Z at 1 by lia. by rewrite pow10_shift. }
  assert (E2 : 10 ^ (X + 1) == 1000000 * P).
  { replace (X + 1)%Z with (X - 5 + 6)%Z by lia. by rewrite pow10_shift. }
  assert (E3 : 10 ^ (X + 1 - 5) == 10 * P).
  { replace (X + 1 - 5)%Z with (X - 5 + 1)%Z by lia. by rewrite pow10_shift. }
  assert (Ew : w * P == v) by (rewrite E; field; lra).
  rewrite E1 in L1. rewrite E2 in L2. rewrite <- Ew in L1, L2.
  assert (W1 : 100000 <= w) by nra.
  assert (W2 : w < 1000000) by nra.
  assert (M1 : (10 ^ 5 <= m)%Z).
  { apply inject_ge. change (inject_Z (10 ^ 5)) with 100000. lra. }
  assert (M2 : (m <= 10 ^ 6)%Z).
  { apply inject_le. change (inject_Z (10 ^ 6)) with 1000000. lra. }
  destruct (Z.eqb_spec m (10 ^ 6)%Z) as [Em|Em].
  - split; [lia|]. rewrite E3.
    change (inject_Z (10 ^ 5)) with 100000.
    rewrite Em in R1, R2. change (inject_Z (10 ^ 6)) with 1000000 in R1, R2.
    rewrite <- Ew.
    pose proof (scaled_le w 1000000 P _ _ HP (conj R1 R2)) as [S1 S2].
    split; lra.
  - split; [lia|]. rewrite <- Ew.
    exact (scaled_le w (inject_Z m) P _ _ HP (conj R1 R2)).
Qed.



(** *** Rounding to binary64 *)

Lemma pow2_split (k j : Z) : 2 ^ k == 2 ^ (k - j) * 2 ^ j.
Proof. rewrite Qpower_minus by lra. field. pose proof (pow_pos 2 j). lra. Qed.



End PyFloatSpec.

(* ===================================================================== *)
(** * Digits: what [float] reads in what the ['g'] format writes          *)
(* ===================================================================== *)

Module PyFloatDigits.
Import PyStr PyStrFacts PyFloat PyFloatFacts.

Local Open Scope Z_scope.

(** *** Digit characters *)

Lemma digit_char_is_digit d : 0 <= d <= 9 -> is_digit (digit_char d) = true.
Proof.
  intros H. assert (E : d = 0 \/ d = 1 \/ d = 2 \/ d = 3 \/ d = 4 \/ d = 5
                        \/ d = 6 \/ d = 7 \/ d = 8 \/ d = 9) by lia.
  by repeat (destruct E as [-> | E]; [reflexivity|]); subst.
Qed.

Lemma digit_val_char d : 0 <= d <= 9 -> digit_val (digit_char d) = d.
Proof.
  intros H. assert (E : d = 0 \/ d = 1 \/ d = 2 \/ d = 3 \/ d = 4 \/ d = 5
                        \/ d = 6 \/ d = 7 \/ d = 8 \/ d = 9) by lia.
  by repeat (destruct E as [-> | E]; [reflexivity|]); subst.
Qed.


(** *** The value of a string of digits *)

Lemma fold_step_acc ds : forall acc,
  fold_left digit_step ds acc
  = acc * 10 ^ Z.of_nat (length ds) + fold_left digit_step ds 0.
Proof.
  induction ds as [|c ds IH]; intros acc.
  - simpl. lia.
  - cbn [fold_left length]. rewrite IH, (IH (digit_step 0 c)).
    rewrite Nat2Z.inj_succ, Z.pow_succ_r by lia. unfold digit_step. lia.
Qed.

Lemma digits_val_app a b :
  digits_val (a ++ b)
  = digits_val a * 10 ^ Z.of_nat (length b) + digits_val b.
Proof.
  unfold digits_val. rewrite fold_left_app. apply fold_step_acc.
Qed.

Lemma mod10_range x : 0 <= x mod 10 <= 9.
Proof. pose proof (Z.mod_pos_bound x 10 ltac:(lia)). lia. Qed.

Lemma digits_val_zeros k : digits_val (repeat "0"%char k) = 0.
Proof.
  induction k as [|k IH]; [done|].
  change (repeat "0"%char (S k)) with (["0"%char] ++ repeat "0"%char k).
  rewrite digits_val_app, IH. reflexivity.
Qed.


(** *** Six digits *)

Lemma digits6_digits n :
  Forall (fun c => is_digit c = true) (digits6 n).
Proof.
  unfold digits6. repeat constructor;
    apply digit_char_is_digit, mod10_range.
Qed.

Lemma length_digits6 n : length (digits6 n) = 6%nat.
Proof. reflexivity. Qed.

Lemma digits_val_digits6 n : 0 <= n < 10 ^ 6 -> digits_val (digits6 n) = n.
Proof.
  intros Hn. unfold digits6, digits_val. cbn [map fold_left].
  unfold digit_step. rewrite !digit_val_char by apply mod10_range.
  change (10 ^ 5) with 100000. change (10 ^ 4) with 10000.
  change (10 ^ 3) with 1000. change (10 ^ 2) with 100.
  change (10 ^ 1) with 10. change (10 ^ 0) with 1.
  change (10 ^ 6) with 1000000 in Hn.
  pose proof (Z.div_mod n 10 ltac:(lia)).
  pose proof (Z.div_mod (n / 10) 10 ltac:(lia)).
  pose proof (Z.div_mod (n / 100) 10 ltac:(lia)).
  pose proof (Z.div_mod (n / 1000) 10 ltac:(lia)).
  pose proof (Z.div_mod (n / 10000) 10 ltac:(lia)).
  pose proof (Z.div_mod (n / 100000) 10 ltac:(lia)).
  assert (n / 10 / 10 = n / 100) by (rewrite Z.div_div by lia; reflexivity).
  assert (n / 100 / 10 = n / 1000) by (rewrite Z.div_div by lia; reflexivity).
  assert (n / 1000 / 10 = n / 10000) by (rewrite Z.div_div by lia; reflexivity).
  assert (n / 10000 / 10 = n / 100000) by (rewrite Z.div_div by lia; reflexivity).
  assert (n / 100000 / 10 = 0).
  { rewrite Z.div_div by lia. apply Z.div_small. lia. }
  rewrite Z.div_1_r. lia.
Qed.

(** The first digit of a six-digit number is not zero. *)
Lemma digits6_head n :
  10 ^ 5 <= n < 10 ^ 6 ->
  exists d rest,
    digits6 n = digit_char d :: rest /\ 1 <= d <= 9
    /\ length rest = 5%nat.
Proof.
  intros Hn. exists ((n / 10 ^ 5) mod 10). eexists. split; [reflexivity|].
  split; [|reflexivity].
  change (10 ^ 5) with 100000 in *. change (10 ^ 6) with 1000000 in *.
  assert (1 <= n / 100000 < 10).
  { split; [apply Z.div_le_lower_bound | apply Z.div_lt_upper_bound]; lia. }
  rewrite Z.mod_small; lia.
Qed.

(** *** Trailing zeros *)

Lemma strip_zeros_split ds :
  exists k, ds = strip_zeros ds ++ repeat "0"%char k.
Proof.
  induction ds as [|c ds [k E]]; simpl.
  - by exists 0%nat.
  - destruct (strip_zeros ds) as [|r rs] eqn:Er.
    + destruct (eqc c "0") eqn:Hc.
      * apply eqc_eq in Hc as ->. exists (S k). simpl in *. by rewrite E at 1.
      * exists k. simpl in *. by rewrite E at 1.
    + exists k. simpl. by rewrite E at 1.
Qed.

Lemma strip_zeros_digits ds :
  Forall (fun c => is_digit c = true) ds ->
  Forall (fun c => is_digit c = true) (strip_zeros ds).
Proof.
  intros H. destruct (strip_zeros_split ds) as [k E].
  rewrite E in H. by apply Forall_app in H as [H _].
Qed.

(** The digits before the stripped zeros, as a number. *)
Lemma digits_val_strip ds :
  digits_val ds
  = digits_val (strip_zeros ds)
    * 10 ^ (Z.of_nat (length ds) - Z.of_nat (length (strip_zeros ds)))
  /\ (length (strip_zeros ds) <= length ds)%nat.
Proof.
  destruct (strip_zeros_split ds) as [k E].
  assert (Hl : length ds = (length (strip_zeros ds) + k)%nat).
  { rewrite E at 1. by rewrite length_app, repeat_length. }
  split; [|lia]. rewrite E at 1.
  rewrite digits_val_app, digits_val_zeros, repeat_length.
  rewrite Hl.
  replace (Z.of_nat (length (strip_zeros ds) + k)
           - Z.of_nat (length (strip_zeros ds))) with (Z.of_nat k) by lia.
  lia.
Qed.

(** *** Integers written by [str] *)

Lemma uint_chars_acc d : forall acc,
  fold_left digit_step
    (list_ascii_of_string (NilEmpty.string_of_uint d)) (Z.pos acc)
  = Z.pos (Pos.of_uint_acc d acc).
Proof.
  induction d; intros acc; cbn [NilEmpty.string_of_uint list_ascii_of_string
    fold_left Pos.of_uint_acc]; [done|..];
    (etransitivity; [|apply IHd]); f_equal; unfold digit_step;
    match goal with
    | |- context [digit_val ?c] =>
        let v := eval vm_compute in (digit_val c) in
        change (digit_val c) with v
    end; lia.
Qed.

Lemma uint_chars d :
  digits_val (list_ascii_of_string (NilEmpty.string_of_uint d))
  = Z.of_N (Pos.of_uint d).
Proof.
  unfold digits_val.
  induction d; cbn [NilEmpty.string_of_uint list_ascii_of_string
    fold_left Pos.of_uint]; [done| exact IHd |..];
    apply (uint_chars_acc d).
Qed.

Lemma uint_chars_digits d :
  Forall (fun c => is_digit c = true)
    (list_ascii_of_string (NilEmpty.string_of_uint d)).
Proof. induction d; simpl; by constructor. Qed.

Lemma str_of_int_nonneg z :
  0 <= z ->
  digits_val (str_of_int z) = z
  /\ Forall (fun c => is_digit c = true) (str_of_int z)
  /\ str_of_int z <> [].
Proof.
  intros Hz. unfold str_of_int. destruct z as [|p|p]; [by repeat constructor| |lia].
  cbn [Z.to_int NilZero.string_of_int].
  pose proof (DecimalPos.Unsigned.to_uint_nonnil p) as Hn.
  unfold NilZero.string_of_uint.
  destruct (Pos.to_uint p) as [|u|u|u|u|u|u|u|u|u|u] eqn:E; [done|..];
    rewrite <- E; (split; [|split]);
    try (rewrite uint_chars, DecimalPos.Unsigned.of_to; reflexivity);
    try apply uint_chars_digits;
    rewrite E; discriminate.
Qed.

(** *** Reading digits *)

Lemma span_digits_app ds rest :
  Forall (fun c => is_digit c = true) ds ->
  match rest with [] => True | c :: _ => is_digit c = false end ->
  span_digits (ds ++ rest) = (ds, rest).
Proof.
  intros Hds Hrest. induction Hds as [|c ds Hc _ IH]; cbn [app span_digits].
  - destruct rest as [|c rest]; [done|]. cbn [span_digits]. by rewrite Hrest.
  - by rewrite Hc, IH.
Qed.


Lemma digits_val_lead_zeros k ds :
  digits_val (repeat "0"%char k ++ ds) = digits_val ds.
Proof. rewrite digits_val_app, digits_val_zeros. lia. Qed.

Lemma digits_val_app_strip a ds :
  digits_val (a ++ ds)
  = digits_val (a ++ strip_zeros ds)
    * 10 ^ (Z.of_nat (length ds) - Z.of_nat (length (strip_zeros ds)))
  /\ (length (strip_zeros ds) <= length ds)%nat.
Proof.
  destruct (strip_zeros_split ds) as [k E].
  assert (Hl : length ds = (length (strip_zeros ds) + k)%nat).
  { rewrite E at 1. by rewrite length_app, repeat_length. }
  split; [|lia]. rewrite E at 1.
  rewrite app_assoc, digits_val_app, digits_val_zeros, repeat_length.
  rewrite Hl.
  replace (Z.of_nat (length (strip_zeros ds) + k)
           - Z.of_nat (length (strip_zeros ds))) with (Z.of_nat k) by lia.
  lia.
Qed.

(** *** Reading what the ['g'] format writes *)

Lemma parse_exponent_exp_part X : parse_exponent (exp_part X) = Some X.
Proof.
  destruct (str_of_int_nonneg (Z.abs X) ltac:(lia)) as (Hv & Hd & Hn).
  unfold exp_part.
  set (pad := if Z.abs X <? 10 then ["0"%char] else []).
  assert (Hp : Forall (fun c => is_digit c = true) (pad ++ str_of_int (Z.abs X))
               /\ digits_val (pad ++ str_of_int (Z.abs X)) = Z.abs X
               /\ pad ++ str_of_int (Z.abs X) <> []).
  { subst pad. destruct (Z.abs X <? 10).
    - split; [by constructor|]. split; [|done].
      rewrite <- Hv at 2. apply (digits_val_lead_zeros 1).
    - done. }
  destruct Hp as (Hp1 & Hp2 & Hp3).
  assert (Hspan : span_digits (pad ++ str_of_int (Z.abs X))
                  = (pad ++ str_of_int (Z.abs X), [])).
  { rewrite <- (app_nil_r (pad ++ _)) at 1. by apply span_digits_app. }
  unfold parse_exponent.
  change (eqc (lower "e") "e") with true. cbn match.
  destruct (X <? 0) eqn:Hs; unfold parse_sign.
  - change (eqc "-" "-") with true. cbn match. rewrite Hspan.
    destruct (pad ++ str_of_int (Z.abs X)); [done|].
    rewrite Hp2. f_equal. apply Z.ltb_lt in Hs. lia.
  - change (eqc "+" "-") with false. change (eqc "+" "+") with true.
    cbn match. rewrite Hspan.
    destruct (pad ++ str_of_int (Z.abs X)); [done|].
    rewrite Hp2. f_equal. apply Z.ltb_ge in Hs. lia.
Qed.

(** A literal made of an integer part, an optional fraction and an
    optional exponent. *)
Lemma parse_decimal_parts ip fp ex e :
  Forall (fun c => is_digit c = true) ip -> ip <> [] ->
  Forall (fun c => is_digit c = true) fp ->
  parse_exponent ex = Some e ->
  ex = [] \/ (exists r, ex = "e"%char :: r) ->
  parse_decimal
    (ip ++ match fp with [] => [] | f :: r => "."%char :: f :: r end ++ ex)
  = Some (digits_val (ip ++ fp), e - Z.of_nat (length fp)).
Proof.
  intros Hip Hne Hfp He Hex.
  assert (Hhead : match ex with [] => True | c :: _ => is_digit c = false end).
  { destruct Hex as [-> | [r ->]]; done. }
  unfold parse_decimal.
  rewrite span_digits_app; [|done|destruct fp; [exact Hhead|reflexivity]].
  destruct fp as [|f fp].
  - cbn [app]. rewrite !app_nil_r.
    destruct Hex as [-> | [r ->]].
    + destruct ip; [done|]. rewrite He. cbn [app]. by rewrite app_nil_r.
    + change (eqc "e" ".") with false. cbn match.
      destruct ip; [done|]. rewrite He. cbn [app]. by rewrite app_nil_r.
  - cbn [app]. change (eqc "." ".") with true. cbn match.
    change (f :: fp ++ ex) with ((f :: fp) ++ ex).
    rewrite span_digits_app by done.
    destruct (ip ++ f :: fp) eqn:E; [by destruct ip|].
    by rewrite He.
Qed.

(** The text of six significant digits reads back as the same decimal
    number. *)
Lemma parse_decimal_repr n X :
  10 ^ 5 <= n < 10 ^ 6 ->
  exists m j,
    0 <= j /\ n = m * 10 ^ j
    /\ parse_decimal (repr_g n X) = Some (m, X - 5 + j).
Proof.
  intros Hn.
  pose proof (digits6_digits n) as Hds.
  pose proof (digits_val_digits6 n ltac:(lia)) as Hval.
  destruct (digits6_head n Hn) as (d & rest & E & Hd & Hlen).
  unfold repr_g. rewrite E in *.
  destruct ((X <? -4) || (6 <=? X)) eqn:Hsci.
  - (* scientific notation *)
    cbn [firstn skipn]. rewrite firstn_O, skipn_O. unfold frac_part.
    apply Forall_cons in Hds as [Hdc Hrest].
    destruct (digits_val_app_strip [digit_char d] rest) as [Hs Hle].
    exists (digits_val ([digit_char d] ++ strip_zeros rest)),
      (Z.of_nat (length rest) - Z.of_nat (length (strip_zeros rest))).
    split; [lia|]. split; [by rewrite <- Hs, <- Hval|].
    rewrite parse_decimal_parts with (e := X);
      [|by repeat constructor|done|by apply strip_zeros_digits
       |apply parse_exponent_exp_part|right; by eexists].
    do 2 f_equal. lia.
  - apply orb_false_iff in Hsci as [H1 H2].
    apply Z.ltb_ge in H1. apply Z.leb_gt in H2.
    destruct (X <? 0) eqn:Hneg.
    + (* fixed point, below 1 *)
      apply Z.ltb_lt in Hneg.
      destruct (digits_val_app_strip [] (digit_char d :: rest)) as [Hs Hle].
      cbn [app] in Hs.
      set (sz := strip_zeros (digit_char d :: rest)) in *.
      assert (Hsz : sz <> []).
      { intros Hnil. rewrite Hnil in Hs. rewrite Hval in Hs.
        change (digits_val []) with 0 in Hs. lia. }
      exists (digits_val sz),
        (Z.of_nat (length (digit_char d :: rest)) - Z.of_nat (length sz)).
      split; [lia|]. split; [by rewrite <- Hs, <- Hval|].
      change (py "0.") with (["0"%char] ++ ["."%char]).
      rewrite <- (app_nil_r sz) at 1.
      pose proof (parse_decimal_parts ["0"%char]
        (repeat "0"%char (Z.to_nat (- X - 1)) ++ sz) [] 0) as P.
      assert (Hfp : exists f fp,
                 repeat "0"%char (Z.to_nat (- X - 1)) ++ sz = f :: fp).
      { destruct (repeat "0"%char (Z.to_nat (- X - 1)) ++ sz) eqn:Ef;
          [|by eauto].
        apply app_eq_nil in Ef as [_ ?]. done. }
      destruct Hfp as (f & fp & Ef).
      rewrite Ef in P. cbn match in P. rewrite <- Ef in P.
      replace ((["0"%char] ++ ["."%char])
               ++ repeat "0"%char (Z.to_nat (- X - 1)) ++ sz ++ [])
        with (["0"%char] ++ ("."%char :: (repeat "0"%char (Z.to_nat (- X - 1)) ++ sz))
              ++ [])
        by (cbn [app]; by rewrite <- app_assoc).
      rewrite P; [|by repeat constructor|done| |done|by left].
      * change (["0"%char] ++ repeat "0"%char (Z.to_nat (- X - 1)) ++ sz)
          with (repeat "0"%char (S (Z.to_nat (- X - 1))) ++ sz).
        rewrite digits_val_lead_zeros, length_app, repeat_length.
        do 2 f_equal. cbn [length] in *. lia.
      * apply Forall_app. split.
        -- clear. induction (Z.to_nat (- X - 1)); by constructor.
        -- by apply strip_zeros_digits.
    + (* fixed point, at least 1 *)
      apply Z.ltb_ge in Hneg.
      set (ds := digit_char d :: rest) in *.
      set (k := Z.to_nat (X + 1)).
      assert (Hk : (1 <= k <= 6)%nat) by lia.
      assert (Hlds : length ds = 6%nat) by (subst ds; cbn [length]; lia).
      destruct (digits_val_app_strip (firstn k ds) (skipn k ds)) as [Hs Hle].
      rewrite firstn_skipn in Hs.
      rewrite length_skipn in Hs, Hle.
      exists (digits_val (firstn k ds ++ strip_zeros (skipn k ds))),
        (Z.of_nat (length ds - k) - Z.of_nat (length (strip_zeros (skipn k ds)))).
      split; [lia|]. split; [by rewrite <- Hs, <- Hval|].
      unfold frac_part.
      rewrite <- (app_nil_r (match strip_zeros (skipn k ds) with
                             | [] => [] | _ => _ end)).
      rewrite parse_decimal_parts with (e := 0);
        [|by apply Forall_take| |by apply strip_zeros_digits, Forall_drop|done
         |by left].
      * do 2 f_equal. lia.
      * intros Hnil. apply (f_equal (@length ascii)) in Hnil.
        rewrite length_firstn in Hnil. cbn [length] in Hnil. lia.
Qed.

(** *** The characters that the format writes *)

Local Abbreviation written :=
  (fun c : ascii =>
     is_digit c = true \/ c = "."%char \/ c = "e"%char
     \/ c = "+"%char \/ c = "-"%char).

Lemma digit_facts c :
  is_digit c = true ->
  is_space c = false /\ c <> "_"%char /\ c <> "-"%char /\ c <> "+"%char
  /\ lower c <> "i"%char /\ lower c <> "n"%char.
Proof.
  destruct c as [[] [] [] [] [] [] [] []]; intros H; try discriminate H;
    by repeat split.
Qed.






Lemma repr_g_head n X :
  10 ^ 5 <= n < 10 ^ 6 ->
  exists c r, repr_g n X = c :: r /\ is_digit c = true.
Proof.
  intros Hn. destruct (digits6_head n Hn) as (d & rest & E & Hd & _).
  assert (Hc : is_digit (digit_char d) = true)
    by (apply digit_char_is_digit; lia).
  unfold repr_g. rewrite E.
  destruct ((X <? -4) || (6 <=? X)) eqn:Hsci; [|destruct (X <? 0) eqn:Hneg].
  - by eexists _, _.
  - by eexists _, _.
  - apply orb_false_iff in Hsci as [_ H2]. apply Z.leb_gt in H2.
    apply Z.ltb_ge in Hneg.
    destruct (Z.to_nat (X + 1)) as [|k] eqn:Ek; [lia|].
    by eexists _, _.
Qed.



(** *** The exponent mark *)

Local Abbreviation plain_digit :=
  (fun c : ascii => is_digit c = true \/ c = "."%char \/ c = "-"%char).

Lemma digits_plain ds :
  Forall (fun c => is_digit c = true) ds -> Forall plain_digit ds.
Proof. intros H. eapply Forall_impl; [exact H|]. intros c Hc. by left. Qed.

Lemma frac_part_plain ds :
  Forall (fun c => is_digit c = true) ds -> Forall plain_digit (frac_part ds).
Proof.
  intros H. apply strip_zeros_digits, digits_plain in H.
  unfold frac_part. destruct (strip_zeros ds); [done|].
  constructor; [by right; left|done].
Qed.

Lemma sign_part_plain s : Forall plain_digit (sign_part s).
Proof. destruct s; [|done]. by repeat constructor; right; right. Qed.

(** In fixed-point display the number is made of digits and a point. *)
Lemma repr_g_fixed n X :
  (X <? -4) || (6 <=? X) = false -> Forall plain_digit (repr_g n X).
Proof.
  intros Hsci. pose proof (digits6_digits n) as Hds.
  unfold repr_g. rewrite Hsci. destruct (X <? 0).
  - change (py "0.") with ["0"%char; "."%char].
    constructor; [by left|]. constructor; [by right; left|].
    apply digits_plain, Forall_app. split.
    + induction (Z.to_nat (- X - 1)); by constructor.
    + by apply strip_zeros_digits.
  - apply Forall_app. split; [by apply digits_plain, Forall_take|].
    by apply frac_part_plain, Forall_drop.
Qed.

Lemma plain_no_exponent s :
  Forall plain_digit s -> contains (py "e") s = false.
Proof.
  intros H. apply (contains_missing "e"%char); [by left|].
  intros Hin. rewrite Forall_forall in H. apply H in Hin.
  by destruct Hin as [? | [? | ?]].
Qed.

(** The number holds an [e] exactly in scientific notation. *)
Lemma repr_g_exponent s n X :
  contains (py "e") (sign_part s ++ repr_g n X)
  = (X <? -4) || (6 <=? X).
Proof.
  destruct ((X <? -4) || (6 <=? X)) eqn:Hsci.
  - apply contains_app_r. unfold repr_g. rewrite Hsci.
    rewrite app_assoc. apply contains_app_r.
    apply contains_spec. exists [], (skipn 1 (exp_part X)). reflexivity.
  - apply plain_no_exponent, Forall_app. split.
    + apply sign_part_plain.
    + by apply repr_g_fixed.
Qed.

End PyFloatDigits.

(* ===================================================================== *)
(** * Formatting a threshold twice                                        *)
(* ===================================================================== *)

Module PyFloatRoundTrip.
Import PyStr PyStrFacts PyFloat PyFloatFacts PyFloatSpec PyFloatDigits.

Local Open Scope Q_scope.

(** *** The floats that [float] returns *)





(** *** Exact values of the conversions *)

Lemma scale2_value m e :
  let '(a, b) := scale2 (Z.pos m) 1 (- e) in
  (0 < a)%Z /\ (0 < b)%Z /\ frac a b == inject_Z (Z.pos m) * 2 ^ e.
Proof.
  unfold scale2.
  pose proof (scale_Q 2 (Z.pos m) 1 (- e) ltac:(lia) ltac:(lia)) as S.
  destruct (scale 2 (Z.pos m) 1 (- e)) as [a b].
  destruct S as (Hb & E & Ha). split; [by apply Ha|]. split; [done|].
  rewrite E. change (inject_Z 2) with 2. rewrite Qpower_opp.
  pose proof (pow_pos 2 e ltac:(lra)).
  unfold frac. change (inject_Z 1) with 1. field. lra.
Qed.



(** The six digits that the format writes. *)
Lemma format_g_spec s m e :
  exists n X,
    format_g (S754_finite s m e) = sign_part s ++ repr_g n X
    /\ (10 ^ 5 <= n < 10 ^ 6)%Z
    /\ - (1 # 2) * 10 ^ (X - 5)
       <= inject_Z (Z.pos m) * 2 ^ e - inject_Z n * 10 ^ (X - 5)
       <= (1 # 2) * 10 ^ (X - 5).
Proof.
  unfold format_g.
  pose proof (scale2_value m e) as S.
  destruct (scale2 (Z.pos m) 1 (- e)) as [a b]. destruct S as (Ha & Hb & E).
  pose proof (round_sig6_spec a b Ha Hb) as R.
  destruct (round_sig6 a b) as [n X]. destruct R as [Hn R].
  exists n, X. split; [done|]. split; [done|]. by rewrite <- E.
Qed.


(** *** Constants of binary64 against powers of ten *)











(** *** Six digits of a normal float *)

Lemma six_digits_bounds n (P : Q) :
  (10 ^ 5 <= n < 10 ^ 6)%Z -> 0 < P ->
  100000 * P <= inject_Z n * P <= 999999 * P.
Proof.
  intros [N1 N2] HP.
  assert (N2' : (n <= 999999)%Z) by lia.
  rewrite Zle_Qle in N1, N2'.
  change (inject_Z (10 ^ 5)) with 100000 in N1.
  change (inject_Z 999999) with 999999 in N2'.
  split; apply Qmult_le_compat_r; lra.
Qed.



(** *** Formatting twice *)



(** *** Fixed point or scientific notation *)

(** A tie is rounded to the even neighbour. *)
Lemma round_half_even_tie num den :
  (0 < den)%Z ->
  (2 * (num - round_half_even num den * den) = den
   \/ 2 * (num - round_half_even num den * den) = - den)%Z ->
  Z.even (round_half_even num den) = true.
Proof.
  intros Hden. unfold round_half_even.
  pose proof (Z.div_mod num den ltac:(lia)) as E.
  pose proof (Z.mod_pos_bound num den Hden) as B.
  destruct (Z.ltb_spec (2 * (num mod den)) den); [nia|].
  destruct (Z.ltb_spec den (2 * (num mod den))); [nia|].
  destruct (Z.even (num / den)) eqn:Ev; [done|].
  intros _. rewrite Z.add_1_r, Z.even_succ, <- Z.negb_even. by rewrite Ev.
Qed.

(** From half a unit below an even integer on, rounding gives at least
    that integer. *)
Lemma round_half_even_ge num den k :
  (0 < den)%Z -> Z.even k = true ->
  inject_Z k - (1 # 2) <= frac num den ->
  (k <= round_half_even num den)%Z.
Proof.
  intros Hden Hk Hw.
  pose proof (round_half_even_bounds num den Hden) as [B1 B2].
  pose proof (round_half_even_tie num den Hden) as T.
  set (r := round_half_even num den) in *.
  pose proof (inject_pos den Hden) as Hd.
  pose proof (frac_mult num den Hden) as E.
  assert (Hz : ((2 * k - 1) * den <= 2 * num)%Z).
  { rewrite Zle_Qle. unfold Z.sub.
    repeat first [ rewrite inject_Z_plus | rewrite inject_Z_mult
                 | rewrite inject_Z_opp ].
    rewrite <- E. change (inject_Z 2) with 2. change (inject_Z 1) with 1.
    assert (0 <= (frac num den - (inject_Z k - (1 # 2))) * inject_Z den)
      by (apply Qmult_le_0_compat; lra).
    lra. }
  destruct (Z.le_gt_cases k r) as [|Hlt]; [done|]. exfalso.
  assert (Er : r = (k - 1)%Z) by nia.
  assert (Ev : Z.even r = true) by (apply T; left; nia).
  rewrite Er, Z.sub_1_r, Z.even_pred, <- Z.negb_even, Hk in Ev. done.
Qed.

(** The decimal exponent that [round_sig6] returns is below -4 exactly
    for the values that round to less than [0.0001], and at least 6
    exactly for those that round to [1000000] or more. *)
Lemma round_sig6_exponent a b :
  (0 < a)%Z -> (0 < b)%Z ->
  let '(n, X) := round_sig6 a b in
  ((X < -4)%Z <-> frac a b < (1999999 # 2) * 10 ^ (-10))
  /\ ((6 <= X)%Z <-> (1999999 # 2) <= frac a b).
Proof.
  intros Ha Hb. unfold round_sig6, scale10.
  pose proof (ilog10_Q a b Ha Hb) as [L1 L2].
  set (X := ilog10 a b) in *.
  pose proof (scale_Q 10 a b (X - 5) ltac:(lia) Hb) as S.
  destruct (scale 10 a b (X - 5)) as [n d]. destruct S as (Hd & E & _).
  change (inject_Z 10) with 10 in E.
  pose proof (round_half_even_Q n d Hd) as [R1 R2].
  pose proof (round_half_even_ge n d (10 ^ 6) Hd ltac:(reflexivity)) as G.
  change (inject_Z (10 ^ 6)) with 1000000 in G.
  set (m := round_half_even n d) in *.
  set (v := frac a b) in *. set (w := frac n d) in *.
  pose proof (pow_pos 10 (X - 5) ltac:(lra)) as HP.
  assert (Ew : w * 10 ^ (X - 5) == v) by (rewrite E; field; lra).
  assert (E2 : 10 ^ (X + 1) == 1000000 * 10 ^ (X - 5)).
  { replace (X + 1)%Z with (X - 5 + 6)%Z by lia. by rewrite pow10_shift. }
  assert (W2 : w < 1000000).
  { apply (Qmult_lt_r _ _ _ HP). rewrite Ew, <- E2. exact L2. }
  assert (M2 : (m <= 10 ^ 6)%Z).
  { apply inject_le. change (inject_Z (10 ^ 6)) with 1000000. lra. }
  assert (mono : forall j k : Z, (j <= k)%Z -> 10 ^ j <= 10 ^ k)
    by (intros; apply Qpower_le_compat_l; [lia | lra]).
  change (10 ^ (-10)) with (1 # 10000000000).
  destruct (Z.eqb_spec m (10 ^ 6)%Z) as [Em|Em].
  - (* the digits round up to the next power of ten *)
    rewrite Em in R1. change (inject_Z (10 ^ 6)) with 1000000 in R1.
    assert (V : (1999999 # 2) * 10 ^ (X - 5) <= v).
    { rewrite <- Ew. apply Qmult_le_compat_r; lra. }
    split; split.
    + intros Hx. pose proof (mono (X + 1)%Z (-5)%Z ltac:(lia)) as H5.
      change (10 ^ (-5)) with (1 # 100000) in H5. lra.
    + intros Hv. destruct (Z.lt_ge_cases (X + 1) (-4)) as [|Hx]; [done|].
      pose proof (mono (-10)%Z (X - 5)%Z ltac:(lia)) as H10.
      change (10 ^ (-10)) with (1 # 10000000000) in H10. lra.
    + intros Hx. pose proof (mono 0%Z (X - 5)%Z ltac:(lia)) as H0.
      change (10 ^ 0) with 1 in H0. lra.
    + intros Hv. destruct (Z.le_gt_cases 6 (X + 1)) as [|Hx]; [done|].
      pose proof (mono (X + 1)%Z 5%Z ltac:(lia)) as H5.
      change (10 ^ 5) with 100000 in H5. lra.
  - assert (Hw : w < 1999999 # 2).
    { apply Qnot_le_lt. intros Hc.
      assert (10 ^ 6 <= m)%Z by (apply G; lra). lia. }
    assert (V : v < (1999999 # 2) * 10 ^ (X - 5)).
    { rewrite <- Ew. apply Qmult_lt_compat_r; lra. }
    split; split.
    + intros Hx. pose proof (mono (X - 5)%Z (-10)%Z ltac:(lia)) as H10.
      change (10 ^ (-10)) with (1 # 10000000000) in H10. lra.
    + intros Hv. destruct (Z.lt_ge_cases X (-4)) as [|Hx]; [done|].
      pose proof (mono (-4)%Z X Hx) as H4.
      change (10 ^ (-4)) with (1 # 10000) in H4. lra.
    + intros Hx. pose proof (mono 6%Z X Hx) as H6.
      change (10 ^ 6) with 1000000 in H6. lra.
    + intros Hv. destruct (Z.le_gt_cases 6 X) as [|Hx]; [done|].
      pose proof (mono (X - 5)%Z 0%Z ltac:(lia)) as H0.
      change (10 ^ 0) with 1 in H0. lra.
Qed.

Lemma abs_value s m e :
  Qabs (value (S754_finite s m e)) == inject_Z (Z.pos m) * 2 ^ e.
Proof.
  cbn [value].
  assert (0 < inject_Z (Z.pos m)) by (by apply inject_pos).
  assert (0 < 2 ^ e) by (by apply pow_pos).
  assert (0 <= inject_Z (Z.pos m) * 2 ^ e)
    by (apply Qmult_le_0_compat; lra).
  destruct s.
  - assert (E : -1 * inject_Z (Z.pos m) * 2 ^ e
                 == - (inject_Z (Z.pos m) * 2 ^ e)) by ring.
    rewrite E, Qabs_opp. by apply Qabs_pos.
  - assert (E : 1 * inject_Z (Z.pos m) * 2 ^ e
                 == inject_Z (Z.pos m) * 2 ^ e) by ring.
    rewrite E. by apply Qabs_pos.
Qed.

(** The decimal exponent of the six digits of a finite float, by its
    magnitude. *)
Lemma format_g_finite s m e :
  exists n X,
    format_g (S754_finite s m e) = sign_part s ++ repr_g n X
    /\ (((X <? -4) || (6 <=? X))%Z = true
        <-> Qabs (value (S754_finite s m e)) < (1999999 # 2) * 10 ^ (-10)
            \/ (1999999 # 2) <= Qabs (value (S754_finite s m e))).
Proof.
  unfold format_g.
  pose proof (scale2_value m e) as S.
  destruct (scale2 (Z.pos m) 1 (- e)) as [a b]. destruct S as (Ha & Hb & E).
  pose proof (round_sig6_exponent a b Ha Hb) as R.
  destruct (round_sig6 a b) as [n X]. destruct R as [R1 R2].
  exists n, X. split; [done|].
  rewrite abs_value, <- E, orb_true_iff, Z.ltb_lt, Z.leb_le.
  by rewrite R1, R2.
Qed.

(** The emitted number is in scientific notation exactly for the
    nonzero finite floats that round to less than [0.0001] or to
    [1000000] or more. *)
Lemma format_g_scientific x :
  contains (py "e") (format_g x) = true
  <-> 0 < Qabs (value x) < (1999999 # 2) * 10 ^ (-10)
      \/ (1999999 # 2) <= Qabs (value x).
Proof.
  destruct x as [s|s| |s m e].
  - destruct s; split; [done| |done|]; intros [[? _]|?]; done.
  - destruct s; split; [done| |done|]; intros [[? _]|?]; done.
  - split; [done|]. intros [[? _]|?]; done.
  - destruct (format_g_finite s m e) as (n & X & -> & H).
    rewrite repr_g_exponent, H.
    assert (0 < Qabs (value (S754_finite s m e))).
    { rewrite abs_value.
      apply Qmult_lt_0_compat; [by apply inject_pos | by apply pow_pos]. }
    tauto.
Qed.

(** In the other cases a finite float is written with digits, at most
    one point and a sign. *)
Lemma format_g_fixed x :
  (exists s, x = S754_zero s)
  \/ (1999999 # 2) * 10 ^ (-10) <= Qabs (value x) < (1999999 # 2) ->
  Forall (fun c => is_digit c = true \/ c = "."%char \/ c = "-"%char)
    (format_g x).
Proof.
  intros [[s ->]|[H1 H2]].
  - destruct s; by repeat constructor; auto.
  - destruct x as [s|s| |s m e]; try done.
    destruct (format_g_finite s m e) as (n & X & -> & H).
    apply Forall_app. split; [apply sign_part_plain|].
    apply repr_g_fixed. apply not_true_is_false. rewrite H.
    intros [?|?]; lra.
Qed.

End PyFloatRoundTrip.
(* ===================================================================== *)
(** * Facts about the translator                                          *)
(* ===================================================================== *)

Module TreeToSasFacts.
Import PyStr PyStrFacts TreeToSas Model.

Lemma Ok_inj {A} (a b : A) : Ok a = Ok b -> a = b.
Proof. congruence. Qed.

(** *** The counter *)

Lemma key_inj n m : key n = key m -> n = m.
Proof. intros H. apply str_of_int_inj in H. lia. Qed.

Lemma getitem_update_same d n line :
  getitem (update_count d n line) (key n)
  = (getitem d (key n) + if contains (py "class") line then 0 else 1)%Z.
Proof.
  unfold update_count, getitem.
  destruct (d !! key n) eqn:E; destruct (contains (py "class") line);
    rewrite ?lookup_insert_eq; simpl; lia.
Qed.

Lemma getitem_update_other d n line k :
  k <> key n -> getitem (update_count d n line) k = getitem d k.
Proof.
  intros Hk. unfold update_count, getitem.
  destruct (d !! key n) eqn:E; destruct (contains (py "class") line);
    by rewrite ?lookup_insert_ne.
Qed.

Lemma getitem_empty k : getitem ∅ k = 0%Z.
Proof. unfold getitem. by rewrite lookup_empty. Qed.

(** *** The role prefix *)

Lemma get_front_add_odd k n : Z.odd k = true -> get_front_add k n = IF_prefix.
Proof.
  intros H. unfold get_front_add.
  rewrite Zmod_odd, H. reflexivity.
Qed.

Lemma get_front_add_even k n :
  Z.even k = true -> get_front_add k n = ELSE_IF_prefix n.
Proof.
  intros H. unfold get_front_add.
  rewrite Zmod_even, H. reflexivity.
Qed.

Lemma get_front_add_parity k n :
  get_front_add k n = if Z.odd k then IF_prefix else ELSE_IF_prefix n.
Proof.
  destruct (Z.odd k) eqn:E.
  - by apply get_front_add_odd.
  - apply get_front_add_even. by rewrite <- Z.negb_odd, E.
Qed.

Lemma parity_of_nat j :
  Z.even (Z.of_nat j) = Nat.even j /\ Z.odd (Z.of_nat j) = Nat.odd j.
Proof.
  induction j as [|j [IH1 IH2]]; [done|].
  rewrite Nat2Z.inj_succ, Z.even_succ, Z.odd_succ, Nat.even_succ,
    Nat.odd_succ. done.
Qed.

Lemma odd_succ_of_nat j : Z.odd (0 + Z.of_nat j + 1) = Nat.even j.
Proof.
  replace (0 + Z.of_nat j + 1)%Z with (Z.succ (Z.of_nat j)) by lia.
  rewrite Z.odd_succ. apply parity_of_nat.
Qed.

(** *** The fields of an analysis *)

Lemma a_line_analyse d st raw : a_line (analyse d st raw) = normalize raw.
Proof. unfold analyse. by destruct (pop_while _ _). Qed.

Lemma a_n_spaces_analyse d st raw :
  a_n_spaces (analyse d st raw) = count_leading (normalize raw).
Proof. unfold analyse. by destruct (pop_while _ _). Qed.

Lemma a_dict_analyse d st raw :
  a_dict (analyse d st raw)
  = update_count d (count_leading (normalize raw)) (normalize raw).
Proof. unfold analyse. by destruct (pop_while _ _). Qed.

Lemma a_front_add_analyse d st raw :
  a_front_add (analyse d st raw)
  = get_front_add
      (getitem (a_dict (analyse d st raw)) (key (count_leading (normalize raw))))
      (count_leading (normalize raw)).
Proof. unfold analyse. by destruct (pop_while _ _). Qed.

Lemma a_pops_analyse d st raw :
  a_pops (analyse d st raw)
  = fst (pop_while (count_leading (normalize raw)) (rev st)).
Proof. unfold analyse. by destruct (pop_while _ _). Qed.

Lemma a_add_end_front_analyse d st raw :
  a_add_end_front (analyse d st raw)
  = concat (repeat END_nl (a_pops (analyse d st raw))).
Proof. unfold analyse. by destruct (pop_while _ _). Qed.

Lemma a_stack_analyse d st raw :
  a_stack (analyse d st raw)
  = let n := count_leading (normalize raw) in
    let popped := rev (snd (pop_while n (rev st))) in
    if contains (py "ELSE") (a_front_add (analyse d st raw))
       && negb (is_leaf (normalize raw))
    then popped ++ [n] else popped.
Proof. unfold analyse. by destruct (pop_while _ _). Qed.

(** The count of a line after its own update. *)
Lemma count_after_line d st raw n :
  getitem (a_dict (analyse d st raw)) (key n)
  = (getitem d (key n) + if counted_at n raw then 1 else 0)%Z.
Proof.
  rewrite a_dict_analyse. unfold counted_at, is_leaf.
  destruct (Nat.eqb_spec (count_leading (normalize raw)) n) as [->|Hne].
  - rewrite getitem_update_same, andb_true_r.
    by destruct (contains _ _).
  - rewrite getitem_update_other, andb_false_r; [lia|].
    intros H. by apply key_inj in H.
Qed.

Lemma occurrences_cons n raw lines :
  occurrences n (raw :: lines)
  = ((if counted_at n raw then 1 else 0) + occurrences n lines)%nat.
Proof. unfold occurrences. simpl. by destruct (counted_at n raw). Qed.

Lemma trace_count lines : forall d st i a,
  trace d st lines !! i = Some a ->
  getitem (a_dict a) (key (a_n_spaces a))
  = (getitem d (key (a_n_spaces a))
     + Z.of_nat (occurrences (a_n_spaces a) (take (S i) lines)))%Z.
Proof.
  induction lines as [|raw lines IH]; intros d st i a H; [done|].
  destruct i as [|i]; simpl in H.
  - injection H as <-. rewrite count_after_line.
    simpl take. rewrite take_0, occurrences_cons.
    unfold occurrences at 1. simpl.
    destruct (counted_at _ raw); lia.
  - apply IH in H. rewrite H, count_after_line.
    change (take (S (S i)) (raw :: lines)) with (raw :: take (S i) lines).
    rewrite occurrences_cons.
    destruct (counted_at _ raw); lia.
Qed.

Lemma trace_front_add lines : forall d st i a,
  trace d st lines !! i = Some a ->
  a_front_add a
  = get_front_add (getitem (a_dict a) (key (a_n_spaces a))) (a_n_spaces a).
Proof.
  induction lines as [|raw lines IH]; intros d st i a H; [done|].
  destruct i as [|i]; simpl in H.
  - injection H as <-. by rewrite a_front_add_analyse, a_n_spaces_analyse.
  - by apply IH in H.
Qed.

Lemma roles_at_trace lines : forall d st n j f,
  roles_at n (trace d st lines) !! j = Some f ->
  f = get_front_add (getitem d (key n) + Z.of_nat j + 1) n.
Proof.
  induction lines as [|raw lines IH]; intros d st n j f H; [done|].
  unfold roles_at in H. simpl in H.
  set (a := analyse d st raw) in *.
  pose proof (count_after_line d st raw n) as Hc. fold a in Hc.
  assert (Hca : counted_at n raw
                = negb (is_leaf (a_line a)) && (a_n_spaces a =? n)%nat).
  { unfold a. by rewrite a_line_analyse, a_n_spaces_analyse. }
  rewrite <- Hca in H.
  destruct (counted_at n raw) eqn:E.
  - destruct j as [|j]; simpl in H.
    + injection H as <-. unfold a at 1.
      rewrite a_front_add_analyse. fold a.
      symmetry in Hca. apply andb_true_iff in Hca as [_ Hn].
      apply Nat.eqb_eq in Hn. unfold a in Hn.
      rewrite a_n_spaces_analyse in Hn. rewrite Hn, Hc.
      f_equal. lia.
    + apply IH in H. rewrite H, Hc. f_equal. lia.
  - apply IH in H. rewrite H, Hc. f_equal. lia.
Qed.

(** *** Depth of a line *)

Lemma count_leading_spaces n c s :
  c <> " "%char -> count_leading (spaces n ++ c :: s) = n.
Proof.
  intros Hc. unfold count_leading.
  rewrite lstrip_chars_spaces, lstrip_chars_stop by done.
  rewrite length_app, length_spaces. lia.
Qed.

Lemma count_leading_all_spaces n : count_leading (spaces n) = n.
Proof.
  unfold count_leading.
  rewrite <- (app_nil_r (spaces n)) at 2.
  rewrite lstrip_chars_spaces, length_spaces. simpl. lia.
Qed.



Lemma contains_skip_spaces sub n y :
  sub <> [] -> " "%char ∉ sub ->
  contains sub (spaces n ++ y) = contains sub y.
Proof.
  intros Hne Hsub. induction n as [|n IH]; [done|].
  pose proof (contains_sep sub [] " "%char (spaces n ++ y) Hne Hsub) as E.
  change (spaces (S n) ++ y) with ([] ++ " "%char :: (spaces n ++ y)).
  rewrite E, IH. by destruct sub.
Qed.

Lemma is_leaf_spaces n y : is_leaf (spaces n ++ y) = is_leaf y.
Proof.
  apply contains_skip_spaces; [done|].
  intros H. by repeat (apply elem_of_cons in H as [H|H]; [done|]);
    apply elem_of_nil in H.
Qed.

Lemma is_condition_spaces n y : is_condition (spaces n ++ y) = is_condition y.
Proof.
  unfold is_condition. f_equal; (apply contains_skip_spaces; [done|]);
    intros H; by repeat (apply elem_of_cons in H as [H|H]; [done|]);
      apply elem_of_nil in H.
Qed.

(** *** Normalised lines *)

Lemma normalize_map x : normalize x = map glyph (rstrip x).
Proof.
  unfold normalize.
  change (py "-") with ["-"%char]. change (py "|") with ["|"%char].
  change (py " ") with [" "%char].
  by rewrite !replace_char, map_map.
Qed.

Lemma glyph_cases c : glyph c = " "%char \/ glyph c = c.
Proof.
  unfold glyph. destruct (eqc "|" c); [by left|].
  destruct (eqc "-" c); [by left | by right].
Qed.

Lemma glyph_keeps c : c <> "|"%char -> c <> "-"%char -> glyph c = c.
Proof.
  intros H1 H2. unfold glyph. rewrite (eqc_neq "|" c) by congruence.
  by rewrite (eqc_neq "-" c) by congruence.
Qed.

Lemma map_glyph_blank x :
  Forall (fun c => glyph c = " "%char) x -> map glyph x = spaces (length x).
Proof. induction 1 as [|c x Hc _ IH]; simpl; [done|]. by rewrite Hc, IH. Qed.

Lemma length_concat_repeat (x : str) k :
  length (concat (repeat x k)) = k * length x.
Proof.
  induction k as [|k IH]; simpl; [done|]. rewrite length_app, IH. lia.
Qed.

Lemma Forall_concat_repeat (P : ascii -> Prop) (x : str) k :
  Forall P x -> Forall P (concat (repeat x k)).
Proof.
  intros H. induction k as [|k IH]; simpl; [constructor|].
  by apply Forall_app.
Qed.

Lemma map_glyph_indent s k :
  s <> 0 -> k <> 0 -> map glyph (indent s k) = spaces (k * S s).
Proof.
  intros Hs Hk. rewrite map_glyph_blank.
  - f_equal. unfold indent. rewrite length_app, repeat_length.
    destruct s as [|s]; [done|]. unfold drop_last.
    rewrite length_take, length_concat_repeat. simpl length.
    rewrite length_spaces. destruct k; [done|]. lia.
  - unfold indent. apply Forall_app. split.
    + destruct s as [|s]; [done|]. unfold drop_last.
      apply Forall_take, Forall_concat_repeat.
      constructor; [done|]. by apply Forall_spaces.
    + clear. induction s; by constructor.
Qed.

Lemma spaces_snoc n : spaces n ++ [" "%char] = spaces (n + 1).
Proof.
  unfold spaces. rewrite repeat_app. done.
Qed.

Lemma rstrip_app_nil a b : rstrip b = [] -> rstrip (a ++ b) = rstrip a.
Proof.
  intros Hb. induction a as [|x a IH]; simpl; [done|]. by rewrite IH.
Qed.

Lemma rstrip_after_nonspace a c b :
  is_space c = false -> rstrip ((a ++ [c]) ++ b) = (a ++ [c]) ++ rstrip b.
Proof.
  intros Hc. destruct (rstrip b) eqn:Eb.
  - rewrite rstrip_app_nil by done.
    by rewrite rstrip_ends_nonspace, app_nil_r.
  - rewrite rstrip_app; [by rewrite Eb | by rewrite Eb].
Qed.

(** The line of a split: the connectors become blanks up to the column
    of the depth, then the text of the split. *)
Lemma normalize_split_line s k text c :
  s <> 0 -> k <> 0 -> c ∈ text -> is_space c = false ->
  normalize (indent s k ++ py " " ++ text)
  = spaces (column s k) ++ normalize text.
Proof.
  intros Hs Hk Hin Hc. rewrite !normalize_map.
  rewrite app_assoc, rstrip_app.
  - rewrite !map_app, map_glyph_indent by done.
    change (map glyph (py " ")) with [" "%char].
    by rewrite spaces_snoc.
  - intros E. apply (rstrip_keeps c) in Hin; [|done].
    rewrite E in Hin. by apply elem_of_nil in Hin.
Qed.

(** The line of a leaf. *)
Lemma normalize_leaf_line s k value :
  s <> 0 -> k <> 0 ->
  normalize (indent s k ++ py " class: " ++ value)
  = spaces (column s k) ++ py "class:"
    ++ map glyph (rstrip (" "%char :: value)).
Proof.
  intros Hs Hk. rewrite normalize_map.
  replace (indent s k ++ py " class: " ++ value)
    with (((indent s k ++ py " class") ++ [":"%char])
          ++ " "%char :: value)
    by (by rewrite <- !app_assoc).
  rewrite rstrip_after_nonspace by done.
  rewrite !map_app, map_glyph_indent by done.
  change (map glyph (py " class")) with (" "%char :: py "class").
  change (map glyph [":"%char]) with [":"%char].
  rewrite <- !app_assoc.
  change ((" "%char :: py "class") ++ [":"%char] ++ ?x)
    with ([" "%char] ++ py "class:" ++ x).
  by rewrite app_assoc, spaces_snoc.
Qed.

(** *** The stack *)

Lemma pop_while_spec n l :
  exists p,
    l = p ++ snd (pop_while n l)
    /\ length p = fst (pop_while n l)
    /\ Forall (fun t => n < t) p
    /\ (forall t, head (snd (pop_while n l)) = Some t -> t <= n).
Proof.
  induction l as [|t l (p & E & Hlen & Hp & Hr)]; simpl.
  - exists []. repeat split; [constructor | done].
  - destruct (Nat.ltb_spec n t) as [Hlt|Hge].
    + destruct (pop_while n l) as [k r]. simpl in *.
      exists (t :: p). repeat split; simpl; try congruence; auto.
    + exists []. repeat split; simpl; [constructor|].
      intros ? [= <-]. lia.
Qed.

(** The stack before a line is the stack after its pops followed by the
    popped depths, all above the depth of the line. *)
Lemma popped_stack n stack :
  exists popped,
    stack = rev (snd (pop_while n (rev stack))) ++ popped
    /\ length popped = fst (pop_while n (rev stack))
    /\ Forall (fun t => n < t) popped
    /\ (forall t, last (rev (snd (pop_while n (rev stack)))) = Some t ->
        t <= n).
Proof.
  destruct (pop_while_spec n (rev stack)) as (p & E & Hlen & Hp & Hr).
  exists (rev p). repeat split.
  - rewrite <- rev_app_distr, <- E. by rewrite rev_involutive.
  - by rewrite length_rev.
  - by apply List.Forall_rev.
  - intros t Ht. apply Hr. rewrite <- Ht.
    destruct (snd (pop_while n (rev stack))) as [|x r]; [done|].
    simpl. by rewrite last_snoc.
Qed.

(** *** The loop and the trace *)

(** The loop is the analysis of the lines followed by their emission. *)
Lemma loop_trace tree_id skip lines : forall st,
  loop tree_id skip st lines
  = let! chunks :=
      emit_all tree_id skip
        (trace (dict_space_count st) (current_elseif_count st) lines) in
    Ok {| dict_space_count :=
            fst (final (dict_space_count st) (current_elseif_count st) lines);
          current_elseif_count :=
            snd (final (dict_space_count st) (current_elseif_count st) lines);
          sas_rules := sas_rules st ++ concat chunks |}.
Proof.
  induction lines as [|raw lines IH]; intros [d stack out]; simpl.
  - by rewrite app_nil_r.
  - unfold loop_body. simpl.
    destruct (emit tree_id skip (analyse d stack raw)) as [chunk|e]; simpl;
      [|done].
    rewrite IH. simpl.
    destruct (emit_all _ _ _) as [chunks|e]; simpl; [|done].
    by rewrite <- app_assoc.
Qed.

(** The errors of the loop are those of [rsplit] and [float]. *)
Lemma condition_line_error n front line e :
  condition_line n front line = Raise e -> e <> SpacingError.
Proof.
  unfold condition_line.
  destruct (rsplit1 line) as [|h [|v [|x l]]]; try (intros [= <-]; done).
  destruct (PyFloat.float_of_str v); intros [= <-]; done.
Qed.

Lemma emit_error tree_id skip a e :
  emit tree_id skip a = Raise e -> e <> SpacingError.
Proof.
  unfold emit, translate_line.
  destruct (contains (py "<") (a_line a) || contains (py ">") (a_line a)).
  - destruct (condition_line _ _ _) eqn:E; simpl; [done|].
    intros [= <-]. by eapply condition_line_error.
  - done.
Qed.

Lemma emit_all_error tree_id skip tr e :
  emit_all tree_id skip tr = Raise e -> e <> SpacingError.
Proof.
  induction tr as [|a tr IH]; simpl; [done|].
  destruct (emit tree_id skip a) eqn:E; simpl.
  - destruct (emit_all tree_id skip tr); simpl; [done|].
    intros [= <-]. by apply IH.
  - intros [= <-]. by eapply emit_error.
Qed.

Lemma translate_error {Tree} (tree : Tree) tree_id sas_table features text
    spacing e :
  translate_text_to_sas tree tree_id sas_table features text spacing = Raise e
  -> e <> SpacingError.
Proof.
  unfold translate_text_to_sas, run. rewrite loop_trace.
  destruct (emit_all _ _ _) eqn:E; simpl; [done|].
  intros [= <-]. by eapply emit_all_error.
Qed.

Lemma trace_add_end_front lines : forall d st,
  Forall (fun a => a_add_end_front a = concat (repeat END_nl (a_pops a)))
    (trace d st lines).
Proof.
  induction lines as [|raw lines IH]; intros d st; simpl; [constructor|].
  constructor; [apply a_add_end_front_analyse | apply IH].
Qed.

(** *** Lines with both the marker and an operator *)

Lemma class_no_space : Forall (fun c => is_space c = false) (py "class").
Proof. by repeat constructor. Qed.

Lemma class_no_blank : Forall (fun c => c <> " "%char) (py "class").
Proof. by repeat constructor. Qed.

(** The result of the condition branch. *)
Lemma condition_line_inv n front line line1 :
  condition_line n front line = Ok line1 ->
  exists head val x,
    rsplit1 line = [head; val]
    /\ PyFloat.float_of_str val = Some x
    /\ line1 = replace (spaces n) (spaces n ++ front) head ++ py " "
               ++ PyFloat.format_g x ++ py " THEN DO;".
Proof.
  unfold condition_line.
  destruct (rsplit1 line) as [|head [|val [|? ?]]]; try done.
  destruct (PyFloat.float_of_str val) as [x|] eqn:Ex; [|done].
  intros H. apply Ok_inj in H. subst line1. by exists head, val, x.
Qed.

(** The marker of a line with leading blanks is still there after the
    condition branch. *)
Lemma condition_line_keeps_class n front line line1 :
  n <> 0 -> is_leaf line = true ->
  condition_line n front line = Ok line1 -> is_leaf line1 = true.
Proof.
  intros Hn Hleaf H.
  apply condition_line_inv in H as (head & val & x & Hs & Hx & ->).
  apply rsplit1_inv in Hs as (ws & c & tw & -> & Hc & Hws & Htw).
  unfold is_leaf in *.
  rewrite contains_pieces in Hleaf by (done || apply class_no_space).
  rewrite (PyFloatFacts.float_of_str_no_class _ _ Hx), orb_false_r in Hleaf.
  apply contains_app_l, contains_replace_spaces; try done.
  apply class_no_blank.
Qed.

(** *** The emitted text as a sequence of chunks *)

Lemma emit_all_Forall2 (Q : analysis -> str -> Prop) tree_id skip :
  (forall a chunk, emit tree_id skip a = Ok chunk -> Q a chunk) ->
  forall tr chunks,
    emit_all tree_id skip tr = Ok chunks -> Forall2 Q tr chunks.
Proof.
  intros HQ. induction tr as [|a tr IH]; intros chunks; simpl.
  - intros [= <-]. constructor.
  - destruct (emit tree_id skip a) as [chunk|] eqn:E; simpl; [|done].
    destruct (emit_all tree_id skip tr) as [cs|] eqn:E'; simpl; [|done].
    intros [= <-]. constructor; auto.
Qed.

Lemma emit_all_lines (P : str -> str -> Prop) tree_id skip :
  (forall d st raw chunk,
      emit tree_id skip (analyse d st raw) = Ok chunk -> P raw chunk) ->
  forall lines d st chunks,
    emit_all tree_id skip (trace d st lines) = Ok chunks ->
    Forall2 P lines chunks.
Proof.
  intros HP. induction lines as [|raw lines IH]; intros d st chunks; simpl.
  - intros [= <-]. constructor.
  - destruct (emit tree_id skip (analyse d st raw)) as [chunk|] eqn:E;
      simpl; [|done].
    destruct (emit_all tree_id skip _) as [cs|] eqn:E'; simpl; [|done].
    intros [= <-]. constructor; eauto.
Qed.

Lemma split_not_nil sep s : split sep s <> [].
Proof.
  destruct s as [|c s]; simpl; [done|].
  destruct (eqc c sep); [done|]. by destruct (split sep s).
Qed.

Lemma emit_not_nil tree_id skip a chunk :
  emit tree_id skip a = Ok chunk -> chunk <> [].
Proof.
  unfold emit. destruct (translate_line tree_id a); simpl; [|done].
  intros [= <-] H. apply (f_equal length) in H.
  rewrite !length_app in H. simpl in H. lia.
Qed.

(** The returned text: the header, the chunks of the lines without the
    last newline, and the trailer. *)
Lemma translate_chunks {Tree} (tree : Tree) tree_id sas_table features text
    spacing out :
  translate_text_to_sas tree tree_id sas_table features text spacing = Ok out
  -> exists chunks,
      emit_all tree_id (times (py " ") spacing) (trace ∅ [] (split nl text))
      = Ok chunks
      /\ out = header tree_id sas_table ++ removelast (concat chunks)
               ++ py "RUN;".
Proof.
  unfold translate_text_to_sas, run. rewrite loop_trace.
  cbn [init_state dict_space_count current_elseif_count sas_rules].
  destruct (emit_all _ _ _) as [chunks|] eqn:E; cbn [bind sas_rules];
    [|done].
  intros H. apply Ok_inj in H. subst out. exists chunks. split; [done|].
  rewrite removelast_app, <- app_assoc; [done|].
  destruct (split nl text) as [|raw lines] eqn:Es.
  { by apply split_not_nil in Es. }
  simpl in E.
  destruct (emit _ _ (analyse ∅ [] raw)) as [chunk|] eqn:E1; simpl in E;
    [|done].
  destruct (emit_all _ _ _) as [cs|]; simpl in E; [|done].
  injection E as <-. apply emit_not_nil in E1. simpl.
  by destruct chunk.
Qed.

End TreeToSasFacts.

(* ===================================================================== *)
(** * The analysis of a rendered tree                                     *)
(* ===================================================================== *)

Module Balance.
Import PyStr PyStrFacts TreeToSas Model TreeToSasFacts.

(** *** Traces of concatenated line lists *)




(** *** The stack along a trace *)


Lemma pop_while_length n l :
  fst (pop_while n l) + length (snd (pop_while n l)) = length l.
Proof.
  induction l as [|t l IH]; simpl; [done|].
  destruct (n <? t); [|simpl; lia].
  destruct (pop_while n l). simpl in *. lia.
Qed.


Lemma pushes_analyse d st raw :
  pushes (analyse d st raw)
  = if contains (py "ELSE") (a_front_add (analyse d st raw))
       && negb (is_leaf (normalize raw))
    then 1 else 0.
Proof. unfold pushes. by rewrite a_line_analyse. Qed.

(** One line: the stack loses its pops and gains its push. *)
Lemma stack_step d st raw :
  let a := analyse d st raw in
  length (a_stack a) + a_pops a = length st + pushes a.
Proof.
  intros a. unfold a. rewrite a_stack_analyse, a_pops_analyse,
    pushes_analyse. cbv zeta.
  pose proof (pop_while_length (count_leading (normalize raw)) (rev st)) as H.
  rewrite length_rev in H.
  destruct (_ && _); rewrite ?length_app, length_rev; simpl; lia.
Qed.

Lemma stack_account lines : forall d st,
  length (snd (final d st lines)) + total a_pops (trace d st lines)
  = length st + total pushes (trace d st lines).
Proof.
  induction lines as [|raw lines IH]; intros d st; simpl; [lia|].
  pose proof (stack_step d st raw) as H. simpl in H.
  specialize (IH (a_dict (analyse d st raw)) (a_stack (analyse d st raw))).
  lia.
Qed.



(** *** The role prefixes *)

Lemma contains_ELSE_IF : contains (py "ELSE") IF_prefix = false.
Proof. reflexivity. Qed.

Lemma contains_ELSE_ELSE_IF n :
  contains (py "ELSE") (ELSE_IF_prefix n) = true.
Proof.
  unfold ELSE_IF_prefix. apply contains_app_r, contains_app_r.
  reflexivity.
Qed.

Lemma contains_ELSE_front k n :
  contains (py "ELSE") (get_front_add k n) = Z.even k.
Proof.
  rewrite get_front_add_parity, <- Z.negb_odd.
  destruct (Z.odd k); [apply contains_ELSE_IF | apply contains_ELSE_ELSE_IF].
Qed.

(** The prefix of a line, from the count before the line. *)
Lemma front_add_analyse d st raw :
  contains (py "ELSE") (a_front_add (analyse d st raw))
  = Z.even (getitem d (key (count_leading (normalize raw)))
            + if is_leaf (normalize raw) then 0 else 1).
Proof.
  rewrite a_front_add_analyse, contains_ELSE_front, a_dict_analyse.
  by rewrite getitem_update_same.
Qed.

(** *** The lines of a rendered tree *)

Lemma glyph_image x y : glyph y = x -> x <> " "%char -> y = x.
Proof. intros H Hx. destruct (glyph_cases y); congruence. Qed.



Lemma operator_absent c value :
  c = "<"%char \/ c = ">"%char -> contains [c] value = false ->
  contains [c] (py "class:" ++ map glyph (rstrip (" "%char :: value)))
  = false.
Proof.
  intros Hc Hv. apply not_true_is_false. rewrite contains_char.
  rewrite elem_of_app. intros [H|H].
  - destruct Hc as [-> | ->];
      by repeat (apply elem_of_cons in H as [H|H]; [done|]);
        apply elem_of_nil in H.
  - apply list_elem_of_fmap in H as (y & Hy & Hin).
    symmetry in Hy. apply glyph_image in Hy;
      [|by destruct Hc as [-> | ->]].
    subst y. apply rstrip_sub in Hin.
    apply elem_of_cons in Hin as [->|Hin];
      [by destruct Hc|].
    apply contains_char in Hin. congruence.
Qed.

Lemma leaf_line_facts s k value :
  s <> 0 -> k <> 0 -> is_condition value = false ->
  let raw := indent s k ++ py " class: " ++ value in
  count_leading (normalize raw) = column s k
  /\ is_leaf (normalize raw) = true
  /\ is_condition (normalize raw) = false.
Proof.
  intros Hs Hk Hv raw. unfold raw. rewrite normalize_leaf_line by done.
  split; [|split].
  - change (py "class:" ++ ?x) with ("c"%char :: (py "lass:" ++ x)).
    by apply count_leading_spaces.
  - rewrite is_leaf_spaces. unfold is_leaf.
    by apply (contains_app_l (py "class") (py "class:")).
  - rewrite is_condition_spaces. unfold is_condition in *.
    apply orb_false_iff in Hv as [H1 H2].
    change (py "<") with ["<"%char]. change (py ">") with [">"%char].
    rewrite !operator_absent; auto.
Qed.

(** *** The effect of one line *)



(** *** A rendered subtree *)




Lemma trace_cons d st raw lines :
  trace d st (raw :: lines)
  = analyse d st raw
    :: trace (a_dict (analyse d st raw)) (a_stack (analyse d st raw)) lines.
Proof. reflexivity. Qed.

Lemma final_cons d st raw lines :
  final d st (raw :: lines)
  = final (a_dict (analyse d st raw)) (a_stack (analyse d st raw)) lines.
Proof. reflexivity. Qed.



(** *** The whole text *)

Lemma no_newline_spec x : no_newline x = true -> nl ∉ x.
Proof.
  unfold no_newline. rewrite negb_true_iff. intros H Hin.
  apply not_true_iff_false in H. apply H.
  apply existsb_exists. exists nl. split; [|apply eqc_refl].
  by apply list_elem_of_In.
Qed.

Lemma indent_glyphs s k : Forall (fun c => glyph c = " "%char) (indent s k).
Proof.
  unfold indent. apply Forall_app. split.
  - destruct s as [|s]; [constructor|]. unfold drop_last.
    apply Forall_take, Forall_concat_repeat.
    constructor; [done|]. by apply Forall_spaces.
  - induction s; by constructor.
Qed.

Lemma indent_no_newline s k : nl ∉ indent s k.
Proof.
  intros H. pose proof (indent_glyphs s k) as G.
  rewrite Forall_forall in G. by apply G in H.
Qed.

Lemma render_lines_no_newline s t : forall k,
  wf_tree t = true -> Forall (fun l => nl ∉ l) (render_lines s k t).
Proof.
  induction t as [value | name thr l IHl r IHr]; intros k Hwf;
    cbn [wf_tree render_lines] in *.
  - apply andb_true_iff in Hwf as [Hv _]. apply no_newline_spec in Hv.
    constructor; [|constructor].
    rewrite !elem_of_app. intros [H|[H|H]].
    + by apply indent_no_newline in H.
    + revert H. by apply no_newline_spec.
    + done.
  - apply andb_true_iff in Hwf as [Hwf Hwr].
    apply andb_true_iff in Hwf as [Hwf Hwl].
    apply andb_true_iff in Hwf as [Hw1 Hw2].
    assert (Hline : forall op, wf_split name op thr = true ->
              nl ∉ indent s k ++ py " " ++ name ++ op ++ thr).
    { intros op Hw. unfold wf_split in Hw.
      apply andb_true_iff in Hw as [Hw _].
      apply andb_true_iff in Hw as [Hw _]. apply no_newline_spec in Hw.
      rewrite elem_of_app. intros [H|H].
      - by apply indent_no_newline in H.
      - apply elem_of_app in H as [H|H]; [|done].
        revert H. by apply no_newline_spec. }
    constructor; [by apply Hline|].
    apply Forall_app. split; [by apply IHl|].
    constructor; [by apply Hline | by apply IHr].
Qed.

Lemma split_render s t :
  wf_tree t = true -> split nl (render s t) = render_lines s 1 t ++ [[]].
Proof.
  intros Hwf. unfold render. apply split_lines.
  by apply render_lines_no_newline.
Qed.



End Balance.

(* ===================================================================== *)
(** * More facts on the translator                                        *)
(* ===================================================================== *)

Module CoverageFacts.
Import PyStr PyStrFacts TreeToSas Model TreeToSasFacts Balance Invariants.

(** *** The stack of open blocks never decreases *)

Lemma nondecreasing_app a b :
  nondecreasing (a ++ b)
  <-> nondecreasing a /\ nondecreasing b
      /\ Forall (fun x => Forall (fun y => x <= y) b) a.
Proof.
  induction a as [|x a IH]; cbn [app nondecreasing].
  - split; [by intros; repeat split | by intros (_ & ? & _)].
  - rewrite IH, Forall_app, Forall_cons. tauto.
Qed.

Lemma nondecreasing_last st t :
  nondecreasing st -> last st = Some t -> Forall (fun x => x <= t) st.
Proof.
  intros Hs Hl. apply last_Some in Hl as [l' ->].
  apply nondecreasing_app in Hs as (_ & _ & H).
  apply Forall_app. split; [|by repeat constructor].
  eapply Forall_impl; [exact H|]. intros x Hx. by inversion Hx.
Qed.

Lemma filter_none {A} (f : A -> bool) l :
  Forall (fun x => f x = false) l -> List.filter f l = [].
Proof. induction 1 as [|x l Hx _ IH]; simpl; [done|]. by rewrite Hx. Qed.

Lemma filter_all {A} (f : A -> bool) l :
  Forall (fun x => f x = true) l -> List.filter f l = l.
Proof. induction 1 as [|x l Hx _ IH]; simpl; [done|]. by rewrite Hx, IH. Qed.

(** One line keeps the order: it pops the depths above its own, all of
    them, and pushes at most its own depth. *)
Lemma stack_sorted_step d st raw :
  nondecreasing st ->
  let a := analyse d st raw in
  nondecreasing (a_stack a)
  /\ Forall (fun t => t <= a_n_spaces a) (a_stack a)
  /\ a_pops a = length (List.filter (fun t => a_n_spaces a <? t) st).
Proof.
  intros Hs a.
  assert (Hn : a_n_spaces a = count_leading (normalize raw))
    by apply a_n_spaces_analyse.
  destruct (popped_stack (count_leading (normalize raw)) st)
    as (popped & E & Hlen & Hgt & Hlast).
  set (rest := rev (snd (pop_while (count_leading (normalize raw)) (rev st))))
    in *.
  assert (Hp : a_pops a = length popped).
  { unfold a. by rewrite a_pops_analyse. }
  assert (Hst : a_stack a = rest \/ a_stack a = rest ++ [a_n_spaces a]).
  { unfold a at 1 2. rewrite a_stack_analyse. cbn zeta. fold rest.
    rewrite Hn. destruct (_ && _); auto. }
  rewrite Hn in *. set (n := count_leading (normalize raw)) in *.
  rewrite E in Hs. apply nondecreasing_app in Hs as (Hr & _ & _).
  assert (Hle : Forall (fun t => t <= n) rest).
  { destruct (last rest) as [t|] eqn:El.
    - pose proof (nondecreasing_last rest t Hr El) as H.
      specialize (Hlast t eq_refl).
      eapply Forall_impl; [exact H|]. intros x Hx. simpl in Hx. lia.
    - apply last_None in El. by rewrite El. }
  assert (Hcount : length popped
                   = length (List.filter (fun t => n <? t) st)).
  { rewrite E, List.filter_app, filter_none, filter_all; [done|..].
    - eapply Forall_impl; [exact Hgt|]. intros x Hx.
      by apply Nat.ltb_lt.
    - eapply Forall_impl; [exact Hle|]. intros x Hx.
      apply Nat.ltb_ge. exact Hx. }
  destruct Hst as [-> | ->].
  - by rewrite Hp.
  - split; [|split; [|by rewrite Hp]].
    + apply nondecreasing_app. split; [done|]. split; [by repeat constructor|].
      eapply Forall_impl; [exact Hle|]. intros x Hx. by repeat constructor.
    + apply Forall_app. split; [done|]. by repeat constructor.
Qed.

Lemma stack_sorted lines : forall d st,
  nondecreasing st -> nondecreasing (snd (final d st lines)).
Proof.
  induction lines as [|raw lines IH]; intros d st Hs; [done|].
  rewrite final_cons. apply IH. by apply stack_sorted_step.
Qed.

(** The analysis of line [i] starts from the state that the lines before
    it leave. *)
Lemma trace_lookup lines : forall d st i a,
  trace d st lines !! i = Some a ->
  exists raw,
    lines !! i = Some raw
    /\ a = analyse (fst (final d st (take i lines)))
                   (snd (final d st (take i lines))) raw.
Proof.
  induction lines as [|raw lines IH]; intros d st i a H; [done|].
  rewrite trace_cons in H. destruct i as [|i].
  - injection H as <-. by exists raw.
  - cbn [lookup list_lookup] in H. apply IH in H as (raw' & Hl & ->).
    exists raw'. split; [done|]. cbn [take]. by rewrite final_cons.
Qed.

Lemma trace_lines lines : forall d st,
  map a_line (trace d st lines) = map normalize lines.
Proof.
  induction lines as [|raw lines IH]; intros d st; [done|].
  rewrite trace_cons. cbn [map]. by rewrite IH, a_line_analyse.
Qed.

Lemma length_trace lines : forall d st,
  length (trace d st lines) = length lines.
Proof.
  induction lines as [|raw lines IH]; intros d st; [done|].
  rewrite trace_cons. cbn [length]. by rewrite IH.
Qed.

(** *** The counter *)

Lemma lookup_getitem (d : gmap str Z) k :
  is_Some (d !! k) -> d !! k = Some (getitem d k).
Proof. intros [c H]. unfold getitem. by rewrite H. Qed.

(** The counted key is present after the update, with the count of
    before (0 when the key was missing), plus one unless the line holds
    the marker. *)
Lemma update_count_lookup d n line :
  update_count d n line !! key n
  = Some (default 0%Z (d !! key n)
          + if contains (py "class") line then 0 else 1)%Z.
Proof.
  unfold update_count, getitem.
  destruct (d !! key n) as [c|] eqn:E; cbn [default];
    destruct (contains (py "class") line);
    rewrite ?lookup_insert_eq; cbn [default];
    rewrite ?lookup_insert_eq; cbn [default]; unfold id; f_equal; lia.
Qed.

Lemma update_count_lookup_other d n line k :
  k <> key n -> update_count d n line !! k = d !! k.
Proof.
  intros Hk. unfold update_count.
  destruct (d !! key n); destruct (contains (py "class") line);
    by rewrite ?lookup_insert_ne.
Qed.

Lemma update_count_dom d n line k :
  is_Some (update_count d n line !! k) <-> is_Some (d !! k) \/ k = key n.
Proof.
  destruct (decide (k = key n)) as [->|Hk].
  - rewrite update_count_lookup. split; [by right | by eauto].
  - rewrite update_count_lookup_other by done. split; [by left|].
    by intros [?|?].
Qed.

Lemma final_getitem lines : forall d st n,
  getitem (fst (final d st lines)) (key n)
  = (getitem d (key n) + Z.of_nat (occurrences n lines))%Z.
Proof.
  induction lines as [|raw lines IH]; intros d st n.
  - cbn. lia.
  - rewrite final_cons, IH, count_after_line, occurrences_cons.
    destruct (counted_at n raw); lia.
Qed.

Lemma final_dom lines : forall d st k,
  is_Some (fst (final d st lines) !! k)
  <-> is_Some (d !! k)
      \/ exists raw, raw ∈ lines /\ k = key (count_leading (normalize raw)).
Proof.
  induction lines as [|raw lines IH]; intros d st k.
  - cbn. split; [by left|]. intros [?|(? & H & _)]; [done|].
    by apply elem_of_nil in H.
  - rewrite final_cons, IH, a_dict_analyse, update_count_dom. split.
    + intros [[?| ->]|(raw' & Hin & ->)].
      * by left.
      * right. exists raw. split; [by left|done].
      * right. exists raw'. split; [by right|done].
    + intros [?|(raw' & Hin & ->)]; [by left; left|].
      apply elem_of_cons in Hin as [->|Hin]; [by left; right|].
      right. by exists raw'.
Qed.

(** The state that the loop ends with. *)
Lemma run_final tree_id sas_table text spacing st :
  run tree_id sas_table text spacing = Ok st ->
  dict_space_count st = fst (final ∅ [] (split nl text))
  /\ current_elseif_count st = snd (final ∅ [] (split nl text)).
Proof.
  unfold run. rewrite loop_trace. cbn [init_state dict_space_count
    current_elseif_count sas_rules].
  destruct (emit_all _ _ _); [|done]. cbn [bind].
  intros H. apply Ok_inj in H. by subst st.
Qed.

(** *** The normalised line and its depth *)

Lemma glyph_blank c :
  glyph c = " "%char <-> c = " "%char \/ c = "|"%char \/ c = "-"%char.
Proof.
  unfold glyph.
  destruct (eqc "|" c) eqn:E1.
  - apply eqc_eq in E1 as <-. split; [by auto|done].
  - destruct (eqc "-" c) eqn:E2.
    + apply eqc_eq in E2 as <-. split; [by auto|done].
    + split; [by auto|]. intros [->|[->| ->]]; done.
Qed.

Lemma glyph_not_connector c : glyph c <> "|"%char /\ glyph c <> "-"%char.
Proof.
  unfold glyph.
  destruct (eqc "|" c) eqn:E1; [done|].
  destruct (eqc "-" c) eqn:E2; [done|].
  split; intros ->; done.
Qed.

Lemma map_glyph_no_connectors s :
  Forall (fun c => c <> "|"%char /\ c <> "-"%char) (map glyph s).
Proof.
  induction s as [|c s IH]; [done|]. constructor; [|done].
  apply glyph_not_connector.
Qed.

Lemma existsb_connector c :
  existsb (eqc (glyph c)) (py " ") = existsb (eqc c) (py " |-").
Proof.
  change (py " ") with [" "%char]. change (py " |-") with [" "; "|"; "-"]%char.
  cbn [existsb]. rewrite !orb_false_r.
  destruct (eqc (glyph c) " ") eqn:E.
  - apply eqc_eq, glyph_blank in E as [->|[->| ->]]; done.
  - symmetry. apply not_true_is_false. intros H.
    apply orb_true_iff in H as [H|H];
      [|apply orb_true_iff in H as [H|H]]; apply eqc_eq in H; subst c; done.
Qed.

(** Stripping blanks after the connectors are replaced is stripping
    blanks and connectors before. *)
Lemma lstrip_chars_glyph s :
  lstrip_chars (py " ") (map glyph s)
  = map glyph (lstrip_chars (py " |-") s).
Proof.
  induction s as [|c s IH]; [done|].
  cbn [map lstrip_chars]. rewrite existsb_connector.
  by destruct (existsb (eqc c) (py " |-")).
Qed.

Lemma count_leading_glyph s :
  count_leading (map glyph s)
  = length s - length (lstrip_chars (py " |-") s).
Proof.
  unfold count_leading. by rewrite lstrip_chars_glyph, !length_map.
Qed.

(** *** The last word of a line *)

Lemma lstrip_head s c r : lstrip s = c :: r -> is_space c = false.
Proof.
  induction s as [|x s IH]; [done|]. cbn [lstrip].
  destruct (is_space x) eqn:E; [done|]. by intros [= <- _].
Qed.

Lemma lstrip_nil s : lstrip s = [] -> Forall (fun c => is_space c = true) s.
Proof.
  intros H. destruct (lstrip_split s) as (ws & E & Hws).
  rewrite H, app_nil_r in E. by subst.
Qed.

Lemma span_word_word r :
  Forall (fun c => is_space c = false) (fst (span_word r)).
Proof.
  induction r as [|c r IH]; [done|]. cbn [span_word].
  destruct (is_space c) eqn:E; [done|].
  destruct (span_word r). by constructor.
Qed.

(** [rsplit(maxsplit=1)] returns no piece for a blank string, and one or
    two pieces otherwise; the last piece is a word. *)
Lemma rsplit1_cases s :
  (rsplit1 s = [] /\ Forall (fun c => is_space c = true) s)
  \/ exists w,
       w <> [] /\ Forall (fun c => is_space c = false) w
       /\ (rsplit1 s = [w] \/ exists h, rsplit1 s = [h; w]).
Proof.
  unfold rsplit1. destruct (lstrip (rev s)) as [|c r] eqn:E.
  - left. split; [done|]. apply lstrip_nil in E.
    apply List.Forall_rev in E. by rewrite rev_involutive in E.
  - right. pose proof (lstrip_head _ _ _ E) as Hc.
    pose proof (span_word_word (c :: r)) as Hw.
    cbn [span_word] in *. rewrite Hc in *.
    destruct (span_word r) as [w rest]. cbn [fst] in Hw.
    exists (rev (c :: w)). split; [|split].
    + intros Hnil. apply (f_equal (@length ascii)) in Hnil.
      rewrite length_rev in Hnil. done.
    + by apply List.Forall_rev.
    + destruct (lstrip rest); [by left | right; by eexists].
Qed.

Lemma condition_not_blank line :
  is_condition line = true -> ~ Forall (fun c => is_space c = true) line.
Proof.
  intros H Hall. unfold is_condition in H.
  rewrite (contains_all_space (py "<")), (contains_all_space (py ">")) in H;
    by repeat constructor.
Qed.

(** *** When a line translates *)

Lemma condition_line_result n front line :
  is_condition line = true ->
  (exists head val x out,
      rsplit1 line = [head; val]
      /\ PyFloat.float_of_str val = Some x
      /\ condition_line n front line = Ok out)
  \/ (exists w,
         rsplit1 line = [w]
         /\ condition_line n front line = Raise (UnpackError 1))
  \/ (exists head val,
         rsplit1 line = [head; val]
         /\ val <> [] /\ Forall (fun c => is_space c = false) val
         /\ PyFloat.float_of_str val = None
         /\ condition_line n front line = Raise (FloatError val)).
Proof.
  intros Hc. unfold condition_line.
  destruct (rsplit1_cases line) as [[_ Hall]|(w & Hw1 & Hw2 & [E|[h E]])].
  - by apply condition_not_blank in Hc.
  - right; left. exists w. by rewrite E.
  - rewrite E. destruct (PyFloat.float_of_str w) as [x|] eqn:Ex.
    + left. by eexists h, w, x, _.
    + right; right. by exists h, w.
Qed.

Lemma emit_unfold tree_id skip a :
  emit tree_id skip a
  = let! line1 :=
      (if is_condition (a_line a)
       then condition_line (a_n_spaces a) (a_front_add a) (a_line a)
       else Ok (a_line a)) in
    Ok (skip
        ++ (a_add_end_front a
            ++ (if is_leaf line1 then class_line tree_id line1 else line1))
        ++ [nl]).
Proof.
  unfold emit, translate_line, is_condition, is_leaf.
  destruct (contains (py "<") (a_line a) || contains (py ">") (a_line a));
    [by destruct (condition_line _ _ _) | done].
Qed.

Lemma emit_ok_iff tree_id skip a :
  (exists chunk, emit tree_id skip a = Ok chunk)
  <-> (is_condition (a_line a) = true ->
       exists head val x,
         rsplit1 (a_line a) = [head; val]
         /\ PyFloat.float_of_str val = Some x).
Proof.
  rewrite emit_unfold. destruct (is_condition (a_line a)) eqn:Hc.
  - destruct (condition_line_result (a_n_spaces a) (a_front_add a) _ Hc)
      as [(h & v & x & out & E1 & E2 & E3)
         |[(w & E1 & E3)|(h & v & E1 & _ & _ & E2 & E3)]];
      rewrite E3; cbn [bind].
    + split; [by eauto 6 | by eauto].
    + split; [by intros [? ?]|]. intros H.
      destruct (H eq_refl) as (? & ? & ? & E & _). by rewrite E1 in E.
    + split; [by intros [? ?]|]. intros H.
      destruct (H eq_refl) as (? & ? & ? & E & E'). rewrite E1 in E.
      injection E as <- <-. by rewrite E2 in E'.
  - cbn [bind]. split; [done | by eauto].
Qed.

Lemma emit_raise tree_id skip a e :
  emit tree_id skip a = Raise e ->
  is_condition (a_line a) = true
  /\ condition_line (a_n_spaces a) (a_front_add a) (a_line a) = Raise e.
Proof.
  rewrite emit_unfold. destruct (is_condition (a_line a)); [|done].
  destruct (condition_line _ _ _); cbn [bind]; [done|].
  by intros [= ->].
Qed.

Lemma emit_all_ok_iff tree_id skip tr :
  (exists chunks, emit_all tree_id skip tr = Ok chunks)
  <-> Forall (fun a => exists chunk, emit tree_id skip a = Ok chunk) tr.
Proof.
  induction tr as [|a tr IH]; cbn [emit_all].
  - split; [done | by eauto].
  - rewrite Forall_cons, <- IH.
    destruct (emit tree_id skip a) as [c|e]; cbn [bind].
    + destruct (emit_all tree_id skip tr) as [cs|e]; cbn [bind].
      * split; [by eauto | by eauto].
      * split; [by intros [? ?] | by intros [_ [? ?]]].
    + split; [by intros [? ?] | by intros [[? ?] _]].
Qed.

(** An exception of the loop is the exception of the first line that
    raises. *)
Lemma emit_all_raise tree_id skip tr e :
  emit_all tree_id skip tr = Raise e ->
  exists i a,
    tr !! i = Some a
    /\ emit tree_id skip a = Raise e
    /\ forall j a', j < i -> tr !! j = Some a' ->
                    exists chunk, emit tree_id skip a' = Ok chunk.
Proof.
  induction tr as [|a tr IH]; cbn [emit_all]; [done|].
  destruct (emit tree_id skip a) as [c|e'] eqn:E; cbn [bind].
  - destruct (emit_all tree_id skip tr) as [cs|e'']; cbn [bind]; [done|].
    intros [= ->]. destruct (IH eq_refl) as (i & a' & Hi & He & Hbefore).
    exists (S i), a'. split; [done|]. split; [done|].
    intros [|j] b Hj Hb.
    + injection Hb as <-. by eauto.
    + apply (Hbefore j); [lia|done].
  - intros [= ->]. exists 0, a. split; [done|]. split; [done|]. lia.
Qed.

(** The whole translation, by the chunks of its lines. *)
Lemma translate_unfold {Tree} (tree : Tree) tree_id sas_table features text
    spacing :
  translate_text_to_sas tree tree_id sas_table features text spacing
  = let! chunks :=
      emit_all tree_id (times (py " ") spacing)
        (trace ∅ [] (split nl text)) in
    Ok (removelast (header tree_id sas_table ++ concat chunks)
        ++ py "RUN;").
Proof.
  unfold translate_text_to_sas, run. rewrite loop_trace.
  cbn [init_state dict_space_count current_elseif_count sas_rules].
  by destruct (emit_all _ _ _).
Qed.

Lemma lookup_map {A B} (f : A -> B) l i :
  map f l !! i = f <$> (l !! i).
Proof.
  revert i. induction l as [|x l IH]; intros [|i]; cbn; auto.
Qed.

Lemma glyph_test c :
  glyph c = if eqc c "|" || eqc c "-" then " "%char else c.
Proof.
  unfold glyph. destruct (eqc "|" c) eqn:E1.
  - apply eqc_eq in E1 as <-. done.
  - destruct (eqc "-" c) eqn:E2.
    + apply eqc_eq in E2 as <-. done.
    + rewrite (eqc_neq c "|"), (eqc_neq c "-"); [done|..];
        intros ->; done.
Qed.

Lemma trace_Forall (P : str -> Prop) lines : forall d st,
  Forall (fun a => P (a_line a)) (trace d st lines)
  <-> Forall (fun raw => P (normalize raw)) lines.
Proof.
  induction lines as [|raw lines IH]; intros d st.
  - done.
  - rewrite trace_cons, !Forall_cons, IH, a_line_analyse. done.
Qed.

Lemma trace_lookup_line lines : forall d st i raw,
  lines !! i = Some raw ->
  exists a, trace d st lines !! i = Some a /\ a_line a = normalize raw.
Proof.
  induction lines as [|x lines IH]; intros d st i raw H; [done|].
  rewrite trace_cons. destruct i as [|i].
  - injection H as ->. eexists. split; [done|]. apply a_line_analyse.
  - by apply IH.
Qed.

(** *** The indent *)

Lemma emit_skip tree_id skip a :
  emit tree_id skip a
  = let! body := emit tree_id [] a in Ok (skip ++ body).
Proof.
  rewrite !emit_unfold.
  by destruct (if is_condition (a_line a) then _ else _).
Qed.

Lemma emit_all_skip tree_id skip tr :
  emit_all tree_id skip tr
  = let! bodies := emit_all tree_id [] tr in
    Ok (map (fun body => skip ++ body) bodies).
Proof.
  induction tr as [|a tr IH]; cbn [emit_all]; [done|].
  rewrite IH, emit_skip.
  destruct (emit tree_id [] a) as [b|e]; cbn [bind]; [|done].
  by destruct (emit_all tree_id [] tr).
Qed.

Lemma rsplit1_last_sub s h v c : rsplit1 s = [h; v] -> c ∈ v -> c ∈ s.
Proof.
  intros H Hc. apply rsplit1_inv in H as (ws & x & tw & -> & _).
  rewrite !elem_of_app, elem_of_cons, elem_of_app. auto.
Qed.

Lemma normalize_no_dash raw : "-"%char ∉ normalize raw.
Proof.
  rewrite normalize_map. intros Hin.
  pose proof (map_glyph_no_connectors (rstrip raw)) as H.
  rewrite Forall_forall in H. by apply H in Hin as [_ ?].
Qed.

(** The criterion for a text to translate. *)
Lemma translate_ok_iff {Tree : Type} (tree : Tree) (tree_id : Z)
    (sas_table : str) (features : list str) (text : str) (spacing : Z) :
  (exists out,
      translate_text_to_sas tree tree_id sas_table features text spacing
      = Ok out)
  <-> Forall
        (fun raw =>
           is_condition (normalize raw) = true ->
           exists head val x,
             rsplit1 (normalize raw) = [head; val]
             /\ PyFloat.float_of_str val = Some x)
        (split nl text).
Proof.
  rewrite translate_unfold.
  rewrite <- (trace_Forall
                (fun line =>
                   is_condition line = true ->
                   exists head val x,
                     rsplit1 line = [head; val]
                     /\ PyFloat.float_of_str val = Some x)
                (split nl text) ∅ []).
  assert (E : Forall
                (fun a =>
                   is_condition (a_line a) = true ->
                   exists head val x,
                     rsplit1 (a_line a) = [head; val]
                     /\ PyFloat.float_of_str val = Some x)
                (trace ∅ [] (split nl text))
              <-> Forall
                    (fun a => exists chunk,
                         emit tree_id (times (py " ") spacing) a = Ok chunk)
                    (trace ∅ [] (split nl text))).
  { apply Forall_iff. intros a. symmetry. apply emit_ok_iff. }
  rewrite E, <- emit_all_ok_iff.
  destruct (emit_all _ _ _) as [chunks|e]; cbn [bind].
  - split; by eauto.
  - split; by intros [? ?].
Qed.

(** *** Rendered trees with plain thresholds *)

Lemma plain_number_spec thr :
  Thresholds.plain_number thr = true ->
  Forall (fun c => is_space c = false /\ c <> "|"%char /\ c <> "-"%char) thr
  /\ (exists thr' last, thr = thr' ++ [last])
  /\ exists x, PyFloat.float_of_str thr = Some x.
Proof.
  unfold Thresholds.plain_number. intros H.
  apply andb_true_iff in H as [H1 H2].
  destruct (PyFloat.float_of_str thr) as [x|] eqn:Ex; [|done].
  split; [|split; [|by eauto]].
  - rewrite forallb_forall in H1. apply Forall_forall. intros c Hc.
    apply list_elem_of_In, H1 in Hc.
    apply andb_true_iff in Hc as [Hc H3].
    apply andb_true_iff in Hc as [H4 H5].
    apply negb_true_iff in H3, H4, H5.
    split; [done|]. split; intros ->; done.
  - destruct thr as [|c thr] using rev_ind; [done|]. by eauto.
Qed.

Lemma map_glyph_plain thr :
  Forall (fun c => is_space c = false /\ c <> "|"%char /\ c <> "-"%char) thr
  -> map glyph thr = thr.
Proof.
  induction 1 as [|c thr (_ & H1 & H2) _ IH]; [done|].
  cbn [map]. by rewrite IH, glyph_keeps.
Qed.

(** The normalised line of a split whose threshold is a plain number,
    for either operator. *)
Lemma normalize_plain_split s k name op thr :
  s <> 0 -> k <> 0 -> map glyph op = op ->
  Thresholds.plain_number thr = true ->
  normalize (indent s k ++ py " " ++ name ++ op ++ thr)
  = spaces (column s k) ++ map glyph name ++ op ++ thr.
Proof.
  intros Hs Hk Hop Hthr.
  destruct (plain_number_spec thr Hthr) as (Hall & (thr' & last & E) & _).
  assert (Hlast : is_space last = false).
  { rewrite E in Hall. apply Forall_app in Hall as [_ Hall].
    by inversion Hall as [|? ? (? & _)]. }
  rewrite (normalize_split_line s k (name ++ op ++ thr) last Hs Hk);
    [|rewrite E, !elem_of_app; right; right; right; by left|done].
  rewrite normalize_map. f_equal.
  replace (rstrip (name ++ op ++ thr)) with (name ++ op ++ thr).
  - by rewrite !map_app, Hop, (map_glyph_plain thr).
  - rewrite E, !app_assoc. symmetry. by apply rstrip_ends_nonspace.
Qed.

Lemma plain_split_reads s k name thr :
  s <> 0 -> k <> 0 -> Thresholds.plain_number thr = true ->
  (exists head x,
      rsplit1 (normalize (indent s k ++ py " " ++ name ++ py " <= " ++ thr))
      = [head; thr] /\ PyFloat.float_of_str thr = Some x)
  /\ (exists head x,
         rsplit1 (normalize (indent s k ++ py " " ++ name ++ py " >  " ++ thr))
         = [head; thr] /\ PyFloat.float_of_str thr = Some x).
Proof.
  intros Hs Hk Hthr.
  destruct (plain_number_spec thr Hthr) as (Hall & (thr' & last & E) & x & Hx).
  assert (Hne : thr <> []) by (rewrite E; by destruct thr').
  assert (Hword : Forall (fun c => is_space c = false) thr).
  { eapply Forall_impl; [exact Hall|]. by intros c (? & _). }
  split.
  - rewrite normalize_plain_split by done.
    exists ((spaces (column s k) ++ map glyph name ++ py " <") ++ ["="%char]), x.
    split; [|done].
    rewrite <- (rsplit1_two (spaces (column s k) ++ map glyph name ++ py " <")
                  "="%char [" "%char] thr); [|done..|by repeat constructor|done|done].
    f_equal. by rewrite <- !app_assoc.
  - rewrite normalize_plain_split by done.
    exists ((spaces (column s k) ++ map glyph name ++ py " ") ++ [">"%char]), x.
    split; [|done].
    rewrite <- (rsplit1_two (spaces (column s k) ++ map glyph name ++ py " ")
                  ">"%char (py "  ") thr); [|done..|by repeat constructor|done|done].
    f_equal. by rewrite <- !app_assoc.
Qed.

Lemma render_lines_read s t :
  s <> 0 -> wf_tree t = true -> Thresholds.plain_thresholds t = true ->
  forall k, k <> 0 ->
    Forall
      (fun raw =>
         is_condition (normalize raw) = true ->
         exists head val x,
           rsplit1 (normalize raw) = [head; val]
           /\ PyFloat.float_of_str val = Some x)
      (render_lines s k t).
Proof.
  intros Hs. induction t as [value|name thr l IHl r IHr];
    intros Hwf Hp k Hk; cbn [render_lines].
  - constructor; [|done]. intros Hc.
    cbn [wf_tree] in Hwf. apply andb_true_iff in Hwf as [_ Hv].
    apply negb_true_iff in Hv.
    destruct (leaf_line_facts s k value Hs Hk Hv) as (_ & _ & Hn).
    cbn zeta in Hn. congruence.
  - cbn [wf_tree] in Hwf. cbn [Thresholds.plain_thresholds] in Hp.
    apply andb_true_iff in Hwf as [Hwf Hwr].
    apply andb_true_iff in Hwf as [_ Hwl].
    apply andb_true_iff in Hp as [Hp Hpr].
    apply andb_true_iff in Hp as [Hthr Hpl].
    destruct (plain_split_reads s k name thr Hs Hk Hthr)
      as [(h1 & x1 & A1 & B1) (h2 & x2 & A2 & B2)].
    constructor; [by eauto|].
    apply Forall_app. split; [by apply IHl|].
    constructor; [by eauto|]. by apply IHr.
Qed.

(** The text of such a tree translates, and the translation starts with
    the header. *)
Lemma rendered_text_ok {Tree : Type} (tree : Tree) (tree_id : Z)
    (sas_table : str) (features : list str) (s : nat) (t : Model.tree)
    (spacing : Z) :
  s <> 0 -> wf_tree t = true -> Thresholds.plain_thresholds t = true ->
  exists out,
    translate_text_to_sas tree tree_id sas_table features (render s t)
      spacing
    = Ok out
    /\ startswith (header tree_id sas_table) out = true.
Proof.
  intros Hs Hwf Hp.
  assert (H : exists out,
             translate_text_to_sas tree tree_id sas_table features
               (render s t) spacing = Ok out).
  { apply translate_ok_iff.
    rewrite split_render by done. apply Forall_app. split.
    - by apply render_lines_read.
    - by repeat constructor. }
  destruct H as [out H]. exists out. split; [done|].
  apply translate_chunks in H as (chunks & _ & ->).
  apply startswith_app.
Qed.

End CoverageFacts.
(* ===================================================================== *)
(** * More facts on the thresholds                                        *)
(* ===================================================================== *)

Module ThresholdFacts.
Import PyStr PyStrFacts PyFloat PyFloatFacts PyFloatSpec PyFloatDigits.
Import PyFloatRoundTrip.

(** *** The sign *)

Lemma drop_underscores_sub s : forall prev t c,
  drop_underscores prev s = Some t -> c ∈ t -> c ∈ s.
Proof.
  induction s as [|x s IH]; intros prev t c H Hc; cbn [drop_underscores] in H.
  - destruct (eqc prev "_"); [done|]. injection H as <-. done.
  - destruct (eqc x "_").
    + destruct (is_digit prev); [|done]. right. by eapply IH.
    + destruct (eqc prev "_" && negb (is_digit x)); [done|].
      destruct (drop_underscores x s) as [t'|] eqn:E; [|done].
      injection H as <-. apply elem_of_cons in Hc as [->|Hc]; [by left|].
      right. by eapply IH.
Qed.

Lemma lstrip_sub c s : c ∈ lstrip s -> c ∈ s.
Proof.
  intros H. destruct (lstrip_split s) as (ws & E & _).
  rewrite E, elem_of_app. by right.
Qed.

Lemma parse_sign_minus t : fst (parse_sign t) = true -> "-"%char ∈ t.
Proof.
  destruct t as [|c t]; [done|]. cbn [parse_sign].
  destruct (eqc c "-") eqn:E.
  - apply eqc_eq in E as ->. by left.
  - by destruct (eqc c "+").
Qed.

Lemma round_binary64_sign s a b :
  match round_binary64 s a b with
  | S754_zero s' | S754_infinity s' | S754_finite s' _ _ => s' = s
  | S754_nan => True
  end.
Proof.
  unfold round_binary64. destruct (scale2 a b _) as [n d].
  destruct (round_half_even n d =? 2 ^ 53)%Z.
  - destruct (2 ^ 52 =? 0)%Z; [done|]. by destruct (971 <? _)%Z.
  - destruct (round_half_even n d =? 0)%Z; [done|].
    by destruct (971 <? _)%Z.
Qed.

Lemma float_of_decimal_sign s m e :
  match float_of_decimal s m e with
  | S754_zero s' | S754_infinity s' | S754_finite s' _ _ => s' = s
  | S754_nan => True
  end.
Proof.
  unfold float_of_decimal. destruct (m =? 0)%Z; [done|].
  destruct (scale10 m 1 (- e)) as [a b]. apply round_binary64_sign.
Qed.

(** A text without dash is read as a float without minus sign. *)
Lemma float_of_str_unsigned val x :
  "-"%char ∉ val -> float_of_str val = Some x ->
  match x with
  | S754_zero s | S754_infinity s | S754_finite s _ _ => s = false
  | S754_nan => True
  end.
Proof.
  intros Hval. unfold float_of_str.
  destruct (drop_underscores "000" (rstrip (lstrip val))) as [t|] eqn:Eu;
    [|done].
  assert (Ht : "-"%char ∉ t).
  { intros Hin. apply Hval.
    by apply lstrip_sub, rstrip_sub, (drop_underscores_sub _ _ _ _ Eu). }
  pose proof (parse_sign_minus t) as Hs.
  destruct (parse_sign t) as [neg body]. cbn [fst] in Hs.
  assert (Hneg : neg = false).
  { destruct neg; [|done]. by destruct Ht; apply Hs. }
  subst neg.
  destruct (eq_str (map lower body) (py "inf")
            || eq_str (map lower body) (py "infinity")).
  { by intros [= <-]. }
  destruct (eq_str (map lower body) (py "nan")).
  { by intros [= <-]. }
  destruct (parse_decimal body) as [[m e]|]; [|done].
  intros [= <-]. apply float_of_decimal_sign.
Qed.

(** The text of a float without minus sign does not start with a
    dash. *)
Lemma format_g_unsigned x :
  match x with
  | S754_zero s | S754_infinity s | S754_finite s _ _ => s = false
  | S754_nan => True
  end ->
  startswith (py "-") (format_g x) = false.
Proof.
  destruct x as [s|s| |s m e]; try (by intros ->); [done|].
  intros ->.
  destruct (format_g_spec false m e) as (n & X & -> & Hn & _).
  destruct (repr_g_head n X Hn) as (c & r & -> & Hc).
  destruct (digit_facts c Hc) as (_ & _ & Hm & _).
  change (startswith (py "-") (sign_part false ++ c :: r))
    with (eqc "-" c && true).
  rewrite eqc_neq; [done|]. by intros <-.
Qed.

(** *** The text of an integer *)

Lemma str_of_int_chars z :
  Forall (fun c => is_digit c = true \/ c = "-"%char) (str_of_int z).
Proof.
  unfold str_of_int.
  assert (U : forall d,
             Forall (fun c => is_digit c = true \/ c = "-"%char)
               (list_ascii_of_string (NilZero.string_of_uint d))).
  { intros d. eapply Forall_impl with (P := fun c => is_digit c = true).
    - unfold NilZero.string_of_uint. destruct d;
        first [ by repeat constructor | apply uint_chars_digits ].
    - by left. }
  destruct (Z.to_int z) as [d|d]; cbn [NilZero.string_of_int].
  - apply U.
  - cbn [list_ascii_of_string]. constructor; [by right | apply U].
Qed.

Lemma str_of_int_no (c : ascii) z :
  is_digit c = false -> c <> "-"%char -> c ∉ str_of_int z.
Proof.
  intros Hd Hm Hin. pose proof (str_of_int_chars z) as H.
  rewrite Forall_forall in H. apply H in Hin as [?|?]; congruence.
Qed.

(** Two texts cut at the first occurrence of a character. *)
Lemma app_sep_inj {A} (sep : A) x x' r r' :
  sep ∉ x -> sep ∉ x' -> x ++ sep :: r = x' ++ sep :: r' ->
  x = x' /\ r = r'.
Proof.
  revert x'. induction x as [|a x IH]; intros [|a' x'] Hx Hx' E;
    cbn [app] in E.
  - by injection E.
  - injection E as <- _. destruct Hx'. by left.
  - injection E as -> _. destruct Hx. by left.
  - injection E as <- E. apply IH in E as [-> ->]; [done|..].
    + intros ?. apply Hx. by right.
    + intros ?. apply Hx'. by right.
Qed.

(** *** Six significant digits *)

Local Open Scope Q_scope.

(** The decimal number that the format writes for a finite float is
    within five millionths of itself of the float. *)
Lemma format_g_precision s m e :
  exists body m' e',
    format_g (S754_finite s m e) = sign_part s ++ body
    /\ parse_decimal body = Some (m', e')
    /\ Qabs (inject_Z (Z.pos m) * 2 ^ e - inject_Z m' * 10 ^ e')
       <= (1 # 200000) * (inject_Z m' * 10 ^ e').
Proof.
  destruct (format_g_spec s m e) as (n & X & Ef & Hn & Herr).
  destruct (parse_decimal_repr n X Hn) as (m' & j & Hj & Hnm & Hp).
  exists (repr_g n X), m', (X - 5 + j)%Z. split; [done|]. split; [done|].
  assert (HP : 0 < 10 ^ (X - 5)) by (by apply pow_pos).
  assert (Et : inject_Z m' * 10 ^ (X - 5 + j)
               == inject_Z n * 10 ^ (X - 5)).
  { rewrite Hnm, inject_Z_mult, inject_pow by done.
    change (inject_Z 10) with 10. rewrite Qpower_plus by lra. ring. }
  rewrite Et.
  pose proof (six_digits_bounds n _ Hn HP) as [T1 _].
  apply Qabs_Qle_condition. lra.
Qed.

Local Close Scope Q_scope.

End ThresholdFacts.
(* ===================================================================== *)
(** * Facts on the example script                                         *)
(* ===================================================================== *)

Module ScriptFacts.
Import PyStr PyStrFacts TreeToSas TreeToSasFacts ExampleSasRules.

Lemma tree_name_inj i j : tree_name i = tree_name j -> i = j.
Proof.
  unfold tree_name. intros H. apply app_inv_head in H.
  apply str_of_int_inj in H. lia.
Qed.

Section WithForest.
Context {Tree World : Type}.
Variable export_text :
  Tree -> list str -> Z -> Z -> Z -> World -> (str + str) * World.

(** With the default spacing the guard of [get_rules] does not raise,
    and the rules start with the header of the tree. *)
Lemma get_rules_default tree tree_id features sas_table w r w' :
  get_rules export_text tree tree_id features sas_table 100 2 w = (r, w') ->
  match r with
  | Ok rules => startswith (header tree_id sas_table) rules = true
  | Raise e => e <> SpacingError
  end.
Proof.
  unfold get_rules. change (2 <? 2)%Z with false. cbv iota.
  destruct (export_text _ _ _ _ _ _) as [[msg|rules] w1].
  - by intros [= <- _].
  - intros [= <- _].
    destruct (translate_text_to_sas _ _ _ _ _ _) as [out|e] eqn:E.
    + apply translate_chunks in E as (chunks & _ & ->).
      apply startswith_app.
    + by eapply translate_error.
Qed.

Lemma iteration_result rf features i tree d w r w' :
  is_Some (rf !! i) ->
  iteration export_text rf features i tree d w = (r, w') ->
  match r with
  | Done d' =>
      exists rules,
        d' = <[tree_name i := rules]> d
        /\ startswith (header (Z.of_nat i) (py "DATASET")) rules = true
  | Fail e => exists e', e = RulesError e' /\ e' <> SpacingError
  end.
Proof.
  intros [t Ht]. unfold iteration. rewrite Ht.
  destruct (get_rules _ _ _ _ _ _ _ _) as [r1 w1] eqn:E.
  apply get_rules_default in E.
  destruct r1 as [rules|e]; intros [= <- _]; by eauto.
Qed.

(** The loop from index [i] on: it stores one entry per tree that is
    left, under the name of the tree, and keeps all other entries. *)
Lemma iterate_done rf features rest : forall i d w d' w',
  (forall j, j < length rest -> is_Some (rf !! (i + j))) ->
  iterate export_text rf features i rest d w = (Done d', w') ->
  (forall j, j < length rest ->
     exists rules,
       d' !! tree_name (i + j) = Some rules
       /\ startswith (header (Z.of_nat (i + j)) (py "DATASET")) rules = true)
  /\ (forall k, (forall j, j < length rest -> k <> tree_name (i + j)) ->
        d' !! k = d !! k).
Proof.
  induction rest as [|tree rest IH]; intros i d w d' w' Hrf H;
    cbn [iterate] in H.
  - injection H as <- _. split; [intros j Hj; cbn in Hj; lia | done].
  - destruct (iteration _ _ _ _ _ _ _) as [r w1] eqn:E.
    apply iteration_result in E;
      [|by rewrite <- (Nat.add_0_r i); apply Hrf; cbn; lia].
    destruct r as [d1|e]; [|done].
    destruct E as (rules & -> & Hhead).
    apply IH in H as [H1 H2].
    + split.
      * intros [|j] Hj.
        -- rewrite Nat.add_0_r. exists rules. split; [|done].
           rewrite H2, lookup_insert_eq; [done|].
           intros j _ Hk. apply tree_name_inj in Hk. lia.
        -- replace (i + S j) with (S i + j) by lia.
           apply H1. cbn in Hj. lia.
      * intros k Hk. rewrite H2.
        -- apply lookup_insert_ne. intros <-.
           apply (Hk 0); [cbn; lia | by rewrite Nat.add_0_r].
        -- intros j Hj. replace (S i + j) with (i + S j) by lia.
           apply Hk. cbn. lia.
    + intros j Hj. replace (S i + j) with (i + S j) by lia.
      apply Hrf. cbn. lia.
Qed.

Lemma iterate_dom rf features rest : forall i d w d' w' k,
  (forall j, j < length rest -> is_Some (rf !! (i + j))) ->
  iterate export_text rf features i rest d w = (Done d', w') ->
  is_Some (d' !! k) ->
  is_Some (d !! k) \/ exists j, j < length rest /\ k = tree_name (i + j).
Proof.
  induction rest as [|tree rest IH]; intros i d w d' w' k Hrf H Hk;
    cbn [iterate] in H.
  - injection H as <- _. by left.
  - destruct (iteration _ _ _ _ _ _ _) as [r w1] eqn:E.
    apply iteration_result in E;
      [|by rewrite <- (Nat.add_0_r i); apply Hrf; cbn; lia].
    destruct r as [d1|e]; [|done].
    destruct E as (rules & -> & _).
    eapply IH in H; [| |exact Hk].
    + destruct H as [H|(j & Hj & ->)].
      * destruct (decide (k = tree_name i)) as [->|Hne].
        -- right. exists 0. split; [cbn; lia | by rewrite Nat.add_0_r].
        -- left. by rewrite lookup_insert_ne in H.
      * right. exists (S j). split; [cbn; lia|].
        f_equal. lia.
    + intros j Hj. replace (S i + j) with (i + S j) by lia.
      apply Hrf. cbn. lia.
Qed.

Lemma iterate_fail rf features rest : forall i d w e w',
  (forall j, j < length rest -> is_Some (rf !! (i + j))) ->
  iterate export_text rf features i rest d w = (Fail e, w') ->
  exists e', e = RulesError e' /\ e' <> SpacingError.
Proof.
  induction rest as [|tree rest IH]; intros i d w e w' Hrf H;
    cbn [iterate] in H; [done|].
  destruct (iteration _ _ _ _ _ _ _) as [r w1] eqn:E.
  apply iteration_result in E;
    [|by rewrite <- (Nat.add_0_r i); apply Hrf; cbn; lia].
  destruct r as [d1|e1].
  - apply IH in H; [done|].
    intros j Hj. replace (S i + j) with (i + S j) by lia.
    apply Hrf. cbn. lia.
  - by injection H as <- _.
Qed.

End WithForest.

End ScriptFacts.
(* ===================================================================== *)
(** * Properties of the translator                                        *)
(* ===================================================================== *)

Module Properties.
Import PyStr PyStrFacts TreeToSas Model TreeToSasFacts Balance.

(** C1. For a counted line (one without the prediction marker) the count
    at its depth after its own update is the number of counted lines of
    that depth read so far, and the role prefix depends on the parity of
    that count only: ['IF '] when odd, ['END;'] on its own line followed
    by ['ELSE IF '] after [n_spaces + 2] blanks when even.  So the
    prefixes given to the successive counted lines of one depth alternate,
    starting with ['IF ']. *)
Theorem C1_role_prefix_parity (lines : list str) (i : nat) (a : analysis)
    (n j : nat) (f : str) :
  trace ∅ [] lines !! i = Some a ->
  is_leaf (a_line a) = false ->
  roles_at n (trace ∅ [] lines) !! j = Some f ->
  let k := Z.of_nat (occurrences (a_n_spaces a) (take (S i) lines)) in
  getitem (a_dict a) (key (a_n_spaces a)) = k
  /\ a_front_add a
     = (if Z.odd k then py "IF "
        else END_nl ++ spaces (a_n_spaces a + 2) ++ py "ELSE IF ")
  /\ f = (if Nat.even j then py "IF "
          else END_nl ++ spaces (n + 2) ++ py "ELSE IF ").
Proof.
  intros Ha Hleaf Hf k.
  pose proof (trace_count _ _ _ _ _ Ha) as Hk.
  rewrite getitem_empty in Hk. simpl in Hk. fold k in Hk.
  split; [done|]. split.
  - rewrite (trace_front_add _ _ _ _ _ Ha), Hk.
    apply get_front_add_parity.
  - apply roles_at_trace in Hf. rewrite getitem_empty in Hf. subst f.
    rewrite get_front_add_parity, odd_succ_of_nat. done.
Qed.

Lemma C1_role_prefix_parity_witness :
  let lines := split nl Samples.nested_text in
  let a := Samples.analysis_at Samples.nested_text 2 in
  let f := END_nl ++ spaces 5 ++ py "ELSE IF " in
  trace ∅ [] lines !! 2%nat = Some a
  /\ is_leaf (a_line a) = false
  /\ roles_at 3 (trace ∅ [] lines) !! 1%nat = Some f
  /\ getitem (a_dict a) (key 3) = 2%Z
  /\ a_front_add a = f.
Proof.
  assert (H1 : trace ∅ [] (split nl Samples.nested_text) !! 2%nat
               = Some (Samples.analysis_at Samples.nested_text 2))
    by (vm_compute; reflexivity).
  assert (H2 : is_leaf (a_line (Samples.analysis_at Samples.nested_text 2))
               = false) by (vm_compute; reflexivity).
  assert (H3 : roles_at 3 (trace ∅ [] (split nl Samples.nested_text)) !! 1%nat
               = Some (END_nl ++ spaces 5 ++ py "ELSE IF "))
    by (vm_compute; reflexivity).
  pose proof (C1_role_prefix_parity _ _ _ _ _ _ H1 H2 H3) as (A & B & _).
  exact (conj H1 (conj H2 (conj H3 (conj A B)))).
Defined.






(** C4. With [spacing < 2], [get_rules] raises the [ValueError] of its
    guard without calling the renderer (whose state is untouched) and
    without output; with [spacing >= 2] the guard does not raise: the
    renderer is called with [decimals = 6] and [spacing - 1], its text is
    translated, and no later step raises the error of the guard. *)
Theorem C4_spacing_guard {Tree World : Type}
    (export_text :
       Tree -> list str -> Z -> Z -> Z -> World -> (str + str) * World)
    (tree : Tree) (tree_id : Z) (features : list str) (sas_table : str)
    (max_depth spacing : Z) (w : World) :
  ((spacing < 2)%Z ->
   get_rules export_text tree tree_id features sas_table max_depth spacing w
   = (Raise SpacingError, w))
  /\ ((2 <= spacing)%Z ->
      get_rules export_text tree tree_id features sas_table max_depth
        spacing w
      = (let '(rules, w') :=
           export_text tree features max_depth 6%Z (spacing - 1)%Z w in
         (match rules with
          | inl msg => Raise (RendererError msg)
          | inr rules =>
              translate_text_to_sas tree tree_id sas_table features rules
                spacing
          end, w'))
      /\ fst (get_rules export_text tree tree_id features sas_table
                max_depth spacing w)
         <> Raise SpacingError).
Proof.
  unfold get_rules. split; intros H.
  - destruct (Z.ltb_spec spacing 2); [done | lia].
  - destruct (Z.ltb_spec spacing 2); [lia|]. split; [done|].
    destruct (export_text _ _ _ _ _ _) as [[msg|rules] w']; simpl; [done|].
    intros E. by apply translate_error in E.
Qed.

Lemma C4_spacing_guard_witness :
  get_rules (Samples.fixed_renderer Samples.nested_text) tt 0 [] (py "T")
    100 1 0%nat
  = (Raise SpacingError, 0%nat)
  /\ fst (get_rules (Samples.fixed_renderer Samples.nested_text) tt 0 []
            (py "T") 100 2 0%nat)
     <> Raise SpacingError.
Proof.
  split.
  - apply (C4_spacing_guard (Samples.fixed_renderer Samples.nested_text)
             tt 0 [] (py "T") 100 1 0%nat). lia.
  - apply (C4_spacing_guard (Samples.fixed_renderer Samples.nested_text)
             tt 0 [] (py "T") 100 2 0%nat). lia.
Defined.

(** C5. A successful call returns the header
    ['DATA DECISION_TREE_<tree_id+1>;'], ['SET <sas_table>;'], then one
    chunk per input line, then the trailer ['RUN;'].  Whenever the
    prediction branch runs on a line (the line, after the condition
    branch if it ran, contains the marker), every ['class:'] is replaced
    by ['PREDICTED_VALUE_<tree_id+1> ='] and a [';'] ends the line; for a
    line [<blanks>class:<value>] the chunk is the pending terminators and
    [<blanks>PREDICTED_VALUE_<tree_id+1> =<value>;]. *)
Theorem C5_header_leaves_trailer {Tree : Type} (tree : Tree) (tree_id : Z)
    (sas_table : str) (features : list str) (text : str) (spacing : Z)
    (out : str) :
  translate_text_to_sas tree tree_id sas_table features text spacing = Ok out
  ->
  let target := py "PREDICTED_VALUE_" ++ str_of_int (tree_id + 1) in
  exists chunks,
    out = (py "DATA DECISION_TREE_" ++ str_of_int (tree_id + 1) ++ py ";"
           ++ [nl])
          ++ (py "SET " ++ sas_table ++ py ";" ++ [nl])
          ++ removelast (concat chunks) ++ py "RUN;"
    /\ Forall2
         (fun raw chunk =>
            exists pending line1,
              (if is_condition (normalize raw)
               then exists n front,
                   condition_line n front (normalize raw) = Ok line1
               else line1 = normalize raw)
              /\ (is_leaf line1 = true ->
                  chunk = times (py " ") spacing ++ pending
                          ++ replace (py "class:") (target ++ py " =") line1
                          ++ py ";" ++ [nl])
              /\ (forall n value,
                    is_condition (normalize raw) = false ->
                    normalize raw = spaces n ++ py "class:" ++ value ->
                    contains (py "class:") value = false ->
                    chunk = times (py " ") spacing ++ pending
                            ++ spaces n ++ target ++ py " =" ++ value
                            ++ py ";" ++ [nl]))
         (split nl text) chunks.
Proof.
  intros H target. apply translate_chunks in H as (chunks & E & ->).
  exists chunks. split; [unfold header; by rewrite <- app_assoc|].
  revert E. apply emit_all_lines. clear chunks.
  intros d st raw chunk. unfold emit, translate_line.
  rewrite a_line_analyse. fold (is_condition (normalize raw)).
  set (pending := a_add_end_front (analyse d st raw)).
  assert (Hshape : forall line1,
    (if contains (py "class") line1 then class_line tree_id line1 else line1)
    = (if is_leaf line1
       then replace (py "class:") (target ++ py " =") line1 ++ py ";"
       else line1)).
  { intros line1. unfold class_line, predicted_value, target, is_leaf.
    by rewrite <- !app_assoc. }
  destruct (is_condition (normalize raw)) eqn:Hc.
  - destruct (condition_line _ _ _) as [line1|] eqn:E1; cbn [bind]; [|done].
    intros H. apply Ok_inj in H. subst chunk.
    exists pending, line1. split; [eauto|]. split; [|done].
    intros Hl. rewrite Hshape, Hl. by rewrite <- !app_assoc.
  - cbn [bind]. intros H. apply Ok_inj in H. subst chunk.
    exists pending, (normalize raw). split; [done|]. split.
    + intros Hl. rewrite Hshape, Hl. by rewrite <- !app_assoc.
    + intros n value _ Hn Hv. rewrite Hshape.
      assert (Hl : is_leaf (normalize raw) = true).
      { rewrite Hn. unfold is_leaf. apply contains_app_r.
        by apply (contains_app_l (py "class") (py "class:") value). }
      rewrite Hl, Hn.
      change (py "class:") with ("c"%char :: py "lass:").
      rewrite replace_marker_after_spaces by done.
      by rewrite <- !app_assoc.
Qed.

Lemma C5_header_leaves_trailer_witness :
  exists chunks,
    Samples.nested_output
    = (py "DATA DECISION_TREE_" ++ str_of_int (0 + 1) ++ py ";" ++ [nl])
      ++ (py "SET " ++ py "DATASET" ++ py ";" ++ [nl])
      ++ removelast (concat chunks) ++ py "RUN;"
    /\ length chunks = 8%nat.
Proof.
  assert (H : translate_text_to_sas tt 0 (py "DATASET") []
                Samples.nested_text 2 = Ok Samples.nested_output)
    by (vm_compute; reflexivity).
  destruct (C5_header_leaves_trailer tt 0 (py "DATASET") []
              Samples.nested_text 2 _ H) as (chunks & E & F).
  exists chunks. split; [exact E|].
  apply Forall2_length in F. rewrite <- F. reflexivity.
Defined.

(** C6 as stated fails: the second of two pending terminators starts at
    column 0, without the indent of [spacing] blanks. *)
Lemma C6_counterexample :
  translate_text_to_sas tt 0 (py "DATASET") [] Samples.nested_text 2
  = Ok Samples.nested_output
  /\ split nl Samples.nested_output !! 12%nat = Some (py "END;")
  /\ startswith (times (py " ") 2) (py "END;") = false.
Proof. vm_compute. repeat split; reflexivity. Qed.

(** C6, amended. The text written for one input line is one indent of
    [spacing] blanks, then one ['END;'] line per pending terminator, then
    the translated line and a newline: the indent comes once per input
    line, before the first line of its chunk; the lines that follow a
    line break inside the chunk get no indent of their own. *)
Theorem C6_indent_per_chunk {Tree : Type} (tree : Tree) (tree_id : Z)
    (sas_table : str) (features : list str) (text : str) (spacing : Z)
    (out : str) :
  translate_text_to_sas tree tree_id sas_table features text spacing = Ok out
  ->
  exists chunks,
    out = header tree_id sas_table ++ removelast (concat chunks) ++ py "RUN;"
    /\ Forall2
         (fun a chunk =>
            exists line2,
              translate_line tree_id a = Ok line2
              /\ chunk = times (py " ") spacing
                         ++ concat (repeat END_nl (a_pops a))
                         ++ line2 ++ [nl])
         (trace ∅ [] (split nl text)) chunks.
Proof.
  intros H. apply translate_chunks in H as (chunks & E & ->).
  exists chunks. split; [done|].
  pose proof (trace_add_end_front (split nl text) ∅ []) as Htr.
  revert chunks E.
  induction Htr as [|a tr Ha _ IH]; intros chunks; simpl.
  - intros H. apply Ok_inj in H. subst. constructor.
  - unfold emit at 1.
    destruct (translate_line tree_id a) as [line2|] eqn:E2; cbn [bind];
      [|done].
    destruct (emit_all _ _ tr) as [cs|] eqn:E'; cbn [bind]; [|done].
    intros H. apply Ok_inj in H. subst chunks. constructor; [|by apply IH].
    exists line2. split; [done|]. by rewrite Ha, <- app_assoc.
Qed.

Lemma C6_indent_per_chunk_witness :
  exists chunks,
    Samples.nested_output
    = header 0 (py "DATASET") ++ removelast (concat chunks) ++ py "RUN;"
    /\ length chunks = 8%nat.
Proof.
  assert (H : translate_text_to_sas tt 0 (py "DATASET") []
                Samples.nested_text 2 = Ok Samples.nested_output)
    by (vm_compute; reflexivity).
  destruct (C6_indent_per_chunk tt 0 (py "DATASET") []
              Samples.nested_text 2 _ H) as (chunks & E & F).
  exists chunks. split; [exact E|].
  apply Forall2_length in F. rewrite <- F. reflexivity.
Defined.

(** C7 as stated fails: a threshold of one million is emitted in
    scientific notation. *)
Lemma C7_counterexample :
  emit 0 (py "  ") (analyse ∅ [] (py "|--- x <= 1000000.000000"))
  = Ok (py "  " ++ py "     IF x <= 1e+06 THEN DO;" ++ [nl])
  /\ contains (py "e+06") (py "     IF x <= 1e+06 THEN DO;") = true.
Proof. vm_compute. split; reflexivity. Qed.

(** C7, amended. On every condition line that translates, the last word
    is parsed as a float [x] and emitted in the ['g'] format, followed by
    [' THEN DO;'].  The emitted number is in scientific notation (it
    holds an [e]) exactly when [x] is finite, not zero and its magnitude
    is below [0.00009999995] or at least [999999.5]; when [x] is a zero
    or its magnitude is in between, the number is made of digits, a
    point and a sign only. *)
Theorem C7_threshold_display (n_spaces : nat) (front line out : str) :
  condition_line n_spaces front line = Ok out ->
  exists head val x,
    rsplit1 line = [head; val]
    /\ PyFloat.float_of_str val = Some x
    /\ out = replace (spaces n_spaces) (spaces n_spaces ++ front) head
             ++ py " " ++ PyFloat.format_g x ++ py " THEN DO;"
    /\ (contains (py "e") (PyFloat.format_g x) = true
        <-> (0 < Qabs (PyFloat.value x) < (1999999 # 2) * 10 ^ (-10)
             \/ (1999999 # 2) <= Qabs (PyFloat.value x))%Q)
    /\ ((exists s, x = S754_zero s)
        \/ ((1999999 # 2) * 10 ^ (-10) <= Qabs (PyFloat.value x)
            < (1999999 # 2))%Q ->
        Forall (fun c => PyFloat.is_digit c = true
                         \/ c = "."%char \/ c = "-"%char)
          (PyFloat.format_g x)).
Proof.
  intros H.
  apply condition_line_inv in H as (head & val & x & Hs & Hx & ->).
  exists head, val, x. repeat split; try done.
  - apply PyFloatRoundTrip.format_g_scientific.
  - apply PyFloatRoundTrip.format_g_scientific.
  - apply PyFloatRoundTrip.format_g_fixed.
Qed.

Lemma C7_threshold_display_witness :
  exists head val x,
    rsplit1 (py "     x <= 2.500000") = [head; val]
    /\ PyFloat.float_of_str val = Some x
    /\ py "     IF x <= 2.5 THEN DO;"
       = replace (spaces 5) (spaces 5 ++ py "IF ") head
         ++ py " " ++ PyFloat.format_g x ++ py " THEN DO;"
    /\ (contains (py "e") (PyFloat.format_g x) = true
        <-> (0 < Qabs (PyFloat.value x) < (1999999 # 2) * 10 ^ (-10)
             \/ (1999999 # 2) <= Qabs (PyFloat.value x))%Q)
    /\ ((exists s, x = S754_zero s)
        \/ ((1999999 # 2) * 10 ^ (-10) <= Qabs (PyFloat.value x)
            < (1999999 # 2))%Q ->
        Forall (fun c => PyFloat.is_digit c = true
                         \/ c = "."%char \/ c = "-"%char)
          (PyFloat.format_g x)).
Proof.
  apply (C7_threshold_display 5 (py "IF ") (py "     x <= 2.500000")).
  vm_compute. reflexivity.
Defined.

(** C8 as stated fails: a dash of the feature name becomes a blank, and
    the role prefix is inserted at every run of [n_spaces] blanks. *)
Lemma C8_counterexample :
  normalize Samples.dash_feature_line = py "   a   b <= 1.000000"
  /\ emit 0 (py "  ") (analyse ∅ [] Samples.dash_feature_line)
     = Ok (py "  " ++ py "   IF a   IF b <= 1 THEN DO;" ++ [nl]).
Proof. vm_compute. split; reflexivity. Qed.

(** C8, amended. On a normalised condition line made of [n > 0] leading
    blanks, a feature/operator portion that does not start with a blank,
    does not end with whitespace and holds no run of [n] blanks,
    whitespace, and a number: the portion is kept as it is, the role
    prefix is inserted once, after the leading blanks, and the number is
    re-emitted in the ['g'] format before [' THEN DO;']. *)
Theorem C8_condition_line (n : nat) (front portion ws val : str)
    (first last : ascii) (x : PyFloat.float) :
  n <> 0%nat ->
  head portion = Some first -> first <> " "%char ->
  List.last portion " "%char = last -> is_space last = false ->
  contains (spaces n) portion = false ->
  ws <> [] -> Forall (fun c => is_space c = true) ws ->
  Forall (fun c => is_space c = false) val ->
  PyFloat.float_of_str val = Some x ->
  let line := spaces n ++ portion ++ ws ++ val in
  count_leading line = n
  /\ condition_line (count_leading line) front line
     = Ok (spaces n ++ front ++ portion ++ py " " ++ PyFloat.format_g x
           ++ py " THEN DO;").
Proof.
  intros Hn Hfirst Hf Hlast Hl Hruns Hws1 Hws2 Hval Hx line.
  assert (Hcl : count_leading line = n).
  { unfold line. destruct portion as [|c p]; [done|].
    injection Hfirst as ->. by apply count_leading_spaces. }
  split; [done|]. rewrite Hcl. unfold condition_line, line.
  assert (Hp : portion <> []) by (by destruct portion).
  destruct (exists_last Hp) as (h & l & ->).
  rewrite last_last in Hlast. subst l.
  assert (Hv : val <> []) by (intros ->; discriminate).
  replace (spaces n ++ (h ++ [last]) ++ ws ++ val)
    with (((spaces n ++ h) ++ [last]) ++ ws ++ val)
    by (by rewrite <- !app_assoc).
  rewrite rsplit1_two by done.
  rewrite Hx. rewrite <- (app_assoc (spaces n) h [last]).
  rewrite replace_leading_spaces by done.
  by rewrite <- !app_assoc.
Qed.

Lemma C8_condition_line_witness :
  condition_line 3 (py "IF ") (py "   sepal length (cm) <=  0.800000")
  = Ok (py "   IF sepal length (cm) <= 0.8 THEN DO;").
Proof.
  assert (Hx : PyFloat.float_of_str (py "0.800000")
               = Some (S754_finite false 7205759403792794 (-53)))
    by (vm_compute; reflexivity).
  refine (proj2 (C8_condition_line 3 (py "IF ") (py "sepal length (cm) <=")
            (py "  ") (py "0.800000") "s"%char "="%char _
            _ _ _ _ _ _ _ _ _ Hx)).
  - lia.
  - reflexivity.
  - discriminate.
  - reflexivity.
  - reflexivity.
  - reflexivity.
  - discriminate.
  - repeat constructor.
  - repeat constructor.
Defined.




(** C10 as stated fails in two ways: a line with the marker and an
    operator but no leading blank loses its marker in the condition
    branch (the role prefix is inserted between all its characters), so
    the prediction branch does not run; and when the last word of such a
    line is not a number the condition branch raises. *)
Lemma C10_counterexample :
  let a := analyse ∅ [] Samples.class_feature_flush in
  is_leaf (a_line a) = true
  /\ is_condition (a_line a) = true
  /\ translate_line 0 a
     = Ok (replace [] (END_nl ++ py "  ELSE IF ") (py "class_x <=")
           ++ py " 0.5 THEN DO;")
  /\ emit 0 (py "  ") (analyse ∅ [] Samples.operator_class_line)
     = Raise (FloatError (py "<=50K")).
Proof. vm_compute. repeat split; reflexivity. Qed.

(** C10, amended. A line that contains ['class'] is a leaf line for the
    counter (its count is taken back, nothing is pushed) also when it
    contains a comparison operator.  When such a line has at least one
    leading blank and its condition branch does not raise, both branches
    run: the condition branch appends [' THEN DO;'] and the prediction
    branch then replaces ['class:'] and appends [';'].  So for a split on
    a feature named [class_x] the count is taken back and the statement
    ends with [' THEN DO;;']. *)
Theorem C10_substring_classification :
  (forall (d : gmap str Z) (stack : list nat) (raw : str) (tree_id : Z)
          (skip : str),
      let a := analyse d stack raw in
      is_leaf (normalize raw) = true ->
      is_condition (normalize raw) = true ->
      (forall k, getitem (a_dict a) k = getitem d k)
      /\ (exists popped, stack = a_stack a ++ popped)
      /\ (a_n_spaces a <> 0%nat ->
          forall line1,
            condition_line (a_n_spaces a) (a_front_add a) (normalize raw)
            = Ok line1 ->
            (exists body, line1 = body ++ py " THEN DO;")
            /\ emit tree_id skip a
               = Ok (skip
                     ++ (a_add_end_front a
                         ++ replace (py "class:")
                              (py "PREDICTED_VALUE_"
                               ++ str_of_int (tree_id + 1) ++ py " =") line1
                         ++ py ";")
                     ++ [nl])))
  /\ (let a := analyse ∅ [] Samples.class_feature_line in
      is_leaf (a_line a) = true
      /\ is_condition (a_line a) = true
      /\ a_dict a !! key 3 = Some 0%Z
      /\ emit 0 (py "  ") a
         = Ok (py "  " ++ py "   " ++ END_nl
               ++ py "     ELSE IF class_x <= 0.5 THEN DO;;" ++ [nl])).
Proof.
  split; [|vm_compute; repeat split; reflexivity].
  intros d stack raw tree_id skip a Hleaf Hcond.
  assert (Hl : a_line a = normalize raw) by apply a_line_analyse.
  split; [|split].
  - intros k. unfold a. rewrite a_dict_analyse.
    destruct (decide (k = key (count_leading (normalize raw)))) as [->|Hk].
    + rewrite getitem_update_same. unfold is_leaf in Hleaf.
      rewrite Hleaf. lia.
    + by apply getitem_update_other.
  - destruct (popped_stack (count_leading (normalize raw)) stack)
      as (popped & E & _).
    exists popped. unfold a. rewrite a_stack_analyse. cbv zeta.
    by rewrite Hleaf, andb_false_r.
  - intros Hn line1 H1. split.
    + apply condition_line_inv in H1 as (head & val & x & _ & _ & ->).
      eexists. by rewrite !app_assoc.
    + unfold emit, translate_line. rewrite Hl.
      unfold is_condition in Hcond. rewrite Hcond, H1. cbn [bind].
      pose proof (condition_line_keeps_class _ _ _ _ Hn Hleaf H1) as Hk.
      unfold is_leaf in Hk. rewrite Hk.
      unfold class_line, predicted_value. by rewrite <- !app_assoc.
Qed.

Lemma C10_substring_classification_witness :
  let raw := Samples.class_feature_line in
  let a := analyse ∅ [] raw in
  is_leaf (normalize raw) = true
  /\ is_condition (normalize raw) = true
  /\ getitem (a_dict a) (key 3) = 0%Z
  /\ emit 0 (py "  ") a
     = Ok (py "  "
           ++ (a_add_end_front a
               ++ replace (py "class:") (py "PREDICTED_VALUE_1 =")
                    (py "   " ++ END_nl
                     ++ py "     ELSE IF class_x <= 0.5 THEN DO;")
               ++ py ";")
           ++ [nl]).
Proof.
  intros raw a.
  assert (H1 : is_leaf (normalize raw) = true) by reflexivity.
  assert (H2 : is_condition (normalize raw) = true) by reflexivity.
  destruct (proj1 C10_substring_classification ∅ [] raw 0%Z (py "  ") H1 H2)
    as (A & _ & B).
  refine (conj H1 (conj H2 (conj _ _))).
  - rewrite A. reflexivity.
  - refine (proj2 (B _ _ _)).
    + vm_compute. discriminate.
    + vm_compute. reflexivity.
Defined.

End Properties.
(* ===================================================================== *)
(** * Further properties of the translator                                *)
(* ===================================================================== *)

Module Coverage.
Import PyStr PyStrFacts TreeToSas Model TreeToSasFacts Balance.
Import Invariants CoverageFacts.

(** ** The stack of open blocks *)

(** X1. Whatever the text, the stack [current_elseif_count] never decreases
    from its bottom to its top.  So the [while] loop of a line pops all
    the depths above the depth of the line, not only those on top, and
    what the line leaves on the stack is at most its own depth. *)
Theorem open_blocks_nondecreasing (lines : list str) (i : nat)
    (a : analysis) :
  trace ∅ [] lines !! i = Some a ->
  let before := snd (final ∅ [] (take i lines)) in
  nondecreasing before
  /\ a_pops a = length (List.filter (fun t => a_n_spaces a <? t) before)
  /\ Forall (fun t => t <= a_n_spaces a) (a_stack a)
  /\ nondecreasing (a_stack a).
Proof.
  intros H before.
  apply trace_lookup in H as (raw & _ & ->).
  assert (Hb : nondecreasing before) by (by apply stack_sorted).
  split; [done|].
  destruct (stack_sorted_step (fst (final ∅ [] (take i lines))) before raw Hb)
    as (A & B & C).
  done.
Qed.

Lemma open_blocks_nondecreasing_witness :
  let lines := split nl Samples.nested_text in
  let a := Samples.analysis_at Samples.nested_text 7 in
  trace ∅ [] lines !! 7%nat = Some a
  /\ snd (final ∅ [] (take 7 lines)) = [3; 5]
  /\ a_n_spaces a = 0
  /\ a_pops a = 2
  /\ a_stack a = [].
Proof.
  assert (H : trace ∅ [] (split nl Samples.nested_text) !! 7%nat
              = Some (Samples.analysis_at Samples.nested_text 7))
    by (vm_compute; reflexivity).
  pose proof (open_blocks_nondecreasing _ _ _ H) as (_ & P & _ & _).
  split; [exact H|]. split; [vm_compute; reflexivity|].
  split; [vm_compute; reflexivity|]. split; [|vm_compute; reflexivity].
  rewrite P. vm_compute. reflexivity.
Defined.

(** X2. For a text that translates, the stack that is left holds the pushes
    that no pop has taken back: the pops never outnumber the pushes. *)
Theorem pops_never_exceed_pushes (tree_id : Z) (sas_table text : str)
    (spacing : Z) (st : state) :
  run tree_id sas_table text spacing = Ok st ->
  let tr := trace ∅ [] (split nl text) in
  length (current_elseif_count st) + total a_pops tr = total pushes tr.
Proof.
  intros H tr. apply run_final in H as [_ ->].
  apply (stack_account (split nl text) ∅ []).
Qed.

Lemma pops_never_exceed_pushes_witness :
  exists st,
    run 0 (py "T") (py "|- a <= 1" ++ [nl] ++ py "|- a >  1") 2 = Ok st
    /\ current_elseif_count st = [3]
    /\ length (current_elseif_count st)
       + total a_pops
           (trace ∅ [] (split nl (py "|- a <= 1" ++ [nl] ++ py "|- a >  1")))
       = total pushes
           (trace ∅ [] (split nl (py "|- a <= 1" ++ [nl] ++ py "|- a >  1"))).
Proof.
  assert (Hrun : exists st,
             run 0 (py "T") (py "|- a <= 1" ++ [nl] ++ py "|- a >  1") 2
             = Ok st /\ current_elseif_count st = [3]).
  { vm_compute. eexists. split; reflexivity. }
  destruct Hrun as (st & Hrun & Hst). exists st.
  split; [exact Hrun|]. split; [exact Hst|].
  exact (pops_never_exceed_pushes _ _ _ _ _ Hrun).
Defined.

(** ** The counter of the depths *)

(** X3. After a translation, [dict_space_count] holds a key for each depth
    at which some line stands, and no other key; the value of a depth is
    the number of its lines that do not contain ['class'] (0 when the
    depth has such lines only). *)
Theorem counter_after_translation (tree_id : Z) (sas_table text : str)
    (spacing : Z) (st : state) :
  run tree_id sas_table text spacing = Ok st ->
  let lines := split nl text in
  (forall n,
      dict_space_count st !! key n
      = if existsb (fun raw => count_leading (normalize raw) =? n) lines
        then Some (Z.of_nat (occurrences n lines)) else None)
  /\ (forall k, is_Some (dict_space_count st !! k) -> exists n, k = key n).
Proof.
  intros H lines. apply run_final in H as [-> _]. fold lines. split.
  - intros n.
    pose proof (final_dom lines ∅ [] (key n)) as Hdom.
    pose proof (final_getitem lines ∅ [] n) as Hval.
    rewrite getitem_empty, Z.add_0_l in Hval.
    destruct (existsb _ lines) eqn:Ex.
    + rewrite lookup_getitem, Hval; [done|].
      apply Hdom. right.
      apply existsb_exists in Ex as (raw & Hin & Hn).
      exists raw. split; [by apply list_elem_of_In|].
      apply Nat.eqb_eq in Hn. by rewrite Hn.
    + apply eq_None_not_Some. intros Hs.
      apply Hdom in Hs as [Hs|(raw & Hin & Hk)].
      * rewrite lookup_empty in Hs. by destruct Hs.
      * apply key_inj in Hk.
        assert (existsb (fun raw => count_leading (normalize raw) =? n)
                  lines = true); [|congruence].
        apply existsb_exists. exists raw.
        split; [by apply list_elem_of_In|]. by apply Nat.eqb_eq.
  - intros k Hs. apply final_dom in Hs as [Hs|(raw & _ & ->)].
    + rewrite lookup_empty in Hs. by destruct Hs.
    + by eexists.
Qed.

Lemma counter_after_translation_witness :
  exists st,
    run 0 (py "DATASET") Samples.nested_text 2 = Ok st
    /\ dict_space_count st !! key 3 = Some 2%Z
    /\ dict_space_count st !! key 7 = Some 0%Z
    /\ dict_space_count st !! key 4 = None.
Proof.
  assert (Hrun : exists st,
             run 0 (py "DATASET") Samples.nested_text 2 = Ok st).
  { vm_compute. eexists. reflexivity. }
  destruct Hrun as [st Hrun]. exists st. split; [exact Hrun|].
  destruct (counter_after_translation _ _ _ _ _ Hrun) as [H _].
  rewrite !H. vm_compute. repeat split; reflexivity.
Defined.

(** ** The normalised line *)

(** X4. The normalised line holds neither bar nor dash: it is the line
    without its trailing whitespace, with a blank in the place of every
    bar and every dash, and every other character kept. *)
Theorem normalize_removes_connectors (raw : str) :
  ("|"%char ∉ normalize raw)
  /\ ("-"%char ∉ normalize raw)
  /\ length (normalize raw) = length (rstrip raw)
  /\ forall i c,
       rstrip raw !! i = Some c ->
       normalize raw !! i
       = Some (if eqc c "|" || eqc c "-" then " "%char else c).
Proof.
  rewrite normalize_map.
  pose proof (map_glyph_no_connectors (rstrip raw)) as H.
  rewrite Forall_forall in H.
  split; [by intros Hin; apply H in Hin as [? _]|].
  split; [by intros Hin; apply H in Hin as [_ ?]|].
  split; [by rewrite length_map|].
  intros i c Hc. by rewrite lookup_map, Hc, <- glyph_test.
Qed.

(** X5. The depth [n_spaces] of a line is the length of its longest prefix
    made of blanks, bars and dashes (or of the whole line without its
    trailing whitespace, when it holds nothing else). *)
Theorem depth_counts_connectors (raw : str) :
  count_leading (normalize raw)
  = length (rstrip raw) - length (lstrip_chars (py " |-") (rstrip raw)).
Proof. rewrite normalize_map. apply count_leading_glyph. Qed.

(** ** Lines that are neither conditions nor predictions *)

(** X6. A line without comparison operator and without ['class'] (an empty
    line, a line of a truncated branch) is written as it is after the
    indent and the pending terminators; yet it is counted at its depth,
    and its depth is pushed when that count is even. *)
Theorem plain_line_passes_through (d : gmap str Z) (st : list nat)
    (raw : str) (tree_id : Z) (skip : str) :
  is_condition (normalize raw) = false ->
  is_leaf (normalize raw) = false ->
  let a := analyse d st raw in
  let n := count_leading (normalize raw) in
  emit tree_id skip a
  = Ok (skip ++ (concat (repeat END_nl (a_pops a)) ++ normalize raw) ++ [nl])
  /\ getitem (a_dict a) (key n) = (getitem d (key n) + 1)%Z
  /\ exists kept popped,
       st = kept ++ popped
       /\ length popped = a_pops a
       /\ a_stack a
          = kept ++ (if Z.even (getitem d (key n) + 1) then [n] else []).
Proof.
  intros Hc Hl a n. split; [|split].
  - rewrite emit_unfold. unfold a.
    rewrite a_line_analyse, Hc, a_add_end_front_analyse. cbn [bind].
    by rewrite Hl.
  - unfold a. rewrite count_after_line. unfold counted_at.
    fold n. by rewrite Hl, Nat.eqb_refl.
  - destruct (popped_stack n st) as (popped & E & Hlen & _ & _).
    exists (rev (snd (pop_while n (rev st)))), popped.
    split; [done|]. split; [unfold a; by rewrite a_pops_analyse|].
    unfold a. rewrite a_stack_analyse, front_add_analyse. cbn zeta.
    fold n. rewrite Hl. cbn [negb]. rewrite andb_true_r.
    destruct (Z.even _); [done|by rewrite app_nil_r].
Qed.

Lemma plain_line_passes_through_witness :
  let raw := py "| |- truncated branch of depth 2" in
  let a := analyse ∅ [3] raw in
  emit 0 (py "  ") a
  = Ok (py "  " ++ py "     truncated branch of depth 2" ++ [nl])
  /\ getitem (a_dict a) (key 5) = 1%Z
  /\ a_stack a = [3].
Proof.
  destruct (plain_line_passes_through ∅ [3]
              (py "| |- truncated branch of depth 2") 0 (py "  ")
              ltac:(vm_compute; reflexivity) ltac:(vm_compute; reflexivity))
    as (A & B & _).
  split; [|split].
  - rewrite A. vm_compute. reflexivity.
  - vm_compute. reflexivity.
  - vm_compute. reflexivity.
Defined.

(** ** When the translation raises *)

(** X7. A text translates exactly when every line that holds a comparison
    operator has, once normalised, at least two words of which the last
    one is read by [float]. *)
Theorem translation_succeeds_iff {Tree : Type} (tree : Tree) (tree_id : Z)
    (sas_table : str) (features : list str) (text : str) (spacing : Z) :
  (exists out,
      translate_text_to_sas tree tree_id sas_table features text spacing
      = Ok out)
  <-> Forall
        (fun raw =>
           is_condition (normalize raw) = true ->
           exists head val x,
             rsplit1 (normalize raw) = [head; val]
             /\ PyFloat.float_of_str val = Some x)
        (split nl text).
Proof. apply translate_ok_iff. Qed.

(** X8. When the translation raises, the exception comes from the first
    line with a comparison operator that does not end in a number: the
    unpacking error of a line of one word (never of another number of
    words), or the error of [float] on the last word. *)
Theorem translation_error {Tree : Type} (tree : Tree) (tree_id : Z)
    (sas_table : str) (features : list str) (text : str) (spacing : Z)
    (e : exn) :
  translate_text_to_sas tree tree_id sas_table features text spacing
  = Raise e ->
  exists i raw,
    split nl text !! i = Some raw
    /\ is_condition (normalize raw) = true
    /\ ((e = UnpackError 1 /\ exists w, rsplit1 (normalize raw) = [w])
        \/ (exists head val,
               e = FloatError val
               /\ rsplit1 (normalize raw) = [head; val]
               /\ val <> []
               /\ Forall (fun c => is_space c = false) val
               /\ PyFloat.float_of_str val = None))
    /\ forall j raw',
         j < i -> split nl text !! j = Some raw' ->
         is_condition (normalize raw') = true ->
         exists head val x,
           rsplit1 (normalize raw') = [head; val]
           /\ PyFloat.float_of_str val = Some x.
Proof.
  rewrite translate_unfold.
  destruct (emit_all _ _ _) as [chunks|e'] eqn:E; cbn [bind]; [done|].
  intros [= ->].
  apply emit_all_raise in E as (i & a & Hi & He & Hbefore).
  pose proof Hi as Hi'.
  apply trace_lookup in Hi' as (raw & Hraw & Ha).
  assert (Hline : a_line a = normalize raw)
    by (rewrite Ha; apply a_line_analyse).
  apply emit_raise in He as [Hc He]. rewrite Hline in Hc, He.
  exists i, raw. split; [done|]. split; [done|]. split.
  - destruct (condition_line_result (a_n_spaces a) (a_front_add a) _ Hc)
      as [(h & v & x & out & _ & _ & E3)
         |[(w & E1 & E3)|(h & v & E1 & N1 & N2 & E2 & E3)]];
      rewrite E3 in He.
    + done.
    + injection He as <-. left. by eauto.
    + injection He as <-. right. by exists h, v.
  - intros j raw' Hj Hraw' Hc'.
    destruct (trace_lookup_line _ ∅ [] _ _ Hraw') as (a' & Ha' & Hl').
    destruct (Hbefore j a' Hj Ha') as [chunk Hchunk].
    assert (Hok : exists chunk,
               emit tree_id (times (py " ") spacing) a' = Ok chunk)
      by eauto.
    apply emit_ok_iff in Hok; [|by rewrite Hl'].
    by rewrite Hl' in Hok.
Qed.

Lemma translation_error_witness :
  translate_text_to_sas tt 0 (py "T") []
    (py "|- a <= 1" ++ [nl] ++ py "|- <") 2
  = Raise (UnpackError 1)
  /\ exists i raw,
       split nl (py "|- a <= 1" ++ [nl] ++ py "|- <") !! i = Some raw
       /\ is_condition (normalize raw) = true
       /\ exists w, rsplit1 (normalize raw) = [w].
Proof.
  assert (H : translate_text_to_sas tt 0 (py "T") []
                (py "|- a <= 1" ++ [nl] ++ py "|- <") 2
              = Raise (UnpackError 1)) by (vm_compute; reflexivity).
  split; [exact H|].
  destruct (translation_error _ _ _ _ _ _ _ H)
    as (i & raw & A & B & [[_ C]|(h & v & D & _)] & _).
  - by exists i, raw.
  - discriminate D.
Defined.

(** ** The sign of a threshold *)

(** X9. The dash of a negative threshold is replaced by a blank with the
    connectors of the tree: the last word of a normalised line holds no
    dash, and the number written for it never starts with a minus
    sign. *)
Theorem emitted_threshold_never_negative (n : nat) (front raw out : str) :
  condition_line n front (normalize raw) = Ok out ->
  exists head val x,
    rsplit1 (normalize raw) = [head; val]
    /\ ("-"%char ∉ val)
    /\ PyFloat.float_of_str val = Some x
    /\ startswith (py "-") (PyFloat.format_g x) = false
    /\ out = replace (spaces n) (spaces n ++ front) head
             ++ py " " ++ PyFloat.format_g x ++ py " THEN DO;".
Proof.
  intros H.
  apply condition_line_inv in H as (head & val & x & Hs & Hx & ->).
  assert (Hval : "-"%char ∉ val).
  { intros Hin. apply (rsplit1_last_sub _ _ _ _ Hs) in Hin.
    by apply normalize_no_dash in Hin. }
  exists head, val, x. repeat split; try done.
  by eapply ThresholdFacts.format_g_unsigned,
    ThresholdFacts.float_of_str_unsigned.
Qed.

Lemma emitted_threshold_never_negative_witness :
  exists head val x,
    rsplit1 (normalize (py "|--- x <= -1.500000")) = [head; val]
    /\ ("-"%char ∉ val)
    /\ PyFloat.float_of_str val = Some x
    /\ startswith (py "-") (PyFloat.format_g x) = false
    /\ py "     IF x <= 1.5 THEN DO;"
       = replace (spaces 5) (spaces 5 ++ py "IF ") head
         ++ py " " ++ PyFloat.format_g x ++ py " THEN DO;".
Proof.
  apply (emitted_threshold_never_negative 5 (py "IF ")
           (py "|--- x <= -1.500000")).
  vm_compute. reflexivity.
Defined.

(** ** The empty text and the indent *)

(** X10. The empty text has one line, the empty one: its translation is the
    header, the indent and ['RUN;'], without a line break between the
    last two. *)
Theorem empty_text_translation {Tree : Type} (tree : Tree) (tree_id : Z)
    (sas_table : str) (features : list str) (spacing : Z) :
  translate_text_to_sas tree tree_id sas_table features [] spacing
  = Ok (header tree_id sas_table ++ times (py " ") spacing ++ py "RUN;").
Proof.
  rewrite translate_unfold.
  change (split nl []) with [[] : str].
  cbn [trace emit_all]. rewrite emit_unfold.
  rewrite a_line_analyse, a_add_end_front_analyse, a_pops_analyse.
  change (normalize []) with ([] : str).
  change (is_condition []) with false. cbn [bind].
  change (is_leaf []) with false. cbn iota.
  change (count_leading []) with 0.
  cbn [rev pop_while fst repeat concat app].
  rewrite !app_nil_r, app_assoc, removelast_last, <- app_assoc.
  reflexivity.
Qed.

(** X11. The argument [spacing] of [translate_text_to_sas] only sets the
    indent that starts the chunk of each line: whether the translation
    raises, which exception, and the rest of every chunk do not depend
    on it. *)
Theorem spacing_only_indents {Tree : Type} (tree : Tree) (tree_id : Z)
    (sas_table : str) (features : list str) (text : str) :
  exists bodies : result (list str),
    forall spacing,
      translate_text_to_sas tree tree_id sas_table features text spacing
      = let! bodies := bodies in
        Ok (removelast
              (header tree_id sas_table
               ++ concat (map (fun body => times (py " ") spacing ++ body)
                            bodies))
            ++ py "RUN;").
Proof.
  exists (emit_all tree_id [] (trace ∅ [] (split nl text))).
  intros spacing. rewrite translate_unfold, emit_all_skip.
  by destruct (emit_all tree_id [] _).
Qed.

(** ** The names of a tree *)

(** X12. Different tree identifiers give different data set names and
    different target variables, negative identifiers included: the
    header determines the identifier and the table, and the target
    variable determines the identifier. *)
Theorem tree_names_are_distinct (i j : Z) (table table' : str) :
  (header i table = header j table' -> i = j /\ table = table')
  /\ (predicted_value i = predicted_value j -> i = j).
Proof.
  split.
  - unfold header. rewrite <- !app_assoc. intros H.
    apply app_inv_head in H.
    change (py ";" ++ [nl] ++ py "SET " ++ table ++ py ";" ++ [nl])
      with (";"%char :: [nl] ++ py "SET " ++ table ++ py ";" ++ [nl]) in H.
    change (py ";" ++ [nl] ++ py "SET " ++ table' ++ py ";" ++ [nl])
      with (";"%char :: [nl] ++ py "SET " ++ table' ++ py ";" ++ [nl]) in H.
    apply ThresholdFacts.app_sep_inj in H as [Hn Hrest];
      [|by apply ThresholdFacts.str_of_int_no..].
    apply str_of_int_inj in Hn. split; [lia|].
    apply app_inv_head in Hrest. apply app_inv_head in Hrest.
    by apply app_inv_tail in Hrest.
  - unfold predicted_value. intros H.
    apply app_inv_head in H. apply app_inv_tail in H.
    apply str_of_int_inj in H. lia.
Qed.

(** ** The precision of a threshold *)

(** X13. A finite threshold is written with six significant digits: what is
    written is a decimal number that differs from the float of the
    threshold by at most five millionths of itself. *)
Theorem threshold_keeps_six_digits (n : nat) (front line out : str) :
  condition_line n front line = Ok out ->
  exists head val x,
    rsplit1 line = [head; val]
    /\ PyFloat.float_of_str val = Some x
    /\ out = replace (spaces n) (spaces n ++ front) head
             ++ py " " ++ PyFloat.format_g x ++ py " THEN DO;"
    /\ forall s m e,
         x = S754_finite s m e ->
         exists body m' e',
           PyFloat.format_g x = PyFloat.sign_part s ++ body
           /\ PyFloat.parse_decimal body = Some (m', e')
           /\ (Qabs (inject_Z (Z.pos m) * 2 ^ e - inject_Z m' * 10 ^ e')
               <= (1 # 200000) * (inject_Z m' * 10 ^ e'))%Q.
Proof.
  intros H.
  apply condition_line_inv in H as (head & val & x & Hs & Hx & ->).
  exists head, val, x. repeat split; try done.
  intros s m e ->. apply ThresholdFacts.format_g_precision.
Qed.

Lemma threshold_keeps_six_digits_witness :
  exists head val x,
    rsplit1 (py "     x <= 1234567.500000") = [head; val]
    /\ PyFloat.float_of_str val = Some x
    /\ py "     IF x <= 1.23457e+06 THEN DO;"
       = replace (spaces 5) (spaces 5 ++ py "IF ") head
         ++ py " " ++ PyFloat.format_g x ++ py " THEN DO;"
    /\ forall s m e,
         x = S754_finite s m e ->
         exists body m' e',
           PyFloat.format_g x = PyFloat.sign_part s ++ body
           /\ PyFloat.parse_decimal body = Some (m', e')
           /\ (Qabs (inject_Z (Z.pos m) * 2 ^ e - inject_Z m' * 10 ^ e')
               <= (1 # 200000) * (inject_Z m' * 10 ^ e'))%Q.
Proof.
  apply (threshold_keeps_six_digits 5 (py "IF ")
           (py "     x <= 1234567.500000")).
  vm_compute. reflexivity.
Defined.

(** ** Rendered trees *)

(** X14. The translation does not raise on the text of a rendered tree that
    fits the input contract and whose thresholds are plain numbers
    (read by [float], without whitespace, bar or dash). *)
Theorem rendered_tree_translates {Tree : Type} (tree : Tree) (tree_id : Z)
    (sas_table : str) (features : list str) (s : nat) (t : Model.tree)
    (spacing : Z) :
  s <> 0 -> wf_tree t = true -> Thresholds.plain_thresholds t = true ->
  exists out,
    translate_text_to_sas tree tree_id sas_table features (render s t)
      spacing
    = Ok out.
Proof.
  intros Hs Hwf Hp.
  destruct (rendered_text_ok tree tree_id sas_table features s t spacing
              Hs Hwf Hp) as (out & H & _).
  by exists out.
Qed.

Lemma rendered_tree_translates_witness :
  exists out,
    translate_text_to_sas tt 0 (py "DATASET") []
      (render 1 Samples.nested_tree) 2
    = Ok out.
Proof.
  apply (rendered_tree_translates tt 0 (py "DATASET") [] 1
           Samples.nested_tree 2);
    [discriminate | reflexivity | vm_compute; reflexivity].
Defined.

(** X15. With [spacing >= 2], when the renderer returns the text of such a
    tree for the spacing [spacing - 1] that it is called with,
    [get_rules] returns a translation that starts with the header, and
    the state that the renderer left. *)
Theorem get_rules_on_rendered_tree {Tree World : Type}
    (export_text :
       Tree -> list str -> Z -> Z -> Z -> World -> (str + str) * World)
    (tree : Tree) (tree_id : Z) (features : list str) (sas_table : str)
    (max_depth spacing : Z) (w w' : World) (t : Model.tree) :
  (2 <= spacing)%Z ->
  export_text tree features max_depth 6%Z (spacing - 1)%Z w
  = (inr (render (Z.to_nat (spacing - 1)) t), w') ->
  wf_tree t = true -> Thresholds.plain_thresholds t = true ->
  exists out,
    get_rules export_text tree tree_id features sas_table max_depth spacing w
    = (Ok out, w')
    /\ startswith (header tree_id sas_table) out = true.
Proof.
  intros Hsp Hexp Hwf Hp. unfold get_rules.
  destruct (Z.ltb_spec spacing 2) as [?|_]; [lia|].
  rewrite Hexp.
  destruct (rendered_text_ok tree tree_id sas_table features
              (Z.to_nat (spacing - 1)) t spacing ltac:(lia) Hwf Hp)
    as (out & H & Hh).
  exists out. by rewrite H.
Qed.

Lemma get_rules_on_rendered_tree_witness :
  exists out,
    get_rules (Samples.fixed_renderer Samples.nested_text) tt 0 []
      (py "DATASET") 100 2 0
    = (Ok out, 1)
    /\ startswith (header 0 (py "DATASET")) out = true.
Proof.
  apply (get_rules_on_rendered_tree
           (Samples.fixed_renderer Samples.nested_text) tt 0 []
           (py "DATASET") 100 2 0 1 Samples.nested_tree);
    [lia | reflexivity | reflexivity | vm_compute; reflexivity].
Defined.

(** ** The example script *)

(** X16. When the script ends without exception, the dictionary holds one
    entry per tree of the forest and no other: the entry of tree [i] is
    under ['TREE_<i>'] and starts with the header of the data set
    [DECISION_TREE_<i+1>] read from [DATASET]; the text printed is the
    entry of the first tree. *)
Theorem script_dictionary {Tree World : Type}
    (export_text :
       Tree -> list str -> Z -> Z -> Z -> World -> (str + str) * World)
    (rf : list Tree) (feature_names : list str) (w w' : World)
    (d : gmap str str) (printed : str) :
  ExampleSasRules.script export_text rf feature_names w
  = (ExampleSasRules.Done (d, printed), w') ->
  (forall i, i < length rf ->
     exists rules,
       d !! ExampleSasRules.tree_name i = Some rules
       /\ startswith (header (Z.of_nat i) (py "DATASET")) rules = true)
  /\ (forall k, is_Some (d !! k) ->
        exists i, i < length rf /\ k = ExampleSasRules.tree_name i)
  /\ rf <> []
  /\ exists rules,
       d !! ExampleSasRules.tree_name 0 = Some rules
       /\ printed = rules ++ [nl].
Proof.
  unfold ExampleSasRules.script.
  destruct (ExampleSasRules.iterate _ _ _ _ _ _ _) as [r w1] eqn:E.
  destruct r as [d1|e]; [|done].
  destruct (d1 !! py "TREE_0") as [rules|] eqn:E0; [|done].
  intros [= <- <- _].
  pose proof E as E'.
  apply ScriptFacts.iterate_done in E as [H1 H2];
    [|by intros j Hj; apply lookup_lt_is_Some].
  split; [exact H1|]. split; [|split].
  - intros k Hk.
    eapply ScriptFacts.iterate_dom in E' as [H|H];
      [| |by intros j Hj; apply lookup_lt_is_Some|exact Hk].
    + rewrite lookup_empty in H. by destruct H.
    + exact H.
  - intros ->. rewrite H2, lookup_empty in E0; [done|].
    intros j Hj. cbn in Hj. lia.
  - by exists rules.
Qed.

Lemma script_dictionary_witness :
  match
    fst (ExampleSasRules.script
           (Samples.fixed_renderer (py "|- class: 0" ++ [nl])) [tt] [] 0)
  with
  | ExampleSasRules.Done (d, printed) =>
      exists rules,
        d !! ExampleSasRules.tree_name 0 = Some rules
        /\ startswith (header 0 (py "DATASET")) rules = true
  | ExampleSasRules.Fail _ => False
  end.
Proof.
  assert (H : match
                fst (ExampleSasRules.script
                       (Samples.fixed_renderer (py "|- class: 0" ++ [nl]))
                       [tt] [] 0)
              with
              | ExampleSasRules.Done _ => true
              | ExampleSasRules.Fail _ => false
              end = true) by (vm_compute; reflexivity).
  destruct (ExampleSasRules.script
              (Samples.fixed_renderer (py "|- class: 0" ++ [nl])) [tt] [] 0)
    as [[[d printed]|e] w'] eqn:E; cbn [fst] in *.
  - destruct (script_dictionary _ _ _ _ _ _ _ E) as (A & _).
    apply (A 0). cbn. lia.
  - discriminate H.
Defined.

(** X17. The script is stopped by an exception of the renderer or of the
    translation of some tree, or by the missing key of an empty forest;
    never by the guard on [spacing] and never by an index out of the
    forest. *)
Theorem script_failures {Tree World : Type}
    (export_text :
       Tree -> list str -> Z -> Z -> Z -> World -> (str + str) * World)
    (rf : list Tree) (feature_names : list str) (w w' : World)
    (e : ExampleSasRules.script_exn) :
  ExampleSasRules.script export_text rf feature_names w
  = (ExampleSasRules.Fail e, w') ->
  (rf = [] /\ e = ExampleSasRules.KeyError (py "TREE_0"))
  \/ (rf <> []
      /\ exists e', e = ExampleSasRules.RulesError e'
                    /\ e' <> SpacingError).
Proof.
  unfold ExampleSasRules.script.
  destruct (ExampleSasRules.iterate _ _ _ _ _ _ _) as [r w1] eqn:E.
  destruct r as [d1|e1].
  - apply ScriptFacts.iterate_done in E as [H1 H2];
      [|by intros j Hj; apply lookup_lt_is_Some].
    destruct (d1 !! py "TREE_0") as [rules|] eqn:E0; [done|].
    intros [= <- _]. left. split; [|done].
    destruct rf as [|t rf]; [done|].
    destruct (H1 0) as (rules & Hr & _); [cbn; lia|].
    change (ExampleSasRules.tree_name (0 + 0)) with (py "TREE_0") in Hr.
    congruence.
  - intros [= <- _]. right. split.
    + intros ->. cbn in E. discriminate E.
    + apply ScriptFacts.iterate_fail in E; [done|].
      by intros j Hj; apply lookup_lt_is_Some.
Qed.

Lemma script_failures_witness :
  ExampleSasRules.script (Samples.fixed_renderer (py "|- a <= b"))
    [tt] [] 0
  = (ExampleSasRules.Fail
       (ExampleSasRules.RulesError (FloatError (py "b"))), 1)
  /\ exists e', ExampleSasRules.RulesError (FloatError (py "b"))
                = ExampleSasRules.RulesError e'
                /\ e' <> SpacingError.
Proof.
  assert (H : ExampleSasRules.script
                (Samples.fixed_renderer (py "|- a <= b")) [tt] [] 0
              = (ExampleSasRules.Fail
                   (ExampleSasRules.RulesError (FloatError (py "b"))), 1))
    by (vm_compute; reflexivity).
  split; [exact H|].
  destruct (script_failures _ _ _ _ _ _ H) as [[D _]|[_ R]];
    [discriminate D | exact R].
Defined.

End Coverage.
